(** * The OpenRouter compatibility layer of claude-code-action

    A shallow embedding of [base-action/src/openrouter.ts] (the lifecycle
    orchestrator, [configureOpenRouterEnvironment]) and of the proxy
    supervisor it imports ([startOpenRouterProxy] with its helpers
    [getAvailablePort], [installProxyDependency], [parseHeaderLines] and
    [waitForProxy]), followed by the properties of the design document that
    can be decided on that code.

    Layout:
    - [JS]: the fragment of the JavaScript runtime the code relies on
      (strings as sequences of UTF-16 code units, [trim], [split],
      [JSON.parse], ordinary objects, [Map] and [Set] in insertion order);
    - [Effects]: the world the supervisor talks to (sockets, file system,
      child processes, the health endpoint) as a reader/state/error monad
      that logs every effect in a trace;
    - [Proxy]: the supervisor;
    - [Orchestrator]: the header directive parser and the entry point;
    - [Vocabulary]: the notions the properties are stated with (shapes of
      traces, concrete worlds and inputs);
    - the lemmas and theorems. *)

From Stdlib Require Import List NArith Bool String Ascii Lia Arith PeanoNat.
From Stdlib Require Import Sorted.
Import ListNotations.

Set Implicit Arguments.
Set Warnings "-register-all".

(* ================================================================== *)
(** * The JavaScript runtime fragment *)
(* ================================================================== *)

Module JS.

(** A JavaScript string is a finite sequence of UTF-16 code units. *)
Definition jstring := list N.

(** [U "text"] is the JavaScript string whose code units are the characters
    of the (ASCII) literal. *)
Definition U (s : string) : jstring :=
  List.map N_of_ascii (list_ascii_of_string s).

Fixpoint jeqb (a b : jstring) : bool :=
  match a, b with
  | [], [] => true
  | x :: a', y :: b' => N.eqb x y && jeqb a' b'
  | _, _ => false
  end.

(** Truthiness of a string value that may be [undefined]: [undefined] and
    the empty string are falsy. *)
Definition truthy (o : option jstring) : bool :=
  match o with
  | Some (_ :: _) => true
  | _ => false
  end.

Definition is_empty (s : jstring) : bool :=
  match s with [] => true | _ => false end.

(** ** Code units with a name *)

Definition cTAB := 9%N.
Definition cLF := 10%N.
Definition cCR := 13%N.
Definition cSPACE := 32%N.
Definition cQUOTE := 34%N.      (* the double quote *)
Definition cCOMMA := 44%N.
Definition cMINUS := 45%N.
Definition cCOLON := 58%N.
Definition cBACKSLASH := 92%N.
Definition cLBRACE := 123%N.
Definition cRBRACE := 125%N.

(** ** [String.prototype.trim]

    White space and line terminators of ECMAScript: TAB, LF, VT, FF, CR,
    SPACE, NBSP, U+1680, U+2000..U+200A, U+2028, U+2029, U+202F, U+205F,
    U+3000 and U+FEFF. *)
Definition is_js_space (c : N) : bool :=
  ((9 <=? c) && (c <=? 13) || (c =? 32) || (c =? 160) || (c =? 5760)
   || (8192 <=? c) && (c <=? 8202) || (c =? 8232) || (c =? 8233)
   || (c =? 8239) || (c =? 8287) || (c =? 12288) || (c =? 65279))%N.

Fixpoint trimStart (s : jstring) : jstring :=
  match s with
  | c :: rest => if is_js_space c then trimStart rest else s
  | [] => []
  end.

(** Trailing white space is dropped from the right: a unit is kept when it
    is not white space or when something is kept after it. *)
Fixpoint trimEnd (s : jstring) : jstring :=
  match s with
  | [] => []
  | c :: rest =>
      match trimEnd rest with
      | [] => if is_js_space c then [] else [c]
      | kept => c :: kept
      end
  end.

Definition trim (s : jstring) : jstring := trimEnd (trimStart s).

(** ** [String.prototype.toLowerCase]

    The string is read as code points (a lead surrogate followed by a
    trail surrogate is one supplementary code point, any other code unit
    stands for itself), every code point is replaced by its lower-case
    mapping, and the result is written back as code units.  The mapping
    is that of the Unicode Default Case Conversion without tailoring, as
    ECMAScript asks: the lower-case mapping of the Unicode Character
    Database (version 14.0), the two units U+0069 U+0307 for U+0130, and
    for the capital sigma U+03A3 the final sigma U+03C2 in place of
    U+03C3 when a cased letter comes before it and none comes after it,
    case-ignorable characters between them being skipped. *)

Definition is_lead_surrogate (c : N) : bool :=
  ((0xD800 <=? c) && (c <=? 0xDBFF))%N.

Definition is_trail_surrogate (c : N) : bool :=
  ((0xDC00 <=? c) && (c <=? 0xDFFF))%N.

Fixpoint code_points (s : jstring) : list N :=
  match s with
  | [] => []
  | c :: rest =>
      match rest with
      | d :: rest' =>
          if is_lead_surrogate c && is_trail_surrogate d
          then (0x10000 + (c - 0xD800) * 0x400 + (d - 0xDC00))%N
                 :: code_points rest'
          else c :: code_points rest
      | [] => [c]
      end
  end.

Definition code_units (cp : N) : jstring :=
  (if cp <? 0x10000 then [cp]
   else [0xD800 + (cp - 0x10000) / 0x400; 0xDC00 + (cp - 0x10000) mod 0x400])%N.

Definition in_ranges (ranges : list (N * N)) (c : N) : bool :=
  existsb (fun r => (fst r <=? c) && (c <=? snd r))%N ranges.

(** The code points with the property [Cased], as ranges. *)
Definition Cased : list (N * N) :=
  [
    (0x0041, 0x005A); (0x0061, 0x007A); (0x00AA, 0x00AA); (0x00B5, 0x00B5);
    (0x00BA, 0x00BA); (0x00C0, 0x00D6); (0x00D8, 0x00F6); (0x00F8, 0x01BA);
    (0x01BC, 0x01BF); (0x01C4, 0x0293); (0x0295, 0x02B8); (0x02C0, 0x02C1);
    (0x02E0, 0x02E4); (0x0345, 0x0345); (0x0370, 0x0373); (0x0376, 0x0377);
    (0x037A, 0x037D); (0x037F, 0x037F); (0x0386, 0x0386); (0x0388, 0x038A);
    (0x038C, 0x038C); (0x038E, 0x03A1); (0x03A3, 0x03F5); (0x03F7, 0x0481);
    (0x048A, 0x052F); (0x0531, 0x0556); (0x0560, 0x0588); (0x10A0, 0x10C5);
    (0x10C7, 0x10C7); (0x10CD, 0x10CD); (0x10D0, 0x10FA); (0x10FD, 0x10FF);
    (0x13A0, 0x13F5); (0x13F8, 0x13FD); (0x1C80, 0x1C88); (0x1C90, 0x1CBA);
    (0x1CBD, 0x1CBF); (0x1D00, 0x1DBF); (0x1E00, 0x1F15); (0x1F18, 0x1F1D);
    (0x1F20, 0x1F45); (0x1F48, 0x1F4D); (0x1F50, 0x1F57); (0x1F59, 0x1F59);
    (0x1F5B, 0x1F5B); (0x1F5D, 0x1F5D); (0x1F5F, 0x1F7D); (0x1F80, 0x1FB4);
    (0x1FB6, 0x1FBC); (0x1FBE, 0x1FBE); (0x1FC2, 0x1FC4); (0x1FC6, 0x1FCC);
    (0x1FD0, 0x1FD3); (0x1FD6, 0x1FDB); (0x1FE0, 0x1FEC); (0x1FF2, 0x1FF4);
    (0x1FF6, 0x1FFC); (0x2071, 0x2071); (0x207F, 0x207F); (0x2090, 0x209C);
    (0x2102, 0x2102); (0x2107, 0x2107); (0x210A, 0x2113); (0x2115, 0x2115);
    (0x2119, 0x211D); (0x2124, 0x2124); (0x2126, 0x2126); (0x2128, 0x2128);
    (0x212A, 0x212D); (0x212F, 0x2134); (0x2139, 0x2139); (0x213C, 0x213F);
    (0x2145, 0x2149); (0x214E, 0x214E); (0x2160, 0x217F); (0x2183, 0x2184);
    (0x24B6, 0x24E9); (0x2C00, 0x2CE4); (0x2CEB, 0x2CEE); (0x2CF2, 0x2CF3);
    (0x2D00, 0x2D25); (0x2D27, 0x2D27); (0x2D2D, 0x2D2D); (0xA640, 0xA66D);
    (0xA680, 0xA69D); (0xA722, 0xA787); (0xA78B, 0xA78E); (0xA790, 0xA7CA);
    (0xA7D0, 0xA7D1); (0xA7D3, 0xA7D3); (0xA7D5, 0xA7D9); (0xA7F5, 0xA7F6);
    (0xA7F8, 0xA7FA); (0xAB30, 0xAB5A); (0xAB5C, 0xAB68); (0xAB70, 0xABBF);
    (0xFB00, 0xFB06); (0xFB13, 0xFB17); (0xFF21, 0xFF3A); (0xFF41, 0xFF5A);
    (0x10400, 0x1044F); (0x104B0, 0x104D3); (0x104D8, 0x104FB);
    (0x10570, 0x1057A); (0x1057C, 0x1058A); (0x1058C, 0x10592);
    (0x10594, 0x10595); (0x10597, 0x105A1); (0x105A3, 0x105B1);
    (0x105B3, 0x105B9); (0x105BB, 0x105BC); (0x10780, 0x10780);
    (0x10783, 0x10785); (0x10787, 0x107B0); (0x107B2, 0x107BA);
    (0x10C80, 0x10CB2); (0x10CC0, 0x10CF2); (0x118A0, 0x118DF);
    (0x16E40, 0x16E7F); (0x1D400, 0x1D454); (0x1D456, 0x1D49C);
    (0x1D49E, 0x1D49F); (0x1D4A2, 0x1D4A2); (0x1D4A5, 0x1D4A6);
    (0x1D4A9, 0x1D4AC); (0x1D4AE, 0x1D4B9); (0x1D4BB, 0x1D4BB);
    (0x1D4BD, 0x1D4C3); (0x1D4C5, 0x1D505); (0x1D507, 0x1D50A);
    (0x1D50D, 0x1D514); (0x1D516, 0x1D51C); (0x1D51E, 0x1D539);
    (0x1D53B, 0x1D53E); (0x1D540, 0x1D544); (0x1D546, 0x1D546);
    (0x1D54A, 0x1D550); (0x1D552, 0x1D6A5); (0x1D6A8, 0x1D6C0);
    (0x1D6C2, 0x1D6DA); (0x1D6DC, 0x1D6FA); (0x1D6FC, 0x1D714);
    (0x1D716, 0x1D734); (0x1D736, 0x1D74E); (0x1D750, 0x1D76E);
    (0x1D770, 0x1D788); (0x1D78A, 0x1D7A8); (0x1D7AA, 0x1D7C2);
    (0x1D7C4, 0x1D7CB); (0x1DF00, 0x1DF09); (0x1DF0B, 0x1DF1E);
    (0x1E900, 0x1E943); (0x1F130, 0x1F149); (0x1F150, 0x1F169);
    (0x1F170, 0x1F189)
  ]%N.

(** The code points with the property [Case_Ignorable], as ranges. *)
Definition Case_Ignorable : list (N * N) :=
  [
    (0x0027, 0x0027); (0x002E, 0x002E); (0x003A, 0x003A); (0x005E, 0x005E);
    (0x0060, 0x0060); (0x00A8, 0x00A8); (0x00AD, 0x00AD); (0x00AF, 0x00AF);
    (0x00B4, 0x00B4); (0x00B7, 0x00B8); (0x02B0, 0x036F); (0x0374, 0x0375);
    (0x037A, 0x037A); (0x0384, 0x0385); (0x0387, 0x0387); (0x0483, 0x0489);
    (0x0559, 0x0559); (0x055F, 0x055F); (0x0591, 0x05BD); (0x05BF, 0x05BF);
    (0x05C1, 0x05C2); (0x05C4, 0x05C5); (0x05C7, 0x05C7); (0x05F4, 0x05F4);
    (0x0600, 0x0605); (0x0610, 0x061A); (0x061C, 0x061C); (0x0640, 0x0640);
    (0x064B, 0x065F); (0x0670, 0x0670); (0x06D6, 0x06DD); (0x06DF, 0x06E8);
    (0x06EA, 0x06ED); (0x070F, 0x070F); (0x0711, 0x0711); (0x0730, 0x074A);
    (0x07A6, 0x07B0); (0x07EB, 0x07F5); (0x07FA, 0x07FA); (0x07FD, 0x07FD);
    (0x0816, 0x082D); (0x0859, 0x085B); (0x0888, 0x0888); (0x0890, 0x0891);
    (0x0898, 0x089F); (0x08C9, 0x0902); (0x093A, 0x093A); (0x093C, 0x093C);
    (0x0941, 0x0948); (0x094D, 0x094D); (0x0951, 0x0957); (0x0962, 0x0963);
    (0x0971, 0x0971); (0x0981, 0x0981); (0x09BC, 0x09BC); (0x09C1, 0x09C4);
    (0x09CD, 0x09CD); (0x09E2, 0x09E3); (0x09FE, 0x09FE); (0x0A01, 0x0A02);
    (0x0A3C, 0x0A3C); (0x0A41, 0x0A42); (0x0A47, 0x0A48); (0x0A4B, 0x0A4D);
    (0x0A51, 0x0A51); (0x0A70, 0x0A71); (0x0A75, 0x0A75); (0x0A81, 0x0A82);
    (0x0ABC, 0x0ABC); (0x0AC1, 0x0AC5); (0x0AC7, 0x0AC8); (0x0ACD, 0x0ACD);
    (0x0AE2, 0x0AE3); (0x0AFA, 0x0AFF); (0x0B01, 0x0B01); (0x0B3C, 0x0B3C);
    (0x0B3F, 0x0B3F); (0x0B41, 0x0B44); (0x0B4D, 0x0B4D); (0x0B55, 0x0B56);
    (0x0B62, 0x0B63); (0x0B82, 0x0B82); (0x0BC0, 0x0BC0); (0x0BCD, 0x0BCD);
    (0x0C00, 0x0C00); (0x0C04, 0x0C04); (0x0C3C, 0x0C3C); (0x0C3E, 0x0C40);
    (0x0C46, 0x0C48); (0x0C4A, 0x0C4D); (0x0C55, 0x0C56); (0x0C62, 0x0C63);
    (0x0C81, 0x0C81); (0x0CBC, 0x0CBC); (0x0CBF, 0x0CBF); (0x0CC6, 0x0CC6);
    (0x0CCC, 0x0CCD); (0x0CE2, 0x0CE3); (0x0D00, 0x0D01); (0x0D3B, 0x0D3C);
    (0x0D41, 0x0D44); (0x0D4D, 0x0D4D); (0x0D62, 0x0D63); (0x0D81, 0x0D81);
    (0x0DCA, 0x0DCA); (0x0DD2, 0x0DD4); (0x0DD6, 0x0DD6); (0x0E31, 0x0E31);
    (0x0E34, 0x0E3A); (0x0E46, 0x0E4E); (0x0EB1, 0x0EB1); (0x0EB4, 0x0EBC);
    (0x0EC6, 0x0EC6); (0x0EC8, 0x0ECD); (0x0F18, 0x0F19); (0x0F35, 0x0F35);
    (0x0F37, 0x0F37); (0x0F39, 0x0F39); (0x0F71, 0x0F7E); (0x0F80, 0x0F84);
    (0x0F86, 0x0F87); (0x0F8D, 0x0F97); (0x0F99, 0x0FBC); (0x0FC6, 0x0FC6);
    (0x102D, 0x1030); (0x1032, 0x1037); (0x1039, 0x103A); (0x103D, 0x103E);
    (0x1058, 0x1059); (0x105E, 0x1060); (0x1071, 0x1074); (0x1082, 0x1082);
    (0x1085, 0x1086); (0x108D, 0x108D); (0x109D, 0x109D); (0x10FC, 0x10FC);
    (0x135D, 0x135F); (0x1712, 0x1714); (0x1732, 0x1733); (0x1752, 0x1753);
    (0x1772, 0x1773); (0x17B4, 0x17B5); (0x17B7, 0x17BD); (0x17C6, 0x17C6);
    (0x17C9, 0x17D3); (0x17D7, 0x17D7); (0x17DD, 0x17DD); (0x180B, 0x180F);
    (0x1843, 0x1843); (0x1885, 0x1886); (0x18A9, 0x18A9); (0x1920, 0x1922);
    (0x1927, 0x1928); (0x1932, 0x1932); (0x1939, 0x193B); (0x1A17, 0x1A18);
    (0x1A1B, 0x1A1B); (0x1A56, 0x1A56); (0x1A58, 0x1A5E); (0x1A60, 0x1A60);
    (0x1A62, 0x1A62); (0x1A65, 0x1A6C); (0x1A73, 0x1A7C); (0x1A7F, 0x1A7F);
    (0x1AA7, 0x1AA7); (0x1AB0, 0x1ACE); (0x1B00, 0x1B03); (0x1B34, 0x1B34);
    (0x1B36, 0x1B3A); (0x1B3C, 0x1B3C); (0x1B42, 0x1B42); (0x1B6B, 0x1B73);
    (0x1B80, 0x1B81); (0x1BA2, 0x1BA5); (0x1BA8, 0x1BA9); (0x1BAB, 0x1BAD);
    (0x1BE6, 0x1BE6); (0x1BE8, 0x1BE9); (0x1BED, 0x1BED); (0x1BEF, 0x1BF1);
    (0x1C2C, 0x1C33); (0x1C36, 0x1C37); (0x1C78, 0x1C7D); (0x1CD0, 0x1CD2);
    (0x1CD4, 0x1CE0); (0x1CE2, 0x1CE8); (0x1CED, 0x1CED); (0x1CF4, 0x1CF4);
    (0x1CF8, 0x1CF9); (0x1D2C, 0x1D6A); (0x1D78, 0x1D78); (0x1D9B, 0x1DFF);
    (0x1FBD, 0x1FBD); (0x1FBF, 0x1FC1); (0x1FCD, 0x1FCF); (0x1FDD, 0x1FDF);
    (0x1FED, 0x1FEF); (0x1FFD, 0x1FFE); (0x200B, 0x200F); (0x2018, 0x2019);
    (0x2024, 0x2024); (0x2027, 0x2027); (0x202A, 0x202E); (0x2060, 0x2064);
    (0x2066, 0x206F); (0x2071, 0x2071); (0x207F, 0x207F); (0x2090, 0x209C);
    (0x20D0, 0x20F0); (0x2C7C, 0x2C7D); (0x2CEF, 0x2CF1); (0x2D6F, 0x2D6F);
    (0x2D7F, 0x2D7F); (0x2DE0, 0x2DFF); (0x2E2F, 0x2E2F); (0x3005, 0x3005);
    (0x302A, 0x302D); (0x3031, 0x3035); (0x303B, 0x303B); (0x3099, 0x309E);
    (0x30FC, 0x30FE); (0xA015, 0xA015); (0xA4F8, 0xA4FD); (0xA60C, 0xA60C);
    (0xA66F, 0xA672); (0xA674, 0xA67D); (0xA67F, 0xA67F); (0xA69C, 0xA69F);
    (0xA6F0, 0xA6F1); (0xA700, 0xA721); (0xA770, 0xA770); (0xA788, 0xA78A);
    (0xA7F2, 0xA7F4); (0xA7F8, 0xA7F9); (0xA802, 0xA802); (0xA806, 0xA806);
    (0xA80B, 0xA80B); (0xA825, 0xA826); (0xA82C, 0xA82C); (0xA8C4, 0xA8C5);
    (0xA8E0, 0xA8F1); (0xA8FF, 0xA8FF); (0xA926, 0xA92D); (0xA947, 0xA951);
    (0xA980, 0xA982); (0xA9B3, 0xA9B3); (0xA9B6, 0xA9B9); (0xA9BC, 0xA9BD);
    (0xA9CF, 0xA9CF); (0xA9E5, 0xA9E6); (0xAA29, 0xAA2E); (0xAA31, 0xAA32);
    (0xAA35, 0xAA36); (0xAA43, 0xAA43); (0xAA4C, 0xAA4C); (0xAA70, 0xAA70);
    (0xAA7C, 0xAA7C); (0xAAB0, 0xAAB0); (0xAAB2, 0xAAB4); (0xAAB7, 0xAAB8);
    (0xAABE, 0xAABF); (0xAAC1, 0xAAC1); (0xAADD, 0xAADD); (0xAAEC, 0xAAED);
    (0xAAF3, 0xAAF4); (0xAAF6, 0xAAF6); (0xAB5B, 0xAB5F); (0xAB69, 0xAB6B);
    (0xABE5, 0xABE5); (0xABE8, 0xABE8); (0xABED, 0xABED); (0xFB1E, 0xFB1E);
    (0xFBB2, 0xFBC2); (0xFE00, 0xFE0F); (0xFE13, 0xFE13); (0xFE20, 0xFE2F);
    (0xFE52, 0xFE52); (0xFE55, 0xFE55); (0xFEFF, 0xFEFF); (0xFF07, 0xFF07);
    (0xFF0E, 0xFF0E); (0xFF1A, 0xFF1A); (0xFF3E, 0xFF3E); (0xFF40, 0xFF40);
    (0xFF70, 0xFF70); (0xFF9E, 0xFF9F); (0xFFE3, 0xFFE3); (0xFFF9, 0xFFFB);
    (0x101FD, 0x101FD); (0x102E0, 0x102E0); (0x10376, 0x1037A);
    (0x10780, 0x10785); (0x10787, 0x107B0); (0x107B2, 0x107BA);
    (0x10A01, 0x10A03); (0x10A05, 0x10A06); (0x10A0C, 0x10A0F);
    (0x10A38, 0x10A3A); (0x10A3F, 0x10A3F); (0x10AE5, 0x10AE6);
    (0x10D24, 0x10D27); (0x10EAB, 0x10EAC); (0x10F46, 0x10F50);
    (0x10F82, 0x10F85); (0x11001, 0x11001); (0x11038, 0x11046);
    (0x11070, 0x11070); (0x11073, 0x11074); (0x1107F, 0x11081);
    (0x110B3, 0x110B6); (0x110B9, 0x110BA); (0x110BD, 0x110BD);
    (0x110C2, 0x110C2); (0x110CD, 0x110CD); (0x11100, 0x11102);
    (0x11127, 0x1112B); (0x1112D, 0x11134); (0x11173, 0x11173);
    (0x11180, 0x11181); (0x111B6, 0x111BE); (0x111C9, 0x111CC);
    (0x111CF, 0x111CF); (0x1122F, 0x11231); (0x11234, 0x11234);
    (0x11236, 0x11237); (0x1123E, 0x1123E); (0x112DF, 0x112DF);
    (0x112E3, 0x112EA); (0x11300, 0x11301); (0x1133B, 0x1133C);
    (0x11340, 0x11340); (0x11366, 0x1136C); (0x11370, 0x11374);
    (0x11438, 0x1143F); (0x11442, 0x11444); (0x11446, 0x11446);
    (0x1145E, 0x1145E); (0x114B3, 0x114B8); (0x114BA, 0x114BA);
    (0x114BF, 0x114C0); (0x114C2, 0x114C3); (0x115B2, 0x115B5);
    (0x115BC, 0x115BD); (0x115BF, 0x115C0); (0x115DC, 0x115DD);
    (0x11633, 0x1163A); (0x1163D, 0x1163D); (0x1163F, 0x11640);
    (0x116AB, 0x116AB); (0x116AD, 0x116AD); (0x116B0, 0x116B5);
    (0x116B7, 0x116B7); (0x1171D, 0x1171F); (0x11722, 0x11725);
    (0x11727, 0x1172B); (0x1182F, 0x11837); (0x11839, 0x1183A);
    (0x1193B, 0x1193C); (0x1193E, 0x1193E); (0x11943, 0x11943);
    (0x119D4, 0x119D7); (0x119DA, 0x119DB); (0x119E0, 0x119E0);
    (0x11A01, 0x11A0A); (0x11A33, 0x11A38); (0x11A3B, 0x11A3E);
    (0x11A47, 0x11A47); (0x11A51, 0x11A56); (0x11A59, 0x11A5B);
    (0x11A8A, 0x11A96); (0x11A98, 0x11A99); (0x11C30, 0x11C36);
    (0x11C38, 0x11C3D); (0x11C3F, 0x11C3F); (0x11C92, 0x11CA7);
    (0x11CAA, 0x11CB0); (0x11CB2, 0x11CB3); (0x11CB5, 0x11CB6);
    (0x11D31, 0x11D36); (0x11D3A, 0x11D3A); (0x11D3C, 0x11D3D);
    (0x11D3F, 0x11D45); (0x11D47, 0x11D47); (0x11D90, 0x11D91);
    (0x11D95, 0x11D95); (0x11D97, 0x11D97); (0x11EF3, 0x11EF4);
    (0x13430, 0x13438); (0x16AF0, 0x16AF4); (0x16B30, 0x16B36);
    (0x16B40, 0x16B43); (0x16F4F, 0x16F4F); (0x16F8F, 0x16F9F);
    (0x16FE0, 0x16FE1); (0x16FE3, 0x16FE4); (0x1AFF0, 0x1AFF3);
    (0x1AFF5, 0x1AFFB); (0x1AFFD, 0x1AFFE); (0x1BC9D, 0x1BC9E);
    (0x1BCA0, 0x1BCA3); (0x1CF00, 0x1CF2D); (0x1CF30, 0x1CF46);
    (0x1D167, 0x1D169); (0x1D173, 0x1D182); (0x1D185, 0x1D18B);
    (0x1D1AA, 0x1D1AD); (0x1D242, 0x1D244); (0x1DA00, 0x1DA36);
    (0x1DA3B, 0x1DA6C); (0x1DA75, 0x1DA75); (0x1DA84, 0x1DA84);
    (0x1DA9B, 0x1DA9F); (0x1DAA1, 0x1DAAF); (0x1E000, 0x1E006);
    (0x1E008, 0x1E018); (0x1E01B, 0x1E021); (0x1E023, 0x1E024);
    (0x1E026, 0x1E02A); (0x1E130, 0x1E13D); (0x1E2AE, 0x1E2AE);
    (0x1E2EC, 0x1E2EF); (0x1E8D0, 0x1E8D6); (0x1E944, 0x1E94B);
    (0x1F3FB, 0x1F3FF); (0xE0001, 0xE0001); (0xE0020, 0xE007F);
    (0xE0100, 0xE01EF)
  ]%N.

(** The lower-case mappings that change a code point, as runs
    [(first, last, step, target)]: the code points [first],
    [first + step], ..., [last] map to [target], [target + step], ... *)
Definition Lowercase_Mapping : list (N * N * N * N) :=
  [
    (0x0041, 0x005A, 1, 0x0061); (0x00C0, 0x00D6, 1, 0x00E0);
    (0x00D8, 0x00DE, 1, 0x00F8); (0x0100, 0x012E, 2, 0x0101);
    (0x0132, 0x0136, 2, 0x0133); (0x0139, 0x0147, 2, 0x013A);
    (0x014A, 0x0176, 2, 0x014B); (0x0178, 0x0178, 1, 0x00FF);
    (0x0179, 0x017D, 2, 0x017A); (0x0181, 0x0181, 1, 0x0253);
    (0x0182, 0x0184, 2, 0x0183); (0x0186, 0x0186, 1, 0x0254);
    (0x0187, 0x0187, 1, 0x0188); (0x0189, 0x018A, 1, 0x0256);
    (0x018B, 0x018B, 1, 0x018C); (0x018E, 0x018E, 1, 0x01DD);
    (0x018F, 0x018F, 1, 0x0259); (0x0190, 0x0190, 1, 0x025B);
    (0x0191, 0x0191, 1, 0x0192); (0x0193, 0x0193, 1, 0x0260);
    (0x0194, 0x0194, 1, 0x0263); (0x0196, 0x0196, 1, 0x0269);
    (0x0197, 0x0197, 1, 0x0268); (0x0198, 0x0198, 1, 0x0199);
    (0x019C, 0x019C, 1, 0x026F); (0x019D, 0x019D, 1, 0x0272);
    (0x019F, 0x019F, 1, 0x0275); (0x01A0, 0x01A4, 2, 0x01A1);
    (0x01A6, 0x01A6, 1, 0x0280); (0x01A7, 0x01A7, 1, 0x01A8);
    (0x01A9, 0x01A9, 1, 0x0283); (0x01AC, 0x01AC, 1, 0x01AD);
    (0x01AE, 0x01AE, 1, 0x0288); (0x01AF, 0x01AF, 1, 0x01B0);
    (0x01B1, 0x01B2, 1, 0x028A); (0x01B3, 0x01B5, 2, 0x01B4);
    (0x01B7, 0x01B7, 1, 0x0292); (0x01B8, 0x01B8, 1, 0x01B9);
    (0x01BC, 0x01BC, 1, 0x01BD); (0x01C4, 0x01C4, 1, 0x01C6);
    (0x01C5, 0x01C5, 1, 0x01C6); (0x01C7, 0x01C7, 1, 0x01C9);
    (0x01C8, 0x01C8, 1, 0x01C9); (0x01CA, 0x01CA, 1, 0x01CC);
    (0x01CB, 0x01DB, 2, 0x01CC); (0x01DE, 0x01EE, 2, 0x01DF);
    (0x01F1, 0x01F1, 1, 0x01F3); (0x01F2, 0x01F4, 2, 0x01F3);
    (0x01F6, 0x01F6, 1, 0x0195); (0x01F7, 0x01F7, 1, 0x01BF);
    (0x01F8, 0x021E, 2, 0x01F9); (0x0220, 0x0220, 1, 0x019E);
    (0x0222, 0x0232, 2, 0x0223); (0x023A, 0x023A, 1, 0x2C65);
    (0x023B, 0x023B, 1, 0x023C); (0x023D, 0x023D, 1, 0x019A);
    (0x023E, 0x023E, 1, 0x2C66); (0x0241, 0x0241, 1, 0x0242);
    (0x0243, 0x0243, 1, 0x0180); (0x0244, 0x0244, 1, 0x0289);
    (0x0245, 0x0245, 1, 0x028C); (0x0246, 0x024E, 2, 0x0247);
    (0x0370, 0x0372, 2, 0x0371); (0x0376, 0x0376, 1, 0x0377);
    (0x037F, 0x037F, 1, 0x03F3); (0x0386, 0x0386, 1, 0x03AC);
    (0x0388, 0x038A, 1, 0x03AD); (0x038C, 0x038C, 1, 0x03CC);
    (0x038E, 0x038F, 1, 0x03CD); (0x0391, 0x03A1, 1, 0x03B1);
    (0x03A3, 0x03AB, 1, 0x03C3); (0x03CF, 0x03CF, 1, 0x03D7);
    (0x03D8, 0x03EE, 2, 0x03D9); (0x03F4, 0x03F4, 1, 0x03B8);
    (0x03F7, 0x03F7, 1, 0x03F8); (0x03F9, 0x03F9, 1, 0x03F2);
    (0x03FA, 0x03FA, 1, 0x03FB); (0x03FD, 0x03FF, 1, 0x037B);
    (0x0400, 0x040F, 1, 0x0450); (0x0410, 0x042F, 1, 0x0430);
    (0x0460, 0x0480, 2, 0x0461); (0x048A, 0x04BE, 2, 0x048B);
    (0x04C0, 0x04C0, 1, 0x04CF); (0x04C1, 0x04CD, 2, 0x04C2);
    (0x04D0, 0x052E, 2, 0x04D1); (0x0531, 0x0556, 1, 0x0561);
    (0x10A0, 0x10C5, 1, 0x2D00); (0x10C7, 0x10C7, 1, 0x2D27);
    (0x10CD, 0x10CD, 1, 0x2D2D); (0x13A0, 0x13EF, 1, 0xAB70);
    (0x13F0, 0x13F5, 1, 0x13F8); (0x1C90, 0x1CBA, 1, 0x10D0);
    (0x1CBD, 0x1CBF, 1, 0x10FD); (0x1E00, 0x1E94, 2, 0x1E01);
    (0x1E9E, 0x1E9E, 1, 0x00DF); (0x1EA0, 0x1EFE, 2, 0x1EA1);
    (0x1F08, 0x1F0F, 1, 0x1F00); (0x1F18, 0x1F1D, 1, 0x1F10);
    (0x1F28, 0x1F2F, 1, 0x1F20); (0x1F38, 0x1F3F, 1, 0x1F30);
    (0x1F48, 0x1F4D, 1, 0x1F40); (0x1F59, 0x1F5F, 2, 0x1F51);
    (0x1F68, 0x1F6F, 1, 0x1F60); (0x1F88, 0x1F8F, 1, 0x1F80);
    (0x1F98, 0x1F9F, 1, 0x1F90); (0x1FA8, 0x1FAF, 1, 0x1FA0);
    (0x1FB8, 0x1FB9, 1, 0x1FB0); (0x1FBA, 0x1FBB, 1, 0x1F70);
    (0x1FBC, 0x1FBC, 1, 0x1FB3); (0x1FC8, 0x1FCB, 1, 0x1F72);
    (0x1FCC, 0x1FCC, 1, 0x1FC3); (0x1FD8, 0x1FD9, 1, 0x1FD0);
    (0x1FDA, 0x1FDB, 1, 0x1F76); (0x1FE8, 0x1FE9, 1, 0x1FE0);
    (0x1FEA, 0x1FEB, 1, 0x1F7A); (0x1FEC, 0x1FEC, 1, 0x1FE5);
    (0x1FF8, 0x1FF9, 1, 0x1F78); (0x1FFA, 0x1FFB, 1, 0x1F7C);
    (0x1FFC, 0x1FFC, 1, 0x1FF3); (0x2126, 0x2126, 1, 0x03C9);
    (0x212A, 0x212A, 1, 0x006B); (0x212B, 0x212B, 1, 0x00E5);
    (0x2132, 0x2132, 1, 0x214E); (0x2160, 0x216F, 1, 0x2170);
    (0x2183, 0x2183, 1, 0x2184); (0x24B6, 0x24CF, 1, 0x24D0);
    (0x2C00, 0x2C2F, 1, 0x2C30); (0x2C60, 0x2C60, 1, 0x2C61);
    (0x2C62, 0x2C62, 1, 0x026B); (0x2C63, 0x2C63, 1, 0x1D7D);
    (0x2C64, 0x2C64, 1, 0x027D); (0x2C67, 0x2C6B, 2, 0x2C68);
    (0x2C6D, 0x2C6D, 1, 0x0251); (0x2C6E, 0x2C6E, 1, 0x0271);
    (0x2C6F, 0x2C6F, 1, 0x0250); (0x2C70, 0x2C70, 1, 0x0252);
    (0x2C72, 0x2C72, 1, 0x2C73); (0x2C75, 0x2C75, 1, 0x2C76);
    (0x2C7E, 0x2C7F, 1, 0x023F); (0x2C80, 0x2CE2, 2, 0x2C81);
    (0x2CEB, 0x2CED, 2, 0x2CEC); (0x2CF2, 0x2CF2, 1, 0x2CF3);
    (0xA640, 0xA66C, 2, 0xA641); (0xA680, 0xA69A, 2, 0xA681);
    (0xA722, 0xA72E, 2, 0xA723); (0xA732, 0xA76E, 2, 0xA733);
    (0xA779, 0xA77B, 2, 0xA77A); (0xA77D, 0xA77D, 1, 0x1D79);
    (0xA77E, 0xA786, 2, 0xA77F); (0xA78B, 0xA78B, 1, 0xA78C);
    (0xA78D, 0xA78D, 1, 0x0265); (0xA790, 0xA792, 2, 0xA791);
    (0xA796, 0xA7A8, 2, 0xA797); (0xA7AA, 0xA7AA, 1, 0x0266);
    (0xA7AB, 0xA7AB, 1, 0x025C); (0xA7AC, 0xA7AC, 1, 0x0261);
    (0xA7AD, 0xA7AD, 1, 0x026C); (0xA7AE, 0xA7AE, 1, 0x026A);
    (0xA7B0, 0xA7B0, 1, 0x029E); (0xA7B1, 0xA7B1, 1, 0x0287);
    (0xA7B2, 0xA7B2, 1, 0x029D); (0xA7B3, 0xA7B3, 1, 0xAB53);
    (0xA7B4, 0xA7C2, 2, 0xA7B5); (0xA7C4, 0xA7C4, 1, 0xA794);
    (0xA7C5, 0xA7C5, 1, 0x0282); (0xA7C6, 0xA7C6, 1, 0x1D8E);
    (0xA7C7, 0xA7C9, 2, 0xA7C8); (0xA7D0, 0xA7D0, 1, 0xA7D1);
    (0xA7D6, 0xA7D8, 2, 0xA7D7); (0xA7F5, 0xA7F5, 1, 0xA7F6);
    (0xFF21, 0xFF3A, 1, 0xFF41); (0x10400, 0x10427, 1, 0x10428);
    (0x104B0, 0x104D3, 1, 0x104D8); (0x10570, 0x1057A, 1, 0x10597);
    (0x1057C, 0x1058A, 1, 0x105A3); (0x1058C, 0x10592, 1, 0x105B3);
    (0x10594, 0x10595, 1, 0x105BB); (0x10C80, 0x10CB2, 1, 0x10CC0);
    (0x118A0, 0x118BF, 1, 0x118C0); (0x16E40, 0x16E5F, 1, 0x16E60);
    (0x1E900, 0x1E921, 1, 0x1E922)
  ]%N.

Fixpoint mapped_by (runs : list (N * N * N * N)) (c : N) : N :=
  match runs with
  | [] => c
  | (first, last, step, target) :: later =>
      if ((first <=? c) && (c <=? last) && ((c - first) mod step =? 0))%N
      then (target + (c - first))%N
      else mapped_by later c
  end.

Definition simple_lowercase (c : N) : N := mapped_by Lowercase_Mapping c.

(** After the sigma: case-ignorable characters, then a cased letter. *)
Fixpoint followed_by_cased (rest : list N) : bool :=
  match rest with
  | [] => false
  | c :: later =>
      if in_ranges Case_Ignorable c then followed_by_cased later
      else in_ranges Cased c
  end.

(** [after_cased] says that the last code point read that is not
    case-ignorable is a cased letter. *)
Fixpoint lower_points (after_cased : bool) (s : list N) : list N :=
  match s with
  | [] => []
  | c :: rest =>
      (if N.eqb c 0x03A3 then
         if after_cased && negb (followed_by_cased rest)
         then [0x03C2%N] else [0x03C3%N]
       else if N.eqb c 0x0130 then [0x0069%N; 0x0307%N]
       else [simple_lowercase c])
      ++ lower_points
           (if in_ranges Case_Ignorable c then after_cased
            else in_ranges Cased c)
           rest
  end.

Definition toLowerCase (s : jstring) : jstring :=
  flat_map code_units (lower_points false (code_points s)).

(** ** [startsWith], [endsWith], [indexOf], [slice], [join] *)

Fixpoint startsWith (s p : jstring) : bool :=
  match p, s with
  | [], _ => true
  | x :: p', y :: s' => N.eqb x y && startsWith s' p'
  | _ :: _, [] => false
  end.

Definition endsWith (s p : jstring) : bool :=
  startsWith (rev s) (rev p).

(** [line.indexOf(c)] together with the two slices taken around it:
    [Some (line.slice(0, i), line.slice(i + 1))] for the first index [i]
    holding [c], [None] when [indexOf] answers [-1]. *)
Fixpoint cut_at (c : N) (s : jstring) : option (jstring * jstring) :=
  match s with
  | [] => None
  | x :: rest =>
      if N.eqb x c then Some ([], rest)
      else match cut_at c rest with
           | Some (before, after) => Some (x :: before, after)
           | None => None
           end
  end.

(** [s.slice(n)] for a non-negative [n]. *)
Definition slice_from (n : nat) (s : jstring) : jstring := skipn n s.

(** [parts.join(sep)]. *)
Fixpoint join (sep : jstring) (parts : list jstring) : jstring :=
  match parts with
  | [] => []
  | [p] => p
  | p :: rest => p ++ sep ++ join sep rest
  end.

(** ** [split] on the two separators the code uses *)

(** [s.split(/\r?\n/)]: a separator is LF or CR LF; a CR not followed by
    LF is ordinary text. *)
Fixpoint split_lines (s : jstring) : list jstring :=
  match s with
  | [] => [[]]
  | c :: rest =>
      let r := split_lines rest in
      if N.eqb c cLF then [] :: r
      else if N.eqb c cCR && startsWith rest [cLF] then r
      else match r with
           | h :: t => (c :: h) :: t
           | [] => [[c]]
           end
  end.

(** [s.split(/[\n,]/)]. *)
Fixpoint split_list (s : jstring) : list jstring :=
  match s with
  | [] => [[]]
  | c :: rest =>
      let r := split_list rest in
      if N.eqb c cLF || N.eqb c cCOMMA then [] :: r
      else match r with
           | h :: t => (c :: h) :: t
           | [] => [[c]]
           end
  end.

(** ** Decimal rendering of a non-negative integer ([Number.toString]) *)

Definition digit_unit (d : N) : N := (48 + d)%N.

Fixpoint to_digits (fuel : nat) (n : N) (acc : jstring) : jstring :=
  match fuel with
  | O => acc
  | S fuel' =>
      let acc' := digit_unit (n mod 10) :: acc in
      if (n <? 10)%N then acc' else to_digits fuel' (n / 10) acc'
  end.

Definition number_toString (n : N) : jstring :=
  to_digits (S (N.to_nat (N.log2 n))) n [].

(** ** Ordinary objects

    The own enumerable string-keyed properties of an ordinary object, in
    the order [Object.entries] and spread enumerate them: array-index keys
    (canonical decimal numerals up to 2^32 - 2) first, in ascending numeric
    order, then every other key in the order of its creation. *)

Definition is_digit (c : N) : bool := ((48 <=? c) && (c <=? 57))%N.

Fixpoint digits_value (acc : N) (s : jstring) : option N :=
  match s with
  | [] => Some acc
  | c :: rest =>
      if is_digit c then digits_value (acc * 10 + (c - 48))%N rest else None
  end.

Definition array_index (k : jstring) : option N :=
  match k with
  | [] => None
  | c :: rest =>
      if N.eqb c 48 && negb (is_empty rest) then None
      else match digits_value 0%N k with
           | Some n => if (n <=? 4294967294)%N then Some n else None
           | None => None
           end
  end.

Section Objects.
Variable V : Type.

Definition object := list (jstring * V).

Fixpoint has_key (o : object) (k : jstring) : bool :=
  match o with
  | [] => false
  | (k', _) :: t => jeqb k' k || has_key t k
  end.

Fixpoint get (o : object) (k : jstring) : option V :=
  match o with
  | [] => None
  | (k', v) :: t => if jeqb k' k then Some v else get t k
  end.

(** Writing an existing key keeps the key where it is. *)
Fixpoint replace_value (o : object) (k : jstring) (v : V) : object :=
  match o with
  | [] => []
  | (k', v') :: t =>
      if jeqb k' k then (k', v) :: t else (k', v') :: replace_value t k v
  end.

(** A new array-index key goes before the first key that is not an array
    index or is a larger one. *)
Fixpoint insert_index (o : object) (n : N) (k : jstring) (v : V) : object :=
  match o with
  | [] => [(k, v)]
  | (k', v') :: t =>
      match array_index k' with
      | Some m =>
          if (m <? n)%N then (k', v') :: insert_index t n k v
          else (k, v) :: o
      | None => (k, v) :: o
      end
  end.

(** [CreateDataProperty(o, k, v)]: what an object literal, a spread and
    [JSON.parse] do for every member. *)
Definition obj_define (o : object) (k : jstring) (v : V) : object :=
  if has_key o k then replace_value o k v
  else match array_index k with
       | Some n => insert_index o n k v
       | None => o ++ [(k, v)]
       end.

(** The assignment [o[k] = v] of a string [v] to an object created by
    [{}]: the inherited accessor [__proto__] swallows a value that is
    neither an object nor [null]; every other key becomes (or stays) an
    own data property. *)
Definition obj_assign (o : object) (k : jstring) (v : V) : object :=
  if jeqb k (U "__proto__") then o else obj_define o k v.

End Objects.

(** ** Exceptions

    A computation that may throw answers [Ok v] or [Throw e]. *)

Inductive exn : Type :=
| SyntaxError                      (* thrown by [JSON.parse] *)
| TypeError                        (* thrown by [Object.entries(null)] *)
| Error (message : jstring)        (* [new Error(message)] *)
| SystemError (code : jstring).    (* raised by the platform: EADDRINUSE, ENOENT, ... *)

Inductive result (A : Type) : Type :=
| Ok (a : A)
| Throw (e : exn).
Arguments Ok {A} a.
Arguments Throw {A} e.

Definition rbind (A B : Type) (c : result A) (k : A -> result B) : result B :=
  match c with
  | Ok a => k a
  | Throw e => Throw e
  end.

(** [try { c } catch (error) { h }]. *)
Definition try_catch (A : Type) (c : result A) (h : exn -> result A)
  : result A :=
  match c with
  | Ok a => Ok a
  | Throw e => h e
  end.

(** ** JSON values and [JSON.parse] *)

Inductive json : Type :=
| JNull
| JBool (b : bool)
| JNumber (lexeme : jstring)
| JString (s : jstring)
| JArray (elements : list json)
| JObject (props : object json).

Inductive presult (A : Type) : Type :=
| Parsed (a : A) (rest : jstring)
| Malformed
| OutOfFuel.
Arguments Parsed {A} a rest.
Arguments Malformed {A}.
Arguments OutOfFuel {A}.

(** JSON white space: space, TAB, LF and CR only. *)
Definition is_json_ws (c : N) : bool :=
  ((c =? 32) || (c =? 9) || (c =? 10) || (c =? 13))%N.

Fixpoint skip_ws (s : jstring) : jstring :=
  match s with
  | c :: rest => if is_json_ws c then skip_ws rest else s
  | [] => []
  end.

Definition hex_value (c : N) : option N :=
  (if (48 <=? c) && (c <=? 57) then Some (c - 48)
   else if (65 <=? c) && (c <=? 70) then Some (c - 55)
   else if (97 <=? c) && (c <=? 102) then Some (c - 87)
   else None)%N.

Definition hex4 (a b c d : N) : option N :=
  match hex_value a, hex_value b, hex_value c, hex_value d with
  | Some x, Some y, Some z, Some w => Some (((x * 16 + y) * 16 + z) * 16 + w)%N
  | _, _, _, _ => None
  end.

(** The single-character escapes: quote, backslash, slash, b, f, n, r, t. *)
Definition simple_escape (c : N) : option N :=
  (if c =? 34 then Some 34 else if c =? 92 then Some 92
   else if c =? 47 then Some 47 else if c =? 98 then Some 8
   else if c =? 102 then Some 12 else if c =? 110 then Some 10
   else if c =? 114 then Some 13 else if c =? 116 then Some 9
   else None)%N.

(** The characters of a string literal after its opening quote, up to and
    including the closing quote. *)
Fixpoint parse_chars (s : jstring) : option (jstring * jstring) :=
  match s with
  | [] => None
  | c :: rest =>
      if N.eqb c cQUOTE then Some ([], rest)
      else if (c <? 32)%N then None
      else if N.eqb c cBACKSLASH then
        match rest with
        | [] => None
        | e :: rest1 =>
            if N.eqb e 117 then
              match rest1 with
              | h1 :: h2 :: h3 :: h4 :: rest2 =>
                  match hex4 h1 h2 h3 h4 with
                  | Some u =>
                      match parse_chars rest2 with
                      | Some (str, r) => Some (u :: str, r)
                      | None => None
                      end
                  | None => None
                  end
              | _ => None
              end
            else
              match simple_escape e with
              | Some u =>
                  match parse_chars rest1 with
                  | Some (str, r) => Some (u :: str, r)
                  | None => None
                  end
              | None => None
              end
        end
      else
        match parse_chars rest with
        | Some (str, r) => Some (c :: str, r)
        | None => None
        end
  end.

Fixpoint take_digits (s : jstring) : jstring * jstring :=
  match s with
  | c :: rest =>
      if is_digit c
      then let (d, r) := take_digits rest in (c :: d, r)
      else ([], s)
  | [] => ([], [])
  end.

(** A number is an optional minus sign, an integer part without a leading
    zero (or a lone zero), an optional fraction (a dot and one digit at
    least) and an optional exponent (e or E, an optional sign, one digit at
    least).  The value of the number plays no part in the code; its lexeme
    is kept. *)
Definition parse_int (s : jstring) : option (jstring * jstring) :=
  match s with
  | c :: rest =>
      if N.eqb c 48 then Some ([c], rest)
      else if is_digit c then Some (take_digits s)
      else None
  | [] => None
  end.

Definition parse_frac (s : jstring) : option (jstring * jstring) :=
  match s with
  | c :: rest =>
      if N.eqb c 46 then
        match take_digits rest with
        | ([], _) => None
        | (d, r) => Some (c :: d, r)
        end
      else Some ([], s)
  | [] => Some ([], [])
  end.

Definition parse_exp (s : jstring) : option (jstring * jstring) :=
  match s with
  | c :: rest =>
      if N.eqb c 101 || N.eqb c 69 then
        let (sign, rest1) :=
          match rest with
          | g :: r => if N.eqb g 43 || N.eqb g 45 then ([g], r) else ([], rest)
          | [] => ([], rest)
          end in
        match take_digits rest1 with
        | ([], _) => None
        | (d, r) => Some (c :: sign ++ d, r)
        end
      else Some ([], s)
  | [] => Some ([], [])
  end.

Definition parse_number (s : jstring) : option (jstring * jstring) :=
  let (sign, s1) :=
    match s with
    | c :: rest => if N.eqb c cMINUS then ([c], rest) else ([], s)
    | [] => ([], s)
    end in
  match parse_int s1 with
  | Some (i, s2) =>
      match parse_frac s2 with
      | Some (f, s3) =>
          match parse_exp s3 with
          | Some (e, s4) => Some (sign ++ i ++ f ++ e, s4)
          | None => None
          end
      | None => None
      end
  | None => None
  end.

Definition cLBRACKET := 91%N.
Definition cRBRACKET := 93%N.

Definition parse_literal (s : jstring) : option (json * jstring) :=
  if startsWith s (U "true") then Some (JBool true, skipn 4 s)
  else if startsWith s (U "false") then Some (JBool false, skipn 5 s)
  else if startsWith s (U "null") then Some (JNull, skipn 4 s)
  else match parse_number s with
       | Some (lexeme, r) => Some (JNumber lexeme, r)
       | None => None
       end.

(** The recursive descent over values, array elements and object members.
    Every call spends one unit of [fuel]; [JSON_parse] below provides
    enough of it for the whole text ([parse_value_fuel]). *)
Fixpoint parse_value (fuel : nat) (s : jstring) : presult json :=
  match fuel with
  | O => OutOfFuel
  | S f =>
      match skip_ws s with
      | [] => Malformed
      | c :: rest =>
          if N.eqb c cLBRACE then
            match skip_ws rest with
            | c' :: rest' =>
                if N.eqb c' cRBRACE then Parsed (JObject []) rest'
                else parse_members f [] rest
            | [] => Malformed
            end
          else if N.eqb c cLBRACKET then
            match skip_ws rest with
            | c' :: rest' =>
                if N.eqb c' cRBRACKET then Parsed (JArray []) rest'
                else parse_elements f [] rest
            | [] => Malformed
            end
          else if N.eqb c cQUOTE then
            match parse_chars rest with
            | Some (str, r) => Parsed (JString str) r
            | None => Malformed
            end
          else
            match parse_literal (c :: rest) with
            | Some (v, r) => Parsed v r
            | None => Malformed
            end
      end
  end
with parse_elements (fuel : nat) (acc : list json) (s : jstring)
  : presult json :=
  match fuel with
  | O => OutOfFuel
  | S f =>
      match parse_value f s with
      | Parsed v r =>
          match skip_ws r with
          | c :: r' =>
              if N.eqb c cCOMMA then parse_elements f (acc ++ [v]) r'
              else if N.eqb c cRBRACKET then Parsed (JArray (acc ++ [v])) r'
              else Malformed
          | [] => Malformed
          end
      | Malformed => Malformed
      | OutOfFuel => OutOfFuel
      end
  end
with parse_members (fuel : nat) (acc : object json) (s : jstring)
  : presult json :=
  match fuel with
  | O => OutOfFuel
  | S f =>
      match skip_ws s with
      | c :: r =>
          if N.eqb c cQUOTE then
            match parse_chars r with
            | Some (key, r1) =>
                match skip_ws r1 with
                | c1 :: r2 =>
                    if N.eqb c1 cCOLON then
                      match parse_value f r2 with
                      | Parsed v r3 =>
                          match skip_ws r3 with
                          | c3 :: r4 =>
                              if N.eqb c3 cCOMMA
                              then parse_members f (obj_define acc key v) r4
                              else if N.eqb c3 cRBRACE
                              then Parsed (JObject (obj_define acc key v)) r4
                              else Malformed
                          | [] => Malformed
                          end
                      | Malformed => Malformed
                      | OutOfFuel => OutOfFuel
                      end
                    else Malformed
                | [] => Malformed
                end
            | None => Malformed
            end
          else Malformed
      | [] => Malformed
      end
  end.

(** [JSON.parse(text)]: the parsed value, or a [SyntaxError] when the text
    is not one JSON value between optional white space. *)
Definition JSON_parse (text : jstring) : result json :=
  match parse_value (2 * List.length text + 1) text with
  | Parsed v r => if is_empty (skip_ws r) then Ok v else Throw SyntaxError
  | _ => Throw SyntaxError
  end.

(** ** [Object.entries]

    [null] makes it throw a [TypeError]; numbers and booleans have no own
    enumerable properties; a string exposes its code units and an array its
    elements under their indices. *)
Fixpoint indexed (A : Type) (i : N) (l : list A) : list (jstring * A) :=
  match l with
  | [] => []
  | x :: t => (number_toString i, x) :: indexed (N.succ i) t
  end.

Definition Object_entries (v : json) : result (list (jstring * json)) :=
  match v with
  | JNull => Throw TypeError
  | JBool _ => Ok []
  | JNumber _ => Ok []
  | JString s => Ok (indexed 0%N (List.map (fun c => JString [c]) s))
  | JArray l => Ok (indexed 0%N l)
  | JObject props => Ok props
  end.

(** ** [Map] and [Set] in insertion order *)

Section Collections.
Variable V : Type.

(** [m.set(k, v)]: an existing key keeps its position and takes the new
    value, a new key is appended. *)
Fixpoint map_set (m : list (jstring * V)) (k : jstring) (v : V)
  : list (jstring * V) :=
  match m with
  | [] => [(k, v)]
  | (k', v') :: t =>
      if jeqb k' k then (k', v) :: t else (k', v') :: map_set t k v
  end.

Definition map_get (m : list (jstring * V)) (k : jstring) : option V :=
  get m k.

(** [Array.from(m.values())]. *)
Definition map_values (m : list (jstring * V)) : list V := List.map snd m.

End Collections.

(** [set.add(x)] and [new Set(iterable)]. *)
Fixpoint set_mem (s : list jstring) (x : jstring) : bool :=
  match s with
  | [] => false
  | y :: t => jeqb y x || set_mem t x
  end.

Definition set_add (s : list jstring) (x : jstring) : list jstring :=
  if set_mem s x then s else s ++ [x].

Definition set_of (l : list jstring) : list jstring :=
  fold_left set_add l [].

End JS.

(* ================================================================== *)
(** * The world around the supervisor *)
(* ================================================================== *)

Module Effects.
Import JS.

(** [process.env]. *)
Definition Env := string -> option jstring.

Definition getenv (e : Env) (k : string) : option jstring := e k.

Definition setenv (e : Env) (k : string) (v : jstring) : Env :=
  fun k' => if String.eqb k' k then Some v else e k'.

Definition unsetenv (e : Env) (k : string) : Env :=
  fun k' => if String.eqb k' k then None else e k'.

Definition env_is (e : Env) (k : string) (v : jstring) : bool :=
  match e k with
  | Some x => jeqb x v
  | None => false
  end.

(** What [server.address()] answers. *)
Inductive Address : Type :=
| AddrNull
| AddrPath (path : jstring)
| AddrInfo (port : N).

(** A server that was asked to listen emits ['listening'] or ['error']. *)
Inductive ListenOutcome : Type :=
| Listening (address : Address)
| ListenError (err : exn).

(** A child process emits ['error'] (it could not be spawned) or ['exit']
    with its code, [null] when a signal ended it. *)
Inductive ChildOutcome : Type :=
| ChildError (err : exn)
| ChildExit (code : option N).

(** [fetch] resolves with a response or rejects with a network error. *)
Inductive FetchOutcome : Type :=
| FetchResponse (status : N)
| FetchFailed (err : exn).

(** [response.ok]: the status is in the range 200..299. *)
Definition response_ok (status : N) : bool :=
  ((200 <=? status) && (status <=? 299))%N.

(** The oracles: what the platform answers to each request of the code.
    Sockets, random numbers and health probes are numbered in the order the
    process asks for them. *)
Record World : Type := {
  listen_outcome : nat -> ListenOutcome;
  os_tmpdir : jstring;
  mkdtemp_outcome : jstring -> result jstring;
  math_random_36 : nat -> jstring;   (* [Math.random().toString(36)] *)
  writeFile_outcome : jstring -> jstring -> result unit;
  install_outcome : ChildOutcome;
  fetch_outcome : nat -> FetchOutcome
}.

Inductive Child : Type := PipInstall | LiteLLM.

(** The effects the code has on the world, as they are logged. *)
Inductive Event : Type :=
| EvListen (host : jstring) (port : N)
| EvClose
| EvTimer (ms : N)
| EvMkdtemp (prefix : jstring)
| EvRandom
| EvWriteFile (path content : jstring)
| EvSpawn (which : Child) (command : jstring) (args : list jstring)
| EvFetch (url : jstring)
| EvKill (signal : jstring)
| EvOnce (event : jstring)
| EvWarn (message : jstring).

(** The mutable state of the process. *)
Record State : Type := {
  env : Env;
  proxyInitialized : bool;
  listens : nat;
  randoms : nat;
  fetches : nat
}.

Record Outcome (A : Type) : Type := {
  res : result A;
  final : State;
  events : list Event
}.

(** An asynchronous computation, run to completion: it reads the world,
    updates the state, logs its effects and returns or throws. *)
Definition M (A : Type) : Type := World -> State -> Outcome A.

Definition ret (A : Type) (a : A) : M A :=
  fun _ st => {| res := Ok a; final := st; events := [] |}.

Definition throw (A : Type) (e : exn) : M A :=
  fun _ st => {| res := Throw e; final := st; events := [] |}.
Arguments throw {A} e.

Definition bind (A B : Type) (c : M A) (k : A -> M B) : M B :=
  fun w st =>
    let o := c w st in
    match res o with
    | Ok a =>
        let o' := k a w (final o) in
        {| res := res o'; final := final o'; events := events o ++ events o' |}
    | Throw e => {| res := Throw e; final := final o; events := events o |}
    end.

Definition emit (e : Event) : M unit :=
  fun _ st => {| res := Ok tt; final := st; events := [e] |}.

Definition ask : M World :=
  fun w st => {| res := Ok w; final := st; events := [] |}.

Definition get_state : M State :=
  fun _ st => {| res := Ok st; final := st; events := [] |}.

Definition put_state (st : State) : M unit :=
  fun _ _ => {| res := Ok tt; final := st; events := [] |}.

Definition lift (A : Type) (r : result A) : M A :=
  fun _ st => {| res := r; final := st; events := [] |}.

Declare Scope m_scope.
Delimit Scope m_scope with m.
Notation "x <- c ;; k" := (bind c (fun x => k))
  (at level 61, c at next level, right associativity) : m_scope.
Notation "c ;; k" := (bind c (fun _ => k))
  (at level 61, right associativity) : m_scope.

Local Open Scope m_scope.

Definition modify_env (f : Env -> Env) : M unit :=
  st <- get_state ;;
  put_state {| env := f (env st); proxyInitialized := proxyInitialized st;
               listens := listens st; randoms := randoms st;
               fetches := fetches st |}.

Definition set_initialized (b : bool) : M unit :=
  st <- get_state ;;
  put_state {| env := env st; proxyInitialized := b;
               listens := listens st; randoms := randoms st;
               fetches := fetches st |}.

(** [createServer().listen(port, host)] and the event it leads to. *)
Definition server_listen (port : N) (host : jstring) : M ListenOutcome :=
  w <- ask ;;
  st <- get_state ;;
  put_state {| env := env st; proxyInitialized := proxyInitialized st;
               listens := S (listens st); randoms := randoms st;
               fetches := fetches st |} ;;
  emit (EvListen host port) ;;
  ret (listen_outcome w (listens st)).

Definition server_close : M unit := emit EvClose.

(** [setTimeout(f, ms)] before [f] runs, and [await delay(ms)]. *)
Definition delay (ms : N) : M unit := emit (EvTimer ms).

Definition mkdtemp (prefix : jstring) : M jstring :=
  w <- ask ;;
  emit (EvMkdtemp prefix) ;;
  lift (mkdtemp_outcome w prefix).

(** [Math.random().toString(36)]. *)
Definition Math_random_36 : M jstring :=
  w <- ask ;;
  st <- get_state ;;
  put_state {| env := env st; proxyInitialized := proxyInitialized st;
               listens := listens st; randoms := S (randoms st);
               fetches := fetches st |} ;;
  emit EvRandom ;;
  ret (math_random_36 w (randoms st)).

Definition writeFile (path content : jstring) : M unit :=
  w <- ask ;;
  emit (EvWriteFile path content) ;;
  lift (writeFile_outcome w path content).

Definition spawn (which : Child) (command : jstring) (args : list jstring)
  : M unit :=
  emit (EvSpawn which command args).

(** [fetch(url)], its rejection caught: the caller sees the outcome. *)
Definition fetch (url : jstring) : M FetchOutcome :=
  w <- ask ;;
  st <- get_state ;;
  put_state {| env := env st; proxyInitialized := proxyInitialized st;
               listens := listens st; randoms := randoms st;
               fetches := S (fetches st) |} ;;
  emit (EvFetch url) ;;
  ret (fetch_outcome w (fetches st)).

(** [path.join(a, b)] for a directory and a plain file name. *)
Definition path_join (a b : jstring) : jstring := a ++ U "/" ++ b.

End Effects.

(* ================================================================== *)
(** * The proxy supervisor ([startOpenRouterProxy] and its helpers) *)
(* ================================================================== *)

Module Proxy.
Import JS Effects.
Local Open Scope m_scope.

Module Handle.
(** [ProxyHandle]. *)
Record t : Type := {
  baseUrl : jstring;
  masterKey : jstring;
  stop : M unit
}.
End Handle.

(** [OpenRouterProxyOptions]; an optional field is [None] when absent. *)
Record OpenRouterProxyOptions : Type := {
  apiKey : jstring;
  baseUrl : jstring;
  siteUrl : option jstring;
  appTitle : option jstring;
  extraHeaders : option jstring;
  preferredModel : option jstring;
  additionalModels : option (list jstring)
}.

Definition DEFAULT_MODELS : list jstring :=
  [ U "anthropic/claude-sonnet-4";
    U "anthropic/claude-3.5-sonnet";
    U "anthropic/claude-3.5-haiku";
    U "anthropic/claude-3.5-haiku-20241022";
    U "anthropic/claude-3.5-sonnet-20241022";
    U "anthropic/claude-3-opus-20240229" ].

Definition installArgs : list jstring :=
  [ U "-m"; U "pip"; U "install"; U "--quiet"; U "litellm[proxy]==1.44.14" ].

(** The text a template literal gives an exit code. *)
Definition render_code (code : option N) : jstring :=
  match code with
  | Some n => number_toString n
  | None => U "null"
  end.

Definition installProxyDependency : M unit :=
  w <- ask ;;
  spawn PipInstall (U "python3") installArgs ;;
  match install_outcome w with
  | ChildError err => throw err
  | ChildExit code =>
      match code with
      | Some 0%N => ret tt
      | _ =>
          throw (Error (U "Failed to install litellm proxy dependencies (exit code "
                          ++ render_code code ++ U ")"))
      end
  end.

(** [tryListen] of [getAvailablePort].  The counter [attempts] of the
    source starts at 0, grows by one with every failed bind and ends the
    retries once it exceeds 5; [retries] is what is left of that budget,
    [5 - attempts], so that the rejection at [attempts > 5] is the failure
    met with no retry left. *)
Fixpoint tryListen (retries : nat) : M N :=
  outcome <- server_listen 0%N (U "127.0.0.1") ;;
  match outcome with
  | Listening address =>
      server_close ;;
      match address with
      | AddrInfo port =>
          if N.eqb port 0 then throw (Error (U "Failed to determine proxy port"))
          else ret port
      | _ => throw (Error (U "Failed to determine proxy port"))
      end
  | ListenError err =>
      server_close ;;
      match retries with
      | O => throw err
      | S retries' => delay 100%N ;; tryListen retries'
      end
  end.

Definition getAvailablePort : M N := tryListen 5.

(** The body of the [try] block of [parseHeaderLines]: every string member
    with a key that is not blank becomes an entry. *)
Definition collect_entry (entries : object jstring) (member : jstring * json)
  : object jstring :=
  let (key, value) := member in
  match value with
  | JString s =>
      if negb (is_empty (trim key))
      then obj_assign entries (trim key) (trim s)
      else entries
  | _ => entries
  end.

Definition parse_json_entries (trimmed : jstring) : result (object jstring) :=
  rbind (JSON_parse trimmed) (fun parsed =>
  rbind (Object_entries parsed) (fun members =>
  Ok (fold_left collect_entry members []))).

(** The loop over the lines. *)
Definition collect_line (headers : object jstring) (rawLine : jstring)
  : object jstring :=
  let line := trim rawLine in
  if is_empty line then headers
  else match cut_at cCOLON line with
       | None => headers
       | Some (before, after) =>
           let name := trim before in
           let value := trim after in
           if is_empty name || is_empty value then headers
           else obj_assign headers name value
       end.

(** [parseHeaderLines] of the supervisor: a [Record<string, string>]. *)
Definition parseHeaderLines (raw : option jstring) : result (object jstring) :=
  match raw with
  | None => Ok []
  | Some [] => Ok []
  | Some raw =>
      let trimmed := trim raw in
      if is_empty trimmed then Ok []
      else
        try_catch (parse_json_entries trimmed)
          (fun _ => Ok (fold_left collect_line (split_lines trimmed) []))
  end.

Definition maxAttempts : nat := 30.

(** The loop of [waitForProxy] over [attempt = 0, ..., maxAttempts - 1]. *)
Fixpoint poll (attempts : list nat) (url : jstring) : M unit :=
  match attempts with
  | [] => throw (Error (U "Timed out waiting for OpenRouter proxy to become ready"))
  | _ :: later =>
      response <- fetch url ;;
      match response with
      | FetchResponse status =>
          if response_ok status then ret tt
          else (delay 200%N ;; poll later url)
      | FetchFailed _ => delay 200%N ;; poll later url
      end
  end.

Definition waitForProxy (port : N) : M unit :=
  let baseUrl := U "http://127.0.0.1:" ++ number_toString port in
  poll (seq 0 maxAttempts) (baseUrl ++ U "/health").

(** ** The pieces of the configuration *)

Definition or_default (o : option jstring) (d : jstring) : jstring :=
  if truthy o then match o with Some v => v | None => d end else d.

(** [headerEntries]: the two defaults, then the spread of the parsed extra
    headers. *)
Definition headerEntries (options : OpenRouterProxyOptions)
  : result (object jstring) :=
  rbind (parseHeaderLines (extraHeaders options)) (fun extra =>
  let literal :=
    obj_define
      (obj_define [] (U "HTTP-Referer")
         (or_default (option_map trim (siteUrl options))
            (U "https://github.com/anthropics")))
      (U "X-Title")
      (or_default (option_map trim (appTitle options))
         (U "Claude Code OpenRouter")) in
  Ok (fold_left (fun o kv => obj_define o (fst kv) (snd kv)) extra literal)).

(** [allModels], as [Array.from] lists it. *)
Definition allModels (options : OpenRouterProxyOptions) : list jstring :=
  let models := set_of DEFAULT_MODELS in
  let models :=
    match preferredModel options with
    | Some m => if truthy (Some m) then set_add models m else models
    | None => models
    end in
  fold_left set_add
    (filter (fun model => negb (is_empty model))
       (List.map trim
          (match additionalModels options with Some l => l | None => [] end)))
    models.

Definition NL : jstring := [cLF].

Definition quoted (s : jstring) : jstring := [cQUOTE] ++ s ++ [cQUOTE].

(** [value.replace(q, r)] for the global pattern [q] of one double quote:
    every double quote gives way to [r]. *)
Definition replace_quotes (r : jstring) (value : jstring) : jstring :=
  flat_map (fun c => if N.eqb c cQUOTE then r else [c]) value.

(** The replacement the source passes: the single-quoted literal made of a
    backslash and a double quote.  In a string literal the backslash only
    escapes the character after it, so the literal denotes the string of
    one code unit, the double quote. *)
Definition quote_replacement : jstring := [cQUOTE].

Definition headerLine (kv : jstring * jstring) : jstring :=
  U "        " ++ fst kv ++ U ": "
    ++ quoted (replace_quotes quote_replacement (snd kv)).

Definition headerYaml (entries : object jstring) : jstring :=
  join NL (List.map headerLine entries).

Definition extraHeadersSection (entries : object jstring) : jstring :=
  if Nat.ltb 0 (List.length entries) then NL ++ headerYaml entries
  else U " {}".

Definition modelBlock (options : OpenRouterProxyOptions)
  (entries : object jstring) (model : jstring) : jstring :=
  U "  - model_name: " ++ quoted model ++ NL
  ++ U "    litellm_params:" ++ NL
  ++ U "      model: " ++ quoted model ++ NL
  ++ U "      provider: openrouter" ++ NL
  ++ U "      api_base: " ++ quoted (baseUrl options) ++ NL
  ++ U "      api_key: " ++ quoted (apiKey options) ++ NL
  ++ U "      extra_headers:" ++ extraHeadersSection entries.

Definition modelListYaml (options : OpenRouterProxyOptions)
  (entries : object jstring) : jstring :=
  join NL (List.map (modelBlock options entries) (allModels options)).

Definition config (options : OpenRouterProxyOptions)
  (entries : object jstring) (masterKey : jstring) : jstring :=
  U "model_list:" ++ NL
  ++ modelListYaml options entries ++ NL
  ++ NL
  ++ U "general_settings:" ++ NL
  ++ U "  master_key: " ++ quoted masterKey ++ NL
  ++ U "  stream_timeout: 600" ++ NL.

Definition proxyArgs (configPath : jstring) (port : N) : list jstring :=
  [ U "-m"; U "litellm"; U "--config"; configPath;
    U "--port"; number_toString port; U "--host"; U "127.0.0.1" ].

(** ** [startOpenRouterProxy] *)
Definition startOpenRouterProxy (options : OpenRouterProxyOptions)
  : M Handle.t :=
  st <- get_state ;;
  if env_is (env st) "CLAUDE_CODE_OPENROUTER_DISABLE_PROXY" (U "1") then
    throw (Error (U "OpenRouter proxy startup disabled via CLAUDE_CODE_OPENROUTER_DISABLE_PROXY"))
  else
    w <- ask ;;
    port <- getAvailablePort ;;
    workingDir <- mkdtemp (path_join (os_tmpdir w) (U "litellm-openrouter-")) ;;
    random <- Math_random_36 ;;
    let masterKey := U "sk-litellm-proxy-" ++ slice_from 2 random in
    entries <- lift (headerEntries options) ;;
    let configPath := path_join workingDir (U "config.yaml") in
    writeFile configPath (config options entries masterKey) ;;
    installProxyDependency ;;
    spawn LiteLLM (U "python3") (proxyArgs configPath port) ;;
    waitForProxy port ;;
    ret {| Handle.baseUrl :=
             U "http://127.0.0.1:" ++ number_toString port ++ U "/anthropic";
           Handle.masterKey := masterKey;
           Handle.stop := emit (EvKill (U "SIGTERM")) |}.

End Proxy.

(* ================================================================== *)
(** * The lifecycle orchestrator ([configureOpenRouterEnvironment]) *)
(* ================================================================== *)

Module Orchestrator.
Import JS Effects.
Local Open Scope m_scope.

Definition DEFAULT_REMOTE_BASE_URL : jstring := U "https://openrouter.ai/api/v1".

Record HeaderEntry : Type := { name : jstring; value : jstring }.

(** [Map<string, HeaderEntry>], in insertion order. *)
Definition HeaderMap := list (jstring * HeaderEntry).

(** The loop over the members of the parsed JSON object. *)
Definition collect_member (map : HeaderMap) (member : jstring * json)
  : HeaderMap :=
  let (name, value) := member in
  match value with
  | JString s =>
      if negb (is_empty (trim name))
      then map_set map (toLowerCase name) {| name := name; value := trim s |}
      else map
  | _ => map
  end.

(** The [try] block: [JSON.parse], then the loop, which cannot throw. *)
Definition parse_json_object (trimmedRaw : jstring) : result HeaderMap :=
  rbind (JSON_parse trimmedRaw) (fun parsed =>
  rbind (Object_entries parsed) (fun members =>
  Ok (fold_left collect_member members []))).

(** [trimmedRaw.split(...).map(trim).filter(nonempty)]. *)
Definition header_lines (trimmedRaw : jstring) : list jstring :=
  filter (fun line => negb (is_empty line))
    (List.map trim (split_lines trimmedRaw)).

(** The loop over the lines. *)
Definition collect_line (map : HeaderMap) (line : jstring) : HeaderMap :=
  match cut_at cCOLON line with
  | None => map
  | Some (before, after) =>
      let name := trim before in
      let value := trim after in
      if is_empty name || is_empty value then map
      else map_set map (toLowerCase name) {| name := name; value := value |}
  end.

Definition parse_lines (trimmedRaw : jstring) : HeaderMap :=
  fold_left collect_line (header_lines trimmedRaw) [].

(** [parseHeaderLines] of the orchestrator. *)
Definition parseHeaderLines (raw : option jstring) : result HeaderMap :=
  match raw with
  | None => Ok []
  | Some [] => Ok []
  | Some raw =>
      let trimmedRaw := trim raw in
      if is_empty trimmedRaw then Ok []
      else if startsWith trimmedRaw (U "{") && endsWith trimmedRaw (U "}") then
        try_catch (parse_json_object trimmedRaw)
          (fun _ => Ok (parse_lines trimmedRaw))
      else Ok (parse_lines trimmedRaw)
  end.

Definition setHeader (headers : HeaderMap) (name value : jstring) : HeaderMap :=
  map_set headers (toLowerCase name) {| name := name; value := value |}.

Definition serializeHeaders (headers : HeaderMap) : jstring :=
  join [cLF]
    (List.map (fun entry => name entry ++ U ": " ++ value entry)
       (map_values headers)).

(** [args.match(/--model\s+([^\s]+)/)]: the leftmost place where [--model]
    is followed by white space and then by a character that is not white
    space; the capture is the longest run of such characters. *)
Fixpoint take_nonspace (s : jstring) : jstring :=
  match s with
  | c :: rest => if is_js_space c then [] else c :: take_nonspace rest
  | [] => []
  end.

Definition match_model_at (s : jstring) : option jstring :=
  if startsWith s (U "--model") then
    match skipn 7 s with
    | c :: after =>
        if is_js_space c then
          match trimStart after with
          | [] => None
          | rest => Some (take_nonspace rest)
          end
        else None
    | [] => None
    end
  else None.

Fixpoint search_model (s : jstring) : option jstring :=
  match s with
  | [] => None
  | _ :: rest =>
      match match_model_at s with
      | Some m => Some m
      | None => search_model rest
      end
  end.

Definition extractModelFromClaudeArgs (args : option jstring) : option jstring :=
  if truthy args then
    match args with Some a => search_model a | None => None end
  else None.

Definition parseAdditionalModels (raw : option jstring) : list jstring :=
  if truthy raw then
    match raw with
    | Some r =>
        filter (fun value => negb (is_empty value))
          (List.map trim (split_list r))
    | None => []
    end
  else [].

Definition __resetOpenRouterProxyForTests : M unit := set_initialized false.

(** [registerCleanup]: the three handlers are installed; what they do
    when they fire lies after the run modelled here. *)
Definition registerCleanup (stop : M unit) : M unit :=
  emit (EvOnce (U "exit")) ;;
  emit (EvOnce (U "SIGINT")) ;;
  emit (EvOnce (U "SIGTERM")).

(** Lines 149 to 165: the merge of the direct mode. *)
Definition directHeaders (e : Env) (openRouterKey : jstring) : result HeaderMap :=
  rbind (parseHeaderLines (getenv e "ANTHROPIC_CUSTOM_HEADERS")) (fun headers =>
  let headers := setHeader headers (U "Authorization")
                   (U "Bearer " ++ openRouterKey) in
  let referer := option_map trim (getenv e "OPENROUTER_SITE_URL") in
  let headers :=
    match referer with
    | Some r => if truthy referer then setHeader headers (U "HTTP-Referer") r
                else headers
    | None => headers
    end in
  let title := option_map trim (getenv e "OPENROUTER_APP_TITLE") in
  let headers :=
    match title with
    | Some t => if truthy title then setHeader headers (U "X-Title") t
                else headers
    | None => headers
    end in
  rbind (parseHeaderLines (getenv e "OPENROUTER_EXTRA_HEADERS"))
    (fun extraHeaders =>
  Ok (fold_left (fun h kv => map_set h (fst kv) (snd kv)) extraHeaders headers))).

(** [a || b] on strings that may be [undefined]. *)
Definition or_else (a b : option jstring) : option jstring :=
  if truthy a then a else b.

Definition configureOpenRouterEnvironment : M unit :=
  st <- get_state ;;
  if proxyInitialized st then ret tt
  else if negb (env_is (env st) "CLAUDE_CODE_USE_OPENROUTER" (U "1")) then ret tt
  else
    match getenv (env st) "OPENROUTER_API_KEY" with
    | Some ((_ :: _) as openRouterKey) =>
        let remoteBaseUrl :=
          Proxy.or_default (option_map trim (getenv (env st) "OPENROUTER_BASE_URL"))
            DEFAULT_REMOTE_BASE_URL in
        if env_is (env st) "CLAUDE_CODE_OPENROUTER_DISABLE_PROXY" (U "1") then
          (if negb (truthy (getenv (env st) "ANTHROPIC_API_KEY"))
           then modify_env (fun e => setenv e "ANTHROPIC_API_KEY" openRouterKey)
           else ret tt) ;;
          headers <- lift (directHeaders (env st) openRouterKey) ;;
          modify_env (fun e =>
            setenv e "ANTHROPIC_CUSTOM_HEADERS" (serializeHeaders headers)) ;;
          modify_env (fun e => setenv e "ANTHROPIC_BASE_URL" remoteBaseUrl) ;;
          set_initialized true
        else
          let preferredModel :=
            or_else (option_map trim (getenv (env st) "ANTHROPIC_MODEL"))
              (extractModelFromClaudeArgs (getenv (env st) "INPUT_CLAUDE_ARGS")) in
          let additionalModels :=
            parseAdditionalModels (getenv (env st) "OPENROUTER_ADDITIONAL_MODELS") in
          proxy <- Proxy.startOpenRouterProxy
                     {| Proxy.apiKey := openRouterKey;
                        Proxy.baseUrl := remoteBaseUrl;
                        Proxy.siteUrl := getenv (env st) "OPENROUTER_SITE_URL";
                        Proxy.appTitle := getenv (env st) "OPENROUTER_APP_TITLE";
                        Proxy.extraHeaders := getenv (env st) "OPENROUTER_EXTRA_HEADERS";
                        Proxy.preferredModel := preferredModel;
                        Proxy.additionalModels := Some additionalModels |} ;;
          modify_env (fun e => setenv e "ANTHROPIC_BASE_URL" (Proxy.Handle.baseUrl proxy)) ;;
          modify_env (fun e => setenv e "ANTHROPIC_API_KEY" (Proxy.Handle.masterKey proxy)) ;;
          modify_env (fun e => unsetenv e "ANTHROPIC_CUSTOM_HEADERS") ;;
          registerCleanup (Proxy.Handle.stop proxy) ;;
          set_initialized true
    | _ =>
        emit (EvWarn (U "CLAUDE_CODE_USE_OPENROUTER is set but OPENROUTER_API_KEY is missing"))
    end.

End Orchestrator.

(* ================================================================== *)
(** * The validation of the environment ([validateEnvironmentVariables]) *)
(* ================================================================== *)

Module Validation.
Import JS Effects.

(** [process.env.NAME === "1"]. *)
Definition flag (e : Env) (name : string) : bool := env_is e name (U "1").

(** [[a, b, c].filter(Boolean).length]. *)
Definition count_true (flags : list bool) : nat :=
  List.length (filter (fun b => b) flags).

(** [Object.entries(required).forEach(...)]: one message for every
    variable of the table that is missing or empty, in the order of the
    table. *)
Definition required_errors (e : Env) (names : list string) (suffix : jstring)
  : list jstring :=
  flat_map
    (fun key => if truthy (getenv e key) then [] else [U key ++ suffix])
    names.

(** The array [errors] when the checks are over (line 515). *)
Definition validation_errors (e : Env) : list jstring :=
  let useBedrock := flag e "CLAUDE_CODE_USE_BEDROCK" in
  let useVertex := flag e "CLAUDE_CODE_USE_VERTEX" in
  let useOpenRouter := flag e "CLAUDE_CODE_USE_OPENROUTER" in
  let anthropicApiKey := getenv e "ANTHROPIC_API_KEY" in
  let claudeCodeOAuthToken := getenv e "CLAUDE_CODE_OAUTH_TOKEN" in
  let openRouterApiKey := getenv e "OPENROUTER_API_KEY" in
  let providerCount := count_true [useBedrock; useVertex; useOpenRouter] in
  (if Nat.ltb 1 providerCount
   then [U "Multiple providers configured. Please enable only one of OpenRouter, Bedrock, or Vertex AI."]
   else [])
  ++
  (if useOpenRouter then
     if negb (truthy openRouterApiKey)
     then [U "OPENROUTER_API_KEY is required when using the OpenRouter provider."]
     else []
   else if useBedrock then
     required_errors e
       ["AWS_REGION"; "AWS_ACCESS_KEY_ID"; "AWS_SECRET_ACCESS_KEY"]%string
       (U " is required when using AWS Bedrock.")
   else if useVertex then
     required_errors e
       ["ANTHROPIC_VERTEX_PROJECT_ID"; "CLOUD_ML_REGION"]%string
       (U " is required when using Google Vertex AI.")
   else
     if negb (truthy anthropicApiKey) && negb (truthy claudeCodeOAuthToken)
     then [U "Either ANTHROPIC_API_KEY or CLAUDE_CODE_OAUTH_TOKEN is required when using direct Anthropic API."]
     else []).

Definition errorMessage (errors : list jstring) : jstring :=
  U "Environment variable validation failed:" ++ [cLF]
  ++ join [cLF] (List.map (fun e => U "  - " ++ e) errors).

Definition validateEnvironmentVariables (e : Env) : result unit :=
  let errors := validation_errors e in
  if Nat.ltb 0 (List.length errors) then Throw (Error (errorMessage errors))
  else Ok tt.

End Validation.

(* ================================================================== *)
(** * The orchestrator before the proxy

    The earlier [configureOpenRouterEnvironment] of the repository: it
    has no proxy and no initialization flag, and does at once what the
    direct mode does now.  Its [parseHeaderLines], [serializeHeaders] and
    [setHeader] are, character for character, those of [Orchestrator], and
    its merge of the headers is the one of [Orchestrator.directHeaders]. *)
(* ================================================================== *)

Module Legacy.
Import JS Effects.

Definition DEFAULT_OPENROUTER_BASE_URL : jstring := U "https://openrouter.ai/api/v1".

(** [v && v.trim().length ? v.trim() : d]. *)
Definition trimmed_or (o : option jstring) (d : jstring) : jstring :=
  match o with
  | Some (c :: r) =>
      if Nat.ltb 0 (List.length (trim (c :: r))) then trim (c :: r) else d
  | _ => d
  end.

(** The environment the function leaves behind; it returns nothing. *)
Definition configureOpenRouterEnvironment (e : Env) : result Env :=
  if negb (env_is e "CLAUDE_CODE_USE_OPENROUTER" (U "1")) then Ok e
  else
    match getenv e "OPENROUTER_API_KEY" with
    | Some ((_ :: _) as openRouterKey) =>
        let baseUrl :=
          trimmed_or (getenv e "OPENROUTER_BASE_URL") DEFAULT_OPENROUTER_BASE_URL in
        let e1 := setenv e "ANTHROPIC_BASE_URL" baseUrl in
        let e2 :=
          if negb (truthy (getenv e1 "ANTHROPIC_API_KEY"))
          then setenv e1 "ANTHROPIC_API_KEY" openRouterKey
          else e1 in
        rbind (Orchestrator.directHeaders e2 openRouterKey) (fun headerEntries =>
        Ok (setenv e2 "ANTHROPIC_CUSTOM_HEADERS"
              (Orchestrator.serializeHeaders headerEntries)))
    | _ => Ok e
    end.

End Legacy.

(* ================================================================== *)
(** * Vocabulary of the properties *)
(* ================================================================== *)

Module Vocabulary.
Import JS Effects.

(** ** The readiness probe *)

Definition is_ready (o : FetchOutcome) : bool :=
  match o with
  | FetchResponse status => response_ok status
  | FetchFailed _ => false
  end.

(** The first of the probes [start, ..., start + n - 1] that finds the
    proxy ready, counted from [start]. *)
Fixpoint first_ready (answers : nat -> FetchOutcome) (start n : nat)
  : option nat :=
  match n with
  | O => None
  | S n' =>
      if is_ready (answers start) then Some O
      else option_map S (first_ready answers (S start) n')
  end.

Definition timeout_error : exn :=
  Error (U "Timed out waiting for OpenRouter proxy to become ready").

Definition health_url (port : N) : jstring :=
  U "http://127.0.0.1:" ++ number_toString port ++ U "/health".

(** [k] unsuccessful rounds: a probe, then the pause of 200ms. *)
Fixpoint rounds (k : nat) (url : jstring) : list Event :=
  match k with
  | O => []
  | S k' => EvFetch url :: EvTimer 200 :: rounds k' url
  end.

Definition after_fetches (st : State) (n : nat) : State :=
  {| env := env st; proxyInitialized := proxyInitialized st;
     listens := listens st; randoms := randoms st;
     fetches := fetches st + n |}.

(** The world in which every answer of the health endpoint is [f] of what
    it is in [w]. *)
Definition map_fetch_outcome (f : FetchOutcome -> FetchOutcome) (w : World)
  : World :=
  {| listen_outcome := listen_outcome w;
     os_tmpdir := os_tmpdir w;
     mkdtemp_outcome := mkdtemp_outcome w;
     math_random_36 := math_random_36 w;
     writeFile_outcome := writeFile_outcome w;
     install_outcome := install_outcome w;
     fetch_outcome := fun i => f (fetch_outcome w i) |}.

(** An answer with a status outside 200..299 turned into a refused
    connection. *)
Definition as_network_error (o : FetchOutcome) : FetchOutcome :=
  match o with
  | FetchResponse status =>
      if response_ok status then o
      else FetchFailed (SystemError (U "ECONNREFUSED"))
  | FetchFailed _ => o
  end.

Definition initial_state (e : Env) : State :=
  {| env := e; proxyInitialized := false;
     listens := 0; randoms := 0; fetches := 0 |}.

Definition empty_env : Env := fun _ => None.

(** A world in which everything works at once: the first bind gives port
    40123 and the proxy is healthy at the first probe. *)
Definition calm_world : World :=
  {| listen_outcome := fun _ => Listening (AddrInfo 40123);
     os_tmpdir := U "/tmp";
     mkdtemp_outcome := fun prefix => Ok (prefix ++ U "AbC123");
     math_random_36 := fun _ => U "0.i";
     writeFile_outcome := fun _ _ => Ok tt;
     install_outcome := ChildExit (Some 0%N);
     fetch_outcome := fun _ => FetchResponse 200 |}.

(** The same world with a health endpoint that always answers 503. *)
Definition unhealthy_world : World :=
  map_fetch_outcome (fun _ => FetchResponse 503) calm_world.

(** ** The port allocator *)

Definition bind_attempt : list Event :=
  [EvListen (U "127.0.0.1") 0; EvClose].

(** [k] failed binds, each followed by the pause of 100ms. *)
Fixpoint failed_binds (k : nat) : list Event :=
  match k with
  | O => []
  | S k' => bind_attempt ++ EvTimer 100 :: failed_binds k'
  end.

Definition after_listens (st : State) (n : nat) : State :=
  {| env := env st; proxyInitialized := proxyInitialized st;
     listens := listens st + n; randoms := randoms st;
     fetches := fetches st |}.

Definition with_listen_outcome (f : nat -> ListenOutcome) (w : World) : World :=
  {| listen_outcome := f;
     os_tmpdir := os_tmpdir w;
     mkdtemp_outcome := mkdtemp_outcome w;
     math_random_36 := math_random_36 w;
     writeFile_outcome := writeFile_outcome w;
     install_outcome := install_outcome w;
     fetch_outcome := fetch_outcome w |}.

Definition EADDRINUSE : exn := SystemError (U "EADDRINUSE").
Definition EACCES : exn := SystemError (U "EACCES").

(** Two binds fail, the third one gets port 40123. *)
Definition busy_world : World :=
  with_listen_outcome
    (fun i => if Nat.ltb i 2 then ListenError EADDRINUSE
              else Listening (AddrInfo 40123))
    calm_world.

(** No bind ever succeeds; the sixth one fails in a way of its own. *)
Definition exhausted_world : World :=
  with_listen_outcome
    (fun i => if Nat.eqb i 5 then ListenError EACCES else ListenError EADDRINUSE)
    calm_world.

(** ** The order of the steps of [startOpenRouterProxy] *)

Definition is_allocation (e : Event) : bool :=
  match e with
  | EvListen _ _ | EvClose | EvTimer _ => true
  | _ => false
  end.

Definition is_probe (e : Event) : bool :=
  match e with
  | EvFetch _ | EvTimer _ => true
  | _ => false
  end.

Definition is_write (e : Event) : bool :=
  match e with
  | EvWriteFile _ _ => true
  | _ => false
  end.

Definition is_install (e : Event) : bool :=
  match e with
  | EvSpawn PipInstall _ _ => true
  | _ => false
  end.

Definition is_proxy_spawn (e : Event) : bool :=
  match e with
  | EvSpawn LiteLLM _ _ => true
  | _ => false
  end.

Definition is_fetch (e : Event) : bool :=
  match e with
  | EvFetch _ => true
  | _ => false
  end.

(** Every event of the trace that satisfies [later] comes after an event
    that satisfies [earlier] ([seen] tells whether one was met already). *)
Fixpoint preceded_by (earlier later : Event -> bool) (seen : bool)
  (tr : list Event) : bool :=
  match tr with
  | [] => true
  | e :: rest =>
      (if later e then seen else true)
      && preceded_by earlier later (seen || earlier e) rest
  end.

(** The steps between the allocation of the port and the readiness probe,
    in the order of the source: the working directory, the random master
    key (with which the synthesis of the configuration starts), the
    configuration file, the installation of the dependency, the proxy. *)
Definition setup_steps (w : World) (options : Proxy.OpenRouterProxyOptions)
  (port : N) (workingDir random : jstring) (entries : object jstring)
  : list Event :=
  let configPath := path_join workingDir (U "config.yaml") in
  [ EvMkdtemp (path_join (os_tmpdir w) (U "litellm-openrouter-"));
    EvRandom;
    EvWriteFile configPath
      (Proxy.config options entries (U "sk-litellm-proxy-" ++ slice_from 2 random));
    EvSpawn PipInstall (U "python3") Proxy.installArgs;
    EvSpawn LiteLLM (U "python3") (Proxy.proxyArgs configPath port) ].

Definition plain_options : Proxy.OpenRouterProxyOptions :=
  {| Proxy.apiKey := U "sk-or-v1-0123";
     Proxy.baseUrl := U "https://openrouter.ai/api/v1";
     Proxy.siteUrl := None;
     Proxy.appTitle := None;
     Proxy.extraHeaders := None;
     Proxy.preferredModel := None;
     Proxy.additionalModels := None |}.

(** The outcome [o] with the events [ev] logged before its own. *)
Definition prepend (A : Type) (ev : list Event) (o : Outcome A) : Outcome A :=
  {| res := res o; final := final o; events := ev ++ events o |}.

Definition after_random (st : State) : State :=
  {| env := env st; proxyInitialized := proxyInitialized st;
     listens := listens st; randoms := S (randoms st);
     fetches := fetches st |}.

Definition proxy_enabled (st : State) : Prop :=
  env_is (env st) "CLAUDE_CODE_OPENROUTER_DISABLE_PROXY" (U "1") = false.

(** ** Header directives *)

(** [s.includes(p)]. *)
Fixpoint includes (s p : jstring) : bool :=
  match s with
  | [] => is_empty p
  | _ :: rest => startsWith s p || includes rest p
  end.

(** A header value with two double quotes in it: [say "hi"]. *)
Definition quoting_value : jstring := U "say " ++ Proxy.quoted (U "hi").

Definition quoting_options : Proxy.OpenRouterProxyOptions :=
  {| Proxy.apiKey := U "sk-or-v1-0123";
     Proxy.baseUrl := U "https://openrouter.ai/api/v1";
     Proxy.siteUrl := None;
     Proxy.appTitle := None;
     Proxy.extraHeaders := Some (U "X-Note: " ++ quoting_value);
     Proxy.preferredModel := None;
     Proxy.additionalModels := None |}.

Definition quoting_entries : object jstring :=
  [ (U "HTTP-Referer", U "https://github.com/anthropics");
    (U "X-Title", U "Claude Code OpenRouter");
    (U "X-Note", quoting_value) ].

(** The same value with a backslash before each double quote. *)
Definition escaped_quoting_value : jstring :=
  U "say " ++ [cBACKSLASH; cQUOTE] ++ U "hi" ++ [cBACKSLASH; cQUOTE].

(** Two header lines whose names differ in case only. *)
Definition two_cases : jstring :=
  U "X-Title: a" ++ [cLF] ++ U "x-title: b".

(** A JSON text that is an array, not an object: [["x"]]. *)
Definition json_array_text : jstring :=
  U "[" ++ Proxy.quoted (U "x") ++ U "]".

(** A header map is well keyed when no key occurs twice and every entry
    sits under the lower-cased form of its own name. *)
Definition well_keyed (m : Orchestrator.HeaderMap) : Prop :=
  NoDup (List.map fst m)
  /\ Forall (fun kv => fst kv = toLowerCase (Orchestrator.name (snd kv))) m.

Definition keys (V : Type) (m : list (jstring * V)) : list jstring :=
  List.map fst m.

(** Overlaying the entries of [extra] one after the other, as the loop
    [for (const [key, entry] of extra.entries()) m.set(key, entry)] does. *)
Definition overlay (V : Type) (m extra : list (jstring * V))
  : list (jstring * V) :=
  fold_left (fun h kv => map_set h (fst kv) (snd kv)) extra m.

(** ** The direct mode *)

(** The state in which [configureOpenRouterEnvironment] takes the direct
    branch with the upstream key [openRouterKey]. *)
Definition direct_mode (st : State) (openRouterKey : jstring) : Prop :=
  proxyInitialized st = false
  /\ env_is (env st) "CLAUDE_CODE_USE_OPENROUTER" (U "1") = true
  /\ getenv (env st) "OPENROUTER_API_KEY" = Some openRouterKey
  /\ openRouterKey <> []
  /\ env_is (env st) "CLAUDE_CODE_OPENROUTER_DISABLE_PROXY" (U "1") = true.

(** The directive the orchestrator injects. *)
Definition bearer (openRouterKey : jstring) : Orchestrator.HeaderEntry :=
  {| Orchestrator.name := U "Authorization";
     Orchestrator.value := U "Bearer " ++ openRouterKey |}.

(** The headers of the direct mode before the extra headers are laid over
    them: the existing ones, the injected [Authorization], the referer and
    the title when they are set. *)
Definition direct_base (e : Env) (openRouterKey : jstring)
  (custom : Orchestrator.HeaderMap) : Orchestrator.HeaderMap :=
  let headers := Orchestrator.setHeader custom (U "Authorization")
                   (U "Bearer " ++ openRouterKey) in
  let headers :=
    match option_map trim (getenv e "OPENROUTER_SITE_URL") with
    | Some (c :: r) => Orchestrator.setHeader headers (U "HTTP-Referer") (c :: r)
    | _ => headers
    end in
  match option_map trim (getenv e "OPENROUTER_APP_TITLE") with
  | Some (c :: t) => Orchestrator.setHeader headers (U "X-Title") (c :: t)
  | _ => headers
  end.

(** Scenario C: the flag and the key are set, the proxy is disabled and
    [X-Test: Value] is there already. *)
Definition scenario_C : State :=
  initial_state
    (setenv
       (setenv
          (setenv
             (setenv empty_env "CLAUDE_CODE_USE_OPENROUTER" (U "1"))
             "OPENROUTER_API_KEY" (U "abc123"))
          "ANTHROPIC_CUSTOM_HEADERS" (U "X-Test: Value"))
       "CLAUDE_CODE_OPENROUTER_DISABLE_PROXY" (U "1")).

(** ** The handle *)

Definition master_key_prefix : jstring := U "sk-litellm-proxy-".

(** Options whose upstream key looks like a master key, in a world whose
    random draw prints as [0.i]. *)
Definition clashing_options : Proxy.OpenRouterProxyOptions :=
  {| Proxy.apiKey := U "sk-litellm-proxy-i";
     Proxy.baseUrl := U "https://openrouter.ai/api/v1";
     Proxy.siteUrl := None;
     Proxy.appTitle := None;
     Proxy.extraHeaders := None;
     Proxy.preferredModel := None;
     Proxy.additionalModels := None |}.

Definition calm_handle : Proxy.Handle.t :=
  {| Proxy.Handle.baseUrl := U "http://127.0.0.1:40123/anthropic";
     Proxy.Handle.masterKey := U "sk-litellm-proxy-i";
     Proxy.Handle.stop := emit (EvKill (U "SIGTERM")) |}.

(** ** The model set *)

(** The list [l] with, of every identifier, the first occurrence only. *)
Fixpoint keep_first (l : list jstring) : list jstring :=
  match l with
  | [] => []
  | x :: t => x :: filter (fun y => negb (jeqb x y)) (keep_first t)
  end.

(** The preferred model, when one is given (an empty string is none). *)
Definition preferred_models (options : Proxy.OpenRouterProxyOptions)
  : list jstring :=
  match Proxy.preferredModel options with
  | Some (c :: m) => [c :: m]
  | _ => []
  end.

(** The additional models, trimmed, without the blank ones. *)
Definition additional_models (options : Proxy.OpenRouterProxyOptions)
  : list jstring :=
  filter (fun model => negb (is_empty model))
    (List.map trim
       (match Proxy.additionalModels options with Some l => l | None => [] end)).

(** ** The environments of the test suite of the repository *)

Definition direct_env (key : jstring) : Env :=
  setenv
    (setenv
       (setenv empty_env "CLAUDE_CODE_USE_OPENROUTER" (U "1"))
       "OPENROUTER_API_KEY" key)
    "CLAUDE_CODE_OPENROUTER_DISABLE_PROXY" (U "1").

Definition test_default : State := initial_state (direct_env (U "test-key")).

Definition test_json_headers : State :=
  initial_state
    (setenv (direct_env (U "json-key")) "ANTHROPIC_CUSTOM_HEADERS"
       (U "{" ++ Proxy.quoted (U "X-Test") ++ U ":" ++ Proxy.quoted (U "Value")
          ++ U "}")).

Definition test_extra_headers : State :=
  initial_state
    (setenv
       (setenv
          (setenv (direct_env (U "open-key"))
             "OPENROUTER_SITE_URL" (U "https://example.com"))
          "OPENROUTER_APP_TITLE" (U "Example App"))
       "OPENROUTER_EXTRA_HEADERS"
       (U "X-Custom: One" ++ [cLF] ++ U "Authorization: Bearer override")).

Definition test_flag_disabled : State :=
  initial_state (setenv empty_env "OPENROUTER_API_KEY" (U "unused")).

Definition final_env (st : State) (k : string) : option jstring :=
  getenv (env (final (Orchestrator.configureOpenRouterEnvironment calm_world st))) k.

(** ** The orchestrator in proxied mode *)

(** A computation that leaves [process.env] and the initialization flag as
    it found them. *)
Definition keeps_process (A : Type) (c : M A) : Prop :=
  forall w st,
    env (final (c w st)) = env st
    /\ proxyInitialized (final (c w st)) = proxyInitialized st.

(** The state in which [configureOpenRouterEnvironment] takes the proxied
    branch with the upstream key [openRouterKey]. *)
Definition proxied_mode (st : State) (openRouterKey : jstring) : Prop :=
  proxyInitialized st = false
  /\ env_is (env st) "CLAUDE_CODE_USE_OPENROUTER" (U "1") = true
  /\ getenv (env st) "OPENROUTER_API_KEY" = Some openRouterKey
  /\ openRouterKey <> []
  /\ env_is (env st) "CLAUDE_CODE_OPENROUTER_DISABLE_PROXY" (U "1") = false.

(** The options the orchestrator hands to [startOpenRouterProxy]. *)
Definition proxied_options (e : Env) (openRouterKey : jstring)
  : Proxy.OpenRouterProxyOptions :=
  {| Proxy.apiKey := openRouterKey;
     Proxy.baseUrl :=
       Proxy.or_default (option_map trim (getenv e "OPENROUTER_BASE_URL"))
         Orchestrator.DEFAULT_REMOTE_BASE_URL;
     Proxy.siteUrl := getenv e "OPENROUTER_SITE_URL";
     Proxy.appTitle := getenv e "OPENROUTER_APP_TITLE";
     Proxy.extraHeaders := getenv e "OPENROUTER_EXTRA_HEADERS";
     Proxy.preferredModel :=
       Orchestrator.or_else (option_map trim (getenv e "ANTHROPIC_MODEL"))
         (Orchestrator.extractModelFromClaudeArgs (getenv e "INPUT_CLAUDE_ARGS"));
     Proxy.additionalModels :=
       Some (Orchestrator.parseAdditionalModels
               (getenv e "OPENROUTER_ADDITIONAL_MODELS")) |}.

Definition cleanup_handlers : list Event :=
  [EvOnce (U "exit"); EvOnce (U "SIGINT"); EvOnce (U "SIGTERM")].

(** The three variables the orchestrator writes. *)
Definition is_downstream (k : string) : bool :=
  String.eqb k "ANTHROPIC_BASE_URL" || String.eqb k "ANTHROPIC_API_KEY"
  || String.eqb k "ANTHROPIC_CUSTOM_HEADERS".

Definition is_warning (e : Event) : bool :=
  match e with
  | EvWarn _ => true
  | _ => false
  end.

(** A state ready for the proxied mode, with the key [sk-or-v1-0123]. *)
Definition proxied_state : State :=
  initial_state
    (setenv (setenv empty_env "CLAUDE_CODE_USE_OPENROUTER" (U "1"))
       "OPENROUTER_API_KEY" (U "sk-or-v1-0123")).

(** A world in which [pip] ends with code 1. *)
Definition no_pip_world : World :=
  {| listen_outcome := listen_outcome calm_world;
     os_tmpdir := os_tmpdir calm_world;
     mkdtemp_outcome := mkdtemp_outcome calm_world;
     math_random_36 := math_random_36 calm_world;
     writeFile_outcome := writeFile_outcome calm_world;
     install_outcome := ChildExit (Some 1%N);
     fetch_outcome := fetch_outcome calm_world |}.

Definition disabled_state : State :=
  initial_state
    (setenv empty_env "CLAUDE_CODE_OPENROUTER_DISABLE_PROXY" (U "1")).

Definition is_kill (e : Event) : bool :=
  match e with
  | EvKill _ => true
  | _ => false
  end.

Definition disabled_error : exn :=
  Error (U "OpenRouter proxy startup disabled via CLAUDE_CODE_OPENROUTER_DISABLE_PROXY").

Definition port_error : exn := Error (U "Failed to determine proxy port").

(** An address [getAvailablePort] cannot take a port from. *)
Definition unusable (a : Address) : bool :=
  match a with
  | AddrInfo port => N.eqb port 0
  | _ => true
  end.

(** The first bind listens on a pipe. *)
Definition pipe_world : World :=
  with_listen_outcome (fun _ => Listening (AddrPath (U "/tmp/sock"))) calm_world.

(** The environment the direct mode leaves behind. *)
Definition direct_final_env (e : Env) (openRouterKey : jstring)
  (merged : Orchestrator.HeaderMap) : Env :=
  setenv
    (setenv
       (if truthy (getenv e "ANTHROPIC_API_KEY") then e
        else setenv e "ANTHROPIC_API_KEY" openRouterKey)
       "ANTHROPIC_CUSTOM_HEADERS" (Orchestrator.serializeHeaders merged))
    "ANTHROPIC_BASE_URL"
    (Proxy.or_default (option_map trim (getenv e "OPENROUTER_BASE_URL"))
       Orchestrator.DEFAULT_REMOTE_BASE_URL).

Definition initialized (st : State) : State :=
  {| env := env st; proxyInitialized := true;
     listens := listens st; randoms := randoms st; fetches := fetches st |}.

Definition with_env (st : State) (e : Env) : State :=
  {| env := e; proxyInitialized := proxyInitialized st;
     listens := listens st; randoms := randoms st; fetches := fetches st |}.

Definition missing_key_warning : Event :=
  EvWarn (U "CLAUDE_CODE_USE_OPENROUTER is set but OPENROUTER_API_KEY is missing").

(** The flag is set and the key is not. *)
Definition keyless_state : State :=
  initial_state (setenv empty_env "CLAUDE_CODE_USE_OPENROUTER" (U "1")).

(** ** The validation of the environment *)

(** Every variable of the table is set and not empty. *)
Definition all_set (e : Env) (names : list string) : bool :=
  forallb (fun key => truthy (getenv e key)) names.

(** The environments [validateEnvironmentVariables] accepts: one provider
    at most, and the credentials of the provider the code settles on
    (OpenRouter before Bedrock before Vertex, the Anthropic API when no flag
    is set). *)
Definition env_is_valid (e : Env) : bool :=
  let useBedrock := Validation.flag e "CLAUDE_CODE_USE_BEDROCK" in
  let useVertex := Validation.flag e "CLAUDE_CODE_USE_VERTEX" in
  let useOpenRouter := Validation.flag e "CLAUDE_CODE_USE_OPENROUTER" in
  Nat.leb (Validation.count_true [useBedrock; useVertex; useOpenRouter]) 1
  && (if useOpenRouter then truthy (getenv e "OPENROUTER_API_KEY")
      else if useBedrock then
        all_set e ["AWS_REGION"; "AWS_ACCESS_KEY_ID"; "AWS_SECRET_ACCESS_KEY"]%string
      else if useVertex then
        all_set e ["ANTHROPIC_VERTEX_PROJECT_ID"; "CLOUD_ML_REGION"]%string
      else truthy (getenv e "ANTHROPIC_API_KEY")
           || truthy (getenv e "CLAUDE_CODE_OAUTH_TOKEN")).

Definition multiple_providers_message : jstring :=
  U "Multiple providers configured. Please enable only one of OpenRouter, Bedrock, or Vertex AI.".

Definition openrouter_key_message : jstring :=
  U "OPENROUTER_API_KEY is required when using the OpenRouter provider.".

(** OpenRouter and Bedrock are both switched on, with every credential. *)
Definition two_providers_env : Env :=
  setenv
    (setenv
       (setenv
          (setenv
             (setenv
                (setenv empty_env "CLAUDE_CODE_USE_OPENROUTER" (U "1"))
                "CLAUDE_CODE_USE_BEDROCK" (U "1"))
             "OPENROUTER_API_KEY" (U "sk-or-v1-0123"))
          "AWS_REGION" (U "us-east-1"))
       "AWS_ACCESS_KEY_ID" (U "AKIA"))
    "AWS_SECRET_ACCESS_KEY" (U "secret").

(** ** Header maps that survive a round trip *)

(** A text that is not empty, has no white space at either end and no
    line feed anywhere. *)
Definition plain (s : jstring) : bool :=
  negb (is_empty s) && jeqb (trim s) s && negb (existsb (N.eqb cLF) s).

(** An entry as the line parser produces them: a plain name without a
    colon and a plain value. *)
Definition canonical_entry (e : Orchestrator.HeaderEntry) : bool :=
  plain (Orchestrator.name e)
  && negb (existsb (N.eqb cCOLON) (Orchestrator.name e))
  && plain (Orchestrator.value e).

Definition canonical (m : Orchestrator.HeaderMap) : bool :=
  forallb (fun kv => canonical_entry (snd kv)) m.

Definition header_line (e : Orchestrator.HeaderEntry) : jstring :=
  Orchestrator.name e ++ U ": " ++ Orchestrator.value e.

Definition two_headers : Orchestrator.HeaderMap :=
  [ (U "x-test", {| Orchestrator.name := U "X-Test";
                    Orchestrator.value := U "Value: 1" |});
    (U "authorization", {| Orchestrator.name := U "Authorization";
                           Orchestrator.value := U "Bearer abc123" |}) ].


(** A text that begins and ends with a brace is tried as JSON first. *)
Definition enclosed_in_braces (s : jstring) : bool :=
  startsWith s (U "{") && endsWith s (U "}").

Definition three_lines : jstring :=
  U "  X-Test :  one " ++ [cCR; cLF] ++ U "no colon here" ++ [cLF]
  ++ U "x-test: two" ++ [cLF] ++ U "Other: 3".


(** ** The model option of the arguments *)

(** Only white space; no white space at all. *)
Definition blank (s : jstring) : bool := forallb is_js_space s.
Definition solid (s : jstring) : bool :=
  forallb (fun c => negb (is_js_space c)) s.

(** What may follow the model name: nothing, or white space. *)
Definition ends_the_word (rest : jstring) : bool :=
  match rest with [] => true | c :: _ => is_js_space c end.

Definition model_flag : jstring := U "--model".

Definition claude_args : jstring :=
  U "--max-turns 3 --mode fast --model" ++ [cTAB; cSPACE]
  ++ U "claude-sonnet-4 --verbose".


(** ** The additional models *)

(** The two separators of the list of additional models. *)
Definition is_separator (c : N) : bool := N.eqb c cLF || N.eqb c cCOMMA.

(** A model name as [parseAdditionalModels] hands it on. *)
Definition listed_name (m : jstring) : Prop :=
  m <> [] /\ trim m = m /\ existsb is_separator m = false.


(** ** The header section of the generated configuration *)

Definition referer_default : jstring := U "https://github.com/anthropics".
Definition title_default : jstring := U "Claude Code OpenRouter".

(** ** The layers of the direct mode *)

(** The names the orchestrator itself writes, in the order of the
    writes: [Authorization] always, the referer and the title when the
    trimmed variable is not empty. *)
Definition injected_names (e : Env) : list jstring :=
  [U "authorization"]
  ++ (if truthy (option_map trim (getenv e "OPENROUTER_SITE_URL"))
      then [U "http-referer"] else [])
  ++ (if truthy (option_map trim (getenv e "OPENROUTER_APP_TITLE"))
      then [U "x-title"] else []).

(** The entry the orchestrator itself writes under a key, if any. *)
Definition injected_entry (e : Env) (openRouterKey : jstring) (k : jstring)
  : option Orchestrator.HeaderEntry :=
  if jeqb k (U "authorization") then Some (bearer openRouterKey)
  else if jeqb k (U "http-referer") then
    match option_map trim (getenv e "OPENROUTER_SITE_URL") with
    | Some (c :: r) =>
        Some {| Orchestrator.name := U "HTTP-Referer";
                Orchestrator.value := c :: r |}
    | _ => None
    end
  else if jeqb k (U "x-title") then
    match option_map trim (getenv e "OPENROUTER_APP_TITLE") with
    | Some (c :: t) =>
        Some {| Orchestrator.name := U "X-Title";
                Orchestrator.value := c :: t |}
    | _ => None
    end
  else None.

(** The last writer of a key wins: the extra headers, else the
    orchestrator, else the existing headers. *)
Definition last_write (e : Env) (openRouterKey : jstring)
  (custom extra : Orchestrator.HeaderMap) (k : jstring)
  : option Orchestrator.HeaderEntry :=
  match map_get extra k with
  | Some entry => Some entry
  | None =>
      match injected_entry e openRouterKey k with
      | Some entry => Some entry
      | None => map_get custom k
      end
  end.

(** The keys in the order of their first write: the existing ones, then
    those among the injected names and the extra headers that are new,
    each once. *)
Definition first_writes (e : Env) (custom extra : Orchestrator.HeaderMap)
  : list jstring :=
  keys custom
  ++ keep_first
       (filter (fun k => negb (set_mem (keys custom) k))
          (injected_names e ++ keys extra)).

(*VOCAB-END*)
End Vocabulary.

(* ================================================================== *)
(** * Properties *)
(* ================================================================== *)

Import JS Effects Vocabulary.

Unset Implicit Arguments.

(** ** Strings *)

Lemma jeqb_refl (a : jstring) : jeqb a a = true.
Proof.
  induction a as [|x a IH]; simpl; [reflexivity|].
  now rewrite N.eqb_refl, IH.
Qed.

Lemma jeqb_eq (a b : jstring) : jeqb a b = true <-> a = b.
Proof.
  split; [|intros ->; apply jeqb_refl].
  revert b; induction a as [|x a IH]; intros [|y b]; simpl; try discriminate.
  - reflexivity.
  - rewrite andb_true_iff, N.eqb_eq. intros [-> H]. now rewrite (IH b H).
Qed.

Lemma jeqb_neq (a b : jstring) : jeqb a b = false <-> a <> b.
Proof.
  split.
  - intros H E. apply jeqb_eq in E. congruence.
  - intros H. destruct (jeqb a b) eqn:E; [|reflexivity].
    apply jeqb_eq in E. contradiction.
Qed.

(** ** The readiness probe *)

Section Readiness.
Import Proxy.
Local Open Scope m_scope.

Lemma after_fetches_S st n :
  after_fetches
    {| env := env st; proxyInitialized := proxyInitialized st;
       listens := listens st; randoms := randoms st;
       fetches := S (fetches st) |} n
  = after_fetches st (S n).
Proof. unfold after_fetches; simpl. f_equal. lia. Qed.

Lemma poll_run (attempts : list nat) (url : jstring) (w : World) (st : State) :
  poll attempts url w st =
  match first_ready (fetch_outcome w) (fetches st) (List.length attempts) with
  | Some k =>
      {| res := Ok tt; final := after_fetches st (S k);
         events := rounds k url ++ [EvFetch url] |}
  | None =>
      {| res := Throw timeout_error;
         final := after_fetches st (List.length attempts);
         events := rounds (List.length attempts) url |}
  end.
Proof.
  revert st. induction attempts as [|a later IH]; intros st.
  - simpl. unfold throw, after_fetches. destruct st; simpl.
    now rewrite Nat.add_0_r.
  - cbn [poll List.length first_ready].
    unfold bind at 1. cbn.
    destruct (fetch_outcome w (fetches st)) as [status|err] eqn:E; cbn.
    + destruct (response_ok status) eqn:R; cbn.
      * unfold after_fetches; simpl. do 2 f_equal. lia.
      * rewrite IH. cbn [fetches].
        destruct (first_ready _ _ _) as [k|]; cbn;
          now rewrite after_fetches_S.
    + rewrite IH. cbn [fetches].
      destruct (first_ready _ _ _) as [k|]; cbn;
        now rewrite after_fetches_S.
Qed.

Lemma waitForProxy_run (port : N) (w : World) (st : State) :
  waitForProxy port w st =
  match first_ready (fetch_outcome w) (fetches st) maxAttempts with
  | Some k =>
      {| res := Ok tt; final := after_fetches st (S k);
         events := rounds k (health_url port) ++ [EvFetch (health_url port)] |}
  | None =>
      {| res := Throw timeout_error;
         final := after_fetches st maxAttempts;
         events := rounds maxAttempts (health_url port) |}
  end.
Proof.
  unfold waitForProxy. rewrite poll_run, length_seq.
  unfold health_url. now rewrite <- app_assoc.
Qed.

Lemma first_ready_bound answers start n k :
  first_ready answers start n = Some k -> k < n.
Proof.
  revert start k. induction n as [|n IH]; intros start k; simpl.
  - discriminate.
  - destruct (is_ready (answers start)).
    + intros [= <-]. lia.
    + destruct (first_ready answers (S start) n) as [j|] eqn:E; simpl;
        [|discriminate].
      intros [= <-]. apply IH in E. lia.
Qed.

Lemma first_ready_ext f g start n :
  (forall i, i < n -> is_ready (f (start + i)) = is_ready (g (start + i))) ->
  first_ready f start n = first_ready g start n.
Proof.
  revert start. induction n as [|n IH]; intros start H; simpl; [reflexivity|].
  rewrite <- (Nat.add_0_r start) at 1 3.
  rewrite (H 0) by lia. rewrite Nat.add_0_r.
  rewrite (IH (S start)); [reflexivity|].
  intros i Hi. replace (S start + i) with (start + S i) by lia.
  apply H. lia.
Qed.

Lemma first_ready_none answers start n :
  (forall i, i < n -> is_ready (answers (start + i)) = false) ->
  first_ready answers start n = None.
Proof.
  revert start. induction n as [|n IH]; intros start H; simpl; [reflexivity|].
  generalize (H 0 ltac:(lia)). rewrite Nat.add_0_r. intros ->.
  rewrite IH; [reflexivity|].
  intros i Hi. replace (S start + i) with (start + S i) by lia.
  apply H. lia.
Qed.

Lemma length_rounds k url : List.length (rounds k url) = 2 * k.
Proof. induction k; simpl; [reflexivity|]. rewrite IHk. lia. Qed.

End Readiness.

Section ReadinessClaims.
Import Proxy.

Lemma first_ready_some answers start n k :
  first_ready answers start n = Some k ->
  is_ready (answers (start + k)) = true
  /\ forall i, i < k -> is_ready (answers (start + i)) = false.
Proof.
  revert start k. induction n as [|n IH]; intros start k; simpl.
  - discriminate.
  - destruct (is_ready (answers start)) eqn:R.
    + intros [= <-]. rewrite Nat.add_0_r. split; [exact R|]. lia.
    + destruct (first_ready answers (S start) n) as [j|] eqn:E; simpl;
        [|discriminate].
      intros [= <-]. destruct (IH _ _ E) as [Hj Hlt].
      replace (start + S j) with (S start + j) by lia. split; [exact Hj|].
      intros [|i] Hi.
      * now rewrite Nat.add_0_r.
      * replace (start + S i) with (S start + i) by lia. apply Hlt. lia.
Qed.

Lemma first_ready_none_inv answers start n :
  first_ready answers start n = None ->
  forall i, i < n -> is_ready (answers (start + i)) = false.
Proof.
  revert start. induction n as [|n IH]; intros start; simpl.
  - intros _ i Hi. lia.
  - destruct (is_ready (answers start)) eqn:R; [discriminate|].
    destruct (first_ready answers (S start) n) eqn:E; simpl; [discriminate|].
    intros _ [|i] Hi.
    + now rewrite Nat.add_0_r.
    + replace (start + S i) with (S start + i) by lia. apply (IH _ E). lia.
Qed.

(** C7.  [waitForProxy] probes [GET /health] at most 30 times, pauses 200ms
    after every probe that did not find the proxy ready (a rejected [fetch]
    included: it is swallowed and the loop goes on), and ends for every
    sequence of answers of the endpoint: either at the first ready answer,
    by returning, or after the 30th probe, by throwing the timeout error. *)
Theorem waitForProxy_always_ends (port : N) (w : World) (st : State) :
  maxAttempts = 30
  /\ ((exists k,
         k < 30
         /\ is_ready (fetch_outcome w (fetches st + k)) = true
         /\ (forall i, i < k ->
               is_ready (fetch_outcome w (fetches st + i)) = false)
         /\ waitForProxy port w st =
            {| res := Ok tt; final := after_fetches st (S k);
               events := rounds k (health_url port)
                           ++ [EvFetch (health_url port)] |})
      \/ ((forall i, i < 30 ->
             is_ready (fetch_outcome w (fetches st + i)) = false)
          /\ waitForProxy port w st =
             {| res := Throw timeout_error; final := after_fetches st 30;
                events := rounds 30 (health_url port) |})).
Proof.
  split; [reflexivity|].
  rewrite waitForProxy_run.
  destruct (first_ready (fetch_outcome w) (fetches st) maxAttempts) as [k|] eqn:E.
  - left. exists k.
    pose proof (first_ready_bound _ _ _ _ E) as Hk.
    destruct (first_ready_some _ _ _ _ E) as [Hr Hn].
    repeat split; assumption.
  - right. split; [|reflexivity].
    exact (first_ready_none_inv _ _ _ E).
Qed.

Lemma is_ready_as_network_error o :
  is_ready (as_network_error o) = is_ready o.
Proof.
  destruct o as [status|err]; simpl; [|reflexivity].
  destruct (response_ok status) eqn:R; simpl; [exact R|reflexivity].
Qed.

(** C10.  An answer of the health endpoint with a status outside 200..299
    counts for [waitForProxy] exactly as a network error does: turning every
    such answer into a refused connection changes neither the result, nor
    the final state, nor the trace.  When each of the 30 probes gets such an
    answer, the probe throws the timeout error after the 30th pause; it
    neither returns nor throws anything else. *)
Theorem unhealthy_answer_counts_as_network_error
  (port : N) (w : World) (st : State) :
  waitForProxy port (map_fetch_outcome as_network_error w) st
    = waitForProxy port w st
  /\ ((forall i, i < 30 ->
         exists status,
           fetch_outcome w (fetches st + i) = FetchResponse status
           /\ response_ok status = false) ->
      waitForProxy port w st =
        {| res := Throw timeout_error; final := after_fetches st 30;
           events := rounds 30 (health_url port) |}).
Proof.
  split.
  - rewrite !waitForProxy_run.
    rewrite (first_ready_ext (fetch_outcome (map_fetch_outcome as_network_error w))
               (fetch_outcome w)); [reflexivity|].
    intros i _. simpl. apply is_ready_as_network_error.
  - intros H. rewrite waitForProxy_run.
    rewrite first_ready_none; [reflexivity|].
    intros i Hi. destruct (H i Hi) as (status & -> & R). exact R.
Qed.

Lemma unhealthy_answer_counts_as_network_error_witness :
  waitForProxy 40123 unhealthy_world (initial_state empty_env) =
    {| res := Throw timeout_error;
       final := after_fetches (initial_state empty_env) 30;
       events := rounds 30 (health_url 40123) |}.
Proof.
  apply (unhealthy_answer_counts_as_network_error 40123 unhealthy_world
           (initial_state empty_env)).
  intros i Hi. exists 503%N. split; reflexivity.
Defined.

End ReadinessClaims.

(** ** The port allocator *)

Section PortAllocation.
Import Proxy.

Lemma after_listens_S st n :
  after_listens
    {| env := env st; proxyInitialized := proxyInitialized st;
       listens := S (listens st); randoms := randoms st;
       fetches := fetches st |} n
  = after_listens st (S n).
Proof. unfold after_listens; simpl. f_equal. lia. Qed.

(** All the binds of [tryListen retries] fail: the error of the last one
    is thrown. *)
Lemma tryListen_exhausted (retries : nat) (w : World) (st : State) (last : exn) :
  (forall i, i < retries ->
     exists e, listen_outcome w (listens st + i) = ListenError e) ->
  listen_outcome w (listens st + retries) = ListenError last ->
  tryListen retries w st =
    {| res := Throw last; final := after_listens st (S retries);
       events := failed_binds retries ++ bind_attempt |}.
Proof.
  revert st. induction retries as [|r IH]; intros st Hfail Hlast.
  - rewrite Nat.add_0_r in Hlast.
    cbn [tryListen]. unfold bind at 1. cbn. rewrite Hlast. cbn.
    unfold after_listens. do 2 f_equal. lia.
  - destruct (Hfail 0 ltac:(lia)) as [e He]. rewrite Nat.add_0_r in He.
    cbn [tryListen]. unfold bind at 1. cbn. rewrite He. cbn.
    rewrite IH.
    + cbn. now rewrite after_listens_S.
    + intros i Hi. cbn [listens].
      replace (S (listens st) + i) with (listens st + S i) by lia.
      apply Hfail. lia.
    + cbn [listens].
      replace (S (listens st) + r) with (listens st + S r) by lia.
      exact Hlast.
Qed.

(** The first [k] binds fail and the next one listens. *)
Lemma tryListen_listening (retries k : nat) (w : World) (st : State)
  (address : Address) :
  k <= retries ->
  (forall i, i < k ->
     exists e, listen_outcome w (listens st + i) = ListenError e) ->
  listen_outcome w (listens st + k) = Listening address ->
  tryListen retries w st =
    {| res := match address with
              | AddrInfo port =>
                  if N.eqb port 0
                  then Throw (Error (U "Failed to determine proxy port"))
                  else Ok port
              | _ => Throw (Error (U "Failed to determine proxy port"))
              end;
       final := after_listens st (S k);
       events := failed_binds k ++ bind_attempt |}.
Proof.
  revert retries st. induction k as [|k IH]; intros retries st Hk Hfail Hok.
  - rewrite Nat.add_0_r in Hok.
    destruct retries; cbn [tryListen]; unfold bind at 1; cbn; rewrite Hok; cbn;
      (destruct address as [|path|port]; cbn;
       [| |destruct (N.eqb port 0); cbn];
       unfold after_listens; do 2 f_equal; lia).
  - destruct retries as [|r]; [lia|].
    destruct (Hfail 0 ltac:(lia)) as [e He]. rewrite Nat.add_0_r in He.
    cbn [tryListen]. unfold bind at 1. cbn. rewrite He. cbn.
    rewrite (IH r).
    + cbn. now rewrite after_listens_S.
    + lia.
    + intros i Hi. cbn [listens].
      replace (S (listens st) + i) with (listens st + S i) by lia.
      apply Hfail. lia.
    + cbn [listens].
      replace (S (listens st) + k) with (listens st + S k) by lia.
      exact Hok.
Qed.

(** C8.  [getAvailablePort] retries a failed bind up to 5 times, with a
    pause of 100ms before each retry.  When the bind that follows [k <= 5]
    failures succeeds, the socket is closed and the port the kernel assigned
    is the result.  When the first bind and the 5 retries all fail, the
    error of the last bind is thrown. *)
Theorem getAvailablePort_retry_budget (w : World) (st : State) :
  (forall k port,
     k <= 5 ->
     (forall i, i < k ->
        exists e, listen_outcome w (listens st + i) = ListenError e) ->
     listen_outcome w (listens st + k) = Listening (AddrInfo port) ->
     port <> 0%N ->
     getAvailablePort w st =
       {| res := Ok port; final := after_listens st (S k);
          events := failed_binds k ++ bind_attempt |})
  /\ (forall last,
        (forall i, i < 5 ->
           exists e, listen_outcome w (listens st + i) = ListenError e) ->
        listen_outcome w (listens st + 5) = ListenError last ->
        getAvailablePort w st =
          {| res := Throw last; final := after_listens st 6;
             events := failed_binds 5 ++ bind_attempt |}).
Proof.
  split.
  - intros k port Hk Hfail Hok Hport.
    unfold getAvailablePort.
    rewrite (tryListen_listening 5 k w st (AddrInfo port) Hk Hfail Hok).
    apply N.eqb_neq in Hport. now rewrite Hport.
  - intros last Hfail Hlast.
    exact (tryListen_exhausted 5 w st last Hfail Hlast).
Qed.

Lemma getAvailablePort_retry_budget_witness :
  getAvailablePort busy_world (initial_state empty_env) =
    {| res := Ok 40123%N;
       final := after_listens (initial_state empty_env) 3;
       events := failed_binds 2 ++ bind_attempt |}
  /\ getAvailablePort exhausted_world (initial_state empty_env) =
       {| res := Throw EACCES;
          final := after_listens (initial_state empty_env) 6;
          events := failed_binds 5 ++ bind_attempt |}.
Proof.
  split.
  - apply (proj1 (getAvailablePort_retry_budget busy_world
                    (initial_state empty_env)) 2 40123%N).
    + lia.
    + intros i Hi. exists EADDRINUSE.
      destruct i as [|[|i]]; [reflexivity|reflexivity|lia].
    + reflexivity.
    + discriminate.
  - apply (proj2 (getAvailablePort_retry_budget exhausted_world
                    (initial_state empty_env)) EACCES).
    + intros i Hi. exists EADDRINUSE.
      do 5 (destruct i as [|i]; [reflexivity|]). lia.
    + reflexivity.
Defined.

End PortAllocation.

(** ** Running the monad step by step *)

Section Runs.
Import Proxy.

Lemma bind_ok {A B : Type} {c : M A} {k : A -> M B} {w st a st' ev} :
  c w st = {| res := Ok a; final := st'; events := ev |} ->
  bind c k w st = prepend ev (k a w st').
Proof. intros H. unfold bind, prepend. now rewrite H. Qed.

Lemma bind_throw {A B : Type} {c : M A} {k : A -> M B} {w st e st' ev} :
  c w st = {| res := Throw e; final := st'; events := ev |} ->
  bind c k w st = {| res := Throw e; final := st'; events := ev |}.
Proof. intros H. unfold bind. now rewrite H. Qed.

Lemma get_state_run w st :
  get_state w st = {| res := Ok st; final := st; events := [] |}.
Proof. reflexivity. Qed.

Lemma ask_run w st :
  ask w st = {| res := Ok w; final := st; events := [] |}.
Proof. reflexivity. Qed.

Lemma lift_run {A : Type} (r : result A) w st :
  lift r w st = {| res := r; final := st; events := [] |}.
Proof. reflexivity. Qed.

Lemma mkdtemp_run prefix w st :
  mkdtemp prefix w st =
    {| res := mkdtemp_outcome w prefix; final := st;
       events := [EvMkdtemp prefix] |}.
Proof. reflexivity. Qed.

Lemma Math_random_36_run w st :
  Math_random_36 w st =
    {| res := Ok (math_random_36 w (randoms st)); final := after_random st;
       events := [EvRandom] |}.
Proof. reflexivity. Qed.

Lemma writeFile_run path content w st :
  writeFile path content w st =
    {| res := writeFile_outcome w path content; final := st;
       events := [EvWriteFile path content] |}.
Proof. reflexivity. Qed.

Lemma spawn_run which command args w st :
  spawn which command args w st =
    {| res := Ok tt; final := st; events := [EvSpawn which command args] |}.
Proof. reflexivity. Qed.

Lemma installProxyDependency_run w st :
  installProxyDependency w st =
    {| res := match install_outcome w with
              | ChildError err => Throw err
              | ChildExit (Some 0%N) => Ok tt
              | ChildExit code =>
                  Throw (Error (U "Failed to install litellm proxy dependencies (exit code "
                                  ++ render_code code ++ U ")"))
              end;
       final := st;
       events := [EvSpawn PipInstall (U "python3") installArgs] |}.
Proof.
  unfold installProxyDependency.
  rewrite (bind_ok (ask_run w st)), (bind_ok (spawn_run _ _ _ w st)).
  unfold prepend. destruct (install_outcome w) as [e|[[|p]|]]; reflexivity.
Qed.

Lemma tryListen_events_are_allocation retries w st :
  forallb is_allocation (events (tryListen retries w st)) = true.
Proof.
  revert st. induction retries as [|r IH]; intros st.
  - cbn [tryListen]. unfold bind at 1. cbn.
    destruct (listen_outcome w (listens st)) as [[| |port]|e]; cbn;
      try reflexivity.
    destruct (N.eqb port 0); reflexivity.
  - cbn [tryListen]. unfold bind at 1. cbn.
    destruct (listen_outcome w (listens st)) as [[| |port]|e]; cbn;
      try reflexivity.
    + destruct (N.eqb port 0); reflexivity.
    + apply IH.
Qed.

Lemma tryListen_keeps_env retries w st :
  env (final (tryListen retries w st)) = env st
  /\ randoms (final (tryListen retries w st)) = randoms st
  /\ fetches (final (tryListen retries w st)) = fetches st
  /\ proxyInitialized (final (tryListen retries w st)) = proxyInitialized st.
Proof.
  revert st. induction retries as [|r IH]; intros st.
  - cbn [tryListen]. unfold bind at 1. cbn.
    destruct (listen_outcome w (listens st)) as [[| |port]|e]; cbn;
      try (repeat split; reflexivity).
    destruct (N.eqb port 0); repeat split; reflexivity.
  - cbn [tryListen]. unfold bind at 1. cbn.
    destruct (listen_outcome w (listens st)) as [[| |port]|e]; cbn;
      try (repeat split; reflexivity).
    + destruct (N.eqb port 0); repeat split; reflexivity.
    + match goal with
      | |- context [tryListen r w ?s] => destruct (IH s) as (He & Hr & Hf & Hp)
      end.
      rewrite He, Hr, Hf, Hp. repeat split; reflexivity.
Qed.

Lemma rounds_are_probes k url : forallb is_probe (rounds k url) = true.
Proof. induction k as [|k IH]; [reflexivity|exact IH]. Qed.

Lemma waitForProxy_events_are_probes port w st :
  forallb is_probe (events (waitForProxy port w st)) = true.
Proof.
  rewrite waitForProxy_run.
  destruct (first_ready _ _ _); cbn [events].
  - rewrite forallb_app, rounds_are_probes. reflexivity.
  - apply rounds_are_probes.
Qed.

Lemma waitForProxy_ok_has_fetch port w st :
  res (waitForProxy port w st) = Ok tt ->
  existsb is_fetch (events (waitForProxy port w st)) = true.
Proof.
  rewrite waitForProxy_run.
  destruct (first_ready _ _ _); cbn [events res]; [|discriminate].
  intros _. rewrite existsb_app. cbn. apply orb_true_r.
Qed.

End Runs.

(** ** The order of the steps *)

Section StepOrder.
Import Proxy.

(** The trace of [startOpenRouterProxy] is the trace of the port allocation,
    then an initial segment of [setup_steps], then the probes; there are
    probes only after the whole of [setup_steps]. *)
Lemma startOpenRouterProxy_shape options w st :
  proxy_enabled st ->
  exists n port workingDir entries probes,
    events (startOpenRouterProxy options w st)
    = events (getAvailablePort w st)
        ++ firstn n (setup_steps w options port workingDir
                       (math_random_36 w (randoms st)) entries)
        ++ probes
    /\ forallb is_probe probes = true
    /\ (probes = [] \/ n = 5)
    /\ (forall h, res (startOpenRouterProxy options w st) = Ok h ->
        n = 5 /\ existsb is_fetch probes = true
        /\ h = {| Handle.baseUrl :=
                    U "http://127.0.0.1:" ++ number_toString port
                      ++ U "/anthropic";
                  Handle.masterKey :=
                    U "sk-litellm-proxy-"
                      ++ slice_from 2 (math_random_36 w (randoms st));
                  Handle.stop := emit (EvKill (U "SIGTERM")) |}).
Proof.
  intros H. unfold proxy_enabled in H.
  pose proof (tryListen_keeps_env 5 w st) as K. fold getAvailablePort in K.
  unfold startOpenRouterProxy.
  rewrite (bind_ok (get_state_run w st)). cbv beta. rewrite H.
  rewrite (bind_ok (ask_run w st)).
  destruct (getAvailablePort w st) as [[port|e] st1 ev1] eqn:E1.
  2:{ rewrite (bind_throw E1).
      exists 0, 0%N, [], [], []. cbn [prepend app events res].
      rewrite app_nil_r. repeat split; auto; intros; congruence. }
  rewrite (bind_ok E1).
  cbn [final randoms] in K. destruct K as (_ & K & _).
  pose proof (mkdtemp_run (path_join (os_tmpdir w) (U "litellm-openrouter-")) w st1) as R2.
  destruct (mkdtemp_outcome w (path_join (os_tmpdir w) (U "litellm-openrouter-")))
    as [dir|e] eqn:E2.
  2:{ rewrite (bind_throw R2).
      exists 1, port, [], [], []. cbn [prepend app events res].
      repeat split; auto; intros; congruence. }
  rewrite (bind_ok R2). clear R2.
  rewrite (bind_ok (Math_random_36_run w st1)). rewrite K.
  set (random := math_random_36 w (randoms st)).
  pose proof (lift_run (headerEntries options) w (after_random st1)) as R3.
  destruct (headerEntries options) as [entries|e] eqn:E3.
  2:{ rewrite (bind_throw R3).
      exists 2, port, dir, [], []. cbn [prepend app events res].
      repeat split; auto; intros; congruence. }
  rewrite (bind_ok R3). clear R3.
  set (configPath := path_join dir (U "config.yaml")).
  set (content := config options entries (U "sk-litellm-proxy-" ++ slice_from 2 random)).
  pose proof (writeFile_run configPath content w (after_random st1)) as R4.
  destruct (writeFile_outcome w configPath content) as [[]|e] eqn:E4.
  2:{ rewrite (bind_throw R4).
      exists 3, port, dir, entries, []. cbn [prepend app events res].
      repeat split; auto; intros; congruence. }
  rewrite (bind_ok R4). clear R4.
  pose proof (installProxyDependency_run w (after_random st1)) as R5.
  assert (Hinstall :
    (exists e, installProxyDependency w (after_random st1) =
       {| res := Throw e; final := after_random st1;
          events := [EvSpawn PipInstall (U "python3") installArgs] |})
    \/ installProxyDependency w (after_random st1) =
       {| res := Ok tt; final := after_random st1;
          events := [EvSpawn PipInstall (U "python3") installArgs] |}).
  { rewrite R5. destruct (install_outcome w) as [e|[[|p]|]];
      [left|right|left|left]; eauto. }
  clear R5. destruct Hinstall as [[e R5]|R5].
  { rewrite (bind_throw R5).
    exists 4, port, dir, entries, []. cbn [prepend app events res].
    repeat split; auto; intros; congruence. }
  rewrite (bind_ok R5). clear R5.
  rewrite (bind_ok (spawn_run _ _ _ w (after_random st1))).
  pose proof (waitForProxy_events_are_probes port w (after_random st1)) as P6.
  pose proof (waitForProxy_ok_has_fetch port w (after_random st1)) as F6.
  destruct (waitForProxy port w (after_random st1)) as [[[]|e] st6 ev6] eqn:E6;
    cbn [events res] in P6, F6.
  - rewrite (bind_ok E6).
    exists 5, port, dir, entries, ev6. cbn [prepend app events res].
    rewrite app_nil_r. repeat split; auto.
    match goal with
    | Hh : res _ = Ok _ |- _ =>
        unfold ret in Hh; cbn [res] in Hh; injection Hh as <-; reflexivity
    end.
  - rewrite (bind_throw E6).
    exists 5, port, dir, entries, ev6. cbn [prepend app events res].
    repeat split; auto; intros; congruence.
Qed.

End StepOrder.

Section StepOrderClaims.
Import Proxy.

Lemma preceded_by_app earlier later seen a b :
  preceded_by earlier later seen (a ++ b)
  = preceded_by earlier later seen a
    && preceded_by earlier later (seen || existsb earlier a) b.
Proof.
  revert seen. induction a as [|e a IH]; intros seen; cbn.
  - now rewrite orb_false_r.
  - rewrite IH, <- andb_assoc, orb_assoc. reflexivity.
Qed.

Lemma preceded_by_absent earlier later seen tr :
  existsb later tr = false ->
  preceded_by earlier later seen tr = true.
Proof.
  revert seen. induction tr as [|e tr IH]; intros seen; cbn; [reflexivity|].
  rewrite orb_false_iff. intros [-> H]. cbn. now apply IH.
Qed.

Lemma preceded_by_seen earlier later tr :
  preceded_by earlier later true tr = true.
Proof.
  induction tr as [|e tr IH]; cbn; [reflexivity|].
  rewrite IH. now destruct (later e).
Qed.

Lemma none_of (P Q : Event -> bool) tr :
  (forall e, P e = true -> Q e = false) ->
  forallb P tr = true -> existsb Q tr = false.
Proof.
  intros HPQ. induction tr as [|e tr IH]; cbn; [reflexivity|].
  rewrite andb_true_iff. intros [He Htr].
  now rewrite (HPQ e He), IH.
Qed.

Lemma allocation_is_no_install e : is_allocation e = true -> is_install e = false.
Proof. now destruct e. Qed.

Lemma allocation_is_no_proxy_spawn e :
  is_allocation e = true -> is_proxy_spawn e = false.
Proof. now destruct e. Qed.

Lemma allocation_is_no_fetch e : is_allocation e = true -> is_fetch e = false.
Proof. now destruct e. Qed.

Lemma probe_is_no_install e : is_probe e = true -> is_install e = false.
Proof. now destruct e. Qed.

Lemma probe_is_no_proxy_spawn e : is_probe e = true -> is_proxy_spawn e = false.
Proof. now destruct e. Qed.

(** C1, as the code has it.  With the proxy enabled, the trace of
    [startOpenRouterProxy] is: the allocation of the port; then, as far as
    the run gets, the creation of the working directory, the draw of the
    random master key that opens the synthesis of the configuration, the
    writing of the configuration file, the installation of the dependency
    and the spawning of the proxy, in this order; then the readiness probes,
    which only start once the proxy was spawned.  So the configuration file
    is written before the installation of the dependency starts, the
    dependency is installed before the proxy is spawned, and the proxy is
    spawned before the first probe; a run that returns a handle went through
    all the steps and probed at least once. *)
Theorem startOpenRouterProxy_step_order options w st :
  proxy_enabled st ->
  (exists n port workingDir entries probes,
     events (startOpenRouterProxy options w st)
     = events (getAvailablePort w st)
         ++ firstn n (setup_steps w options port workingDir
                        (math_random_36 w (randoms st)) entries)
         ++ probes
     /\ forallb is_allocation (events (getAvailablePort w st)) = true
     /\ forallb is_probe probes = true
     /\ (probes = [] \/ n = 5)
     /\ (forall h, res (startOpenRouterProxy options w st) = Ok h ->
         n = 5 /\ existsb is_fetch probes = true))
  /\ preceded_by is_write is_install false
       (events (startOpenRouterProxy options w st)) = true
  /\ preceded_by is_install is_proxy_spawn false
       (events (startOpenRouterProxy options w st)) = true
  /\ preceded_by is_proxy_spawn is_fetch false
       (events (startOpenRouterProxy options w st)) = true.
Proof.
  intros H.
  destruct (startOpenRouterProxy_shape options w st H)
    as (n & port & dir & entries & probes & Etr & Hprobes & Hn & Hok).
  pose proof (tryListen_events_are_allocation 5 w st) as Halloc.
  fold getAvailablePort in Halloc.
  split; [|rewrite Etr; clear Etr Hok; repeat split].
  - exists n, port, dir, entries, probes.
    split; [exact Etr|]. split; [exact Halloc|]. split; [exact Hprobes|].
    split; [exact Hn|]. intros h Hh. destruct (Hok h Hh) as (? & ? & _). auto.
  - rewrite preceded_by_app,
      (preceded_by_absent _ _ _ _ (none_of _ _ _ allocation_is_no_install Halloc)).
    rewrite preceded_by_app,
      (preceded_by_absent _ is_install _ probes
         (none_of _ _ _ probe_is_no_install Hprobes)).
    rewrite andb_true_r. cbn [andb].
    generalize (false || existsb is_write (events (getAvailablePort w st))).
    intros seen.
    do 5 (destruct n as [|n]; [destruct seen; reflexivity|]).
    destruct n; destruct seen; reflexivity.
  - rewrite preceded_by_app,
      (preceded_by_absent _ _ _ _ (none_of _ _ _ allocation_is_no_proxy_spawn Halloc)).
    rewrite preceded_by_app,
      (preceded_by_absent _ is_proxy_spawn _ probes
         (none_of _ _ _ probe_is_no_proxy_spawn Hprobes)).
    rewrite andb_true_r. cbn [andb].
    generalize (false || existsb is_install (events (getAvailablePort w st))).
    intros seen.
    do 5 (destruct n as [|n]; [destruct seen; reflexivity|]).
    destruct n; destruct seen; reflexivity.
  - rewrite preceded_by_app,
      (preceded_by_absent _ _ _ _ (none_of _ _ _ allocation_is_no_fetch Halloc)).
    rewrite preceded_by_app. cbn [andb].
    generalize (false || existsb is_proxy_spawn (events (getAvailablePort w st))).
    intros seen.
    destruct Hn as [-> | ->].
    + rewrite andb_true_r.
      do 5 (destruct n as [|n]; [destruct seen; reflexivity|]).
    destruct n; destruct seen; reflexivity.
    + cbn. rewrite !orb_true_r. apply preceded_by_seen.
Qed.

Lemma startOpenRouterProxy_step_order_witness :
  preceded_by is_write is_install false
    (events (startOpenRouterProxy plain_options calm_world
               (initial_state empty_env))) = true.
Proof.
  exact (proj1 (proj2 (startOpenRouterProxy_step_order plain_options calm_world
                         (initial_state empty_env) eq_refl))).
Defined.

(** C1, as it is stated, fails: in the run where every step succeeds at
    once the configuration file is written right before the installation of
    the dependency is started, and no installation precedes the writing. *)
Lemma config_is_written_before_the_install :
  proxy_enabled (initial_state empty_env)
  /\ (exists path content post,
        events (startOpenRouterProxy plain_options calm_world
                  (initial_state empty_env))
        = [ EvListen (U "127.0.0.1") 0; EvClose;
            EvMkdtemp (U "/tmp/litellm-openrouter-"); EvRandom ]
            ++ EvWriteFile path content
            :: EvSpawn PipInstall (U "python3") installArgs
            :: post)
  /\ preceded_by is_install is_write false
       (events (startOpenRouterProxy plain_options calm_world
                  (initial_state empty_env))) = false.
Proof.
  split; [reflexivity|]. split.
  - do 3 eexists. vm_compute. reflexivity.
  - vm_compute. reflexivity.
Qed.

End StepOrderClaims.

(** ** Header directives: what the supervisor does with them *)

Section SupervisorHeaders.
Import Proxy.

Lemma replace_quotes_is_identity (value : jstring) :
  replace_quotes quote_replacement value = value.
Proof.
  unfold replace_quotes, quote_replacement.
  induction value as [|c value IH]; [reflexivity|].
  cbn [flat_map]. rewrite IH.
  destruct (N.eqb c cQUOTE) eqn:E; [|reflexivity].
  apply N.eqb_eq in E. now subst.
Qed.

(** C2, at [X-Note: say "hi"].  The supervisor keeps the value with its
    two double quotes, and the configuration it writes holds the line
    with the value between double quotes as it is: the replacement that was
    meant to escape the quotes puts a bare double quote for each of them, so
    it changes no value at all.  The line with a backslash before each inner
    quote is nowhere in the document. *)
Theorem quotes_in_header_values_are_not_escaped :
  headerEntries quoting_options = Ok quoting_entries
  /\ headerLine (U "X-Note", quoting_value)
     = U "        X-Note: " ++ quoted quoting_value
  /\ includes
       (config quoting_options quoting_entries (U "sk-litellm-proxy-i"))
       (U "        X-Note: " ++ quoted quoting_value ++ NL) = true
  /\ includes
       (config quoting_options quoting_entries (U "sk-litellm-proxy-i"))
       (U "        X-Note: " ++ quoted escaped_quoting_value) = false
  /\ (forall value, replace_quotes quote_replacement value = value).
Proof.
  split; [vm_compute; reflexivity|].
  split; [vm_compute; reflexivity|].
  split; [vm_compute; reflexivity|].
  split; [vm_compute; reflexivity|].
  exact replace_quotes_is_identity.
Qed.

(** C3, at the two lines [X-Title: a] and [x-title: b].  The parser of the
    supervisor keys its record by the name as written and answers two
    entries; with the defaults of the supervisor around them the header set
    of the configuration has [X-Title] and [x-title] side by side.  The
    parser of the orchestrator, on the same text, answers the single entry
    of the later line. *)
Theorem supervisor_parser_keeps_both_cases :
  parseHeaderLines (Some two_cases)
    = Ok [ (U "X-Title", U "a"); (U "x-title", U "b") ]
  /\ headerEntries
       {| apiKey := U "k"; baseUrl := U "u"; siteUrl := None; appTitle := None;
          extraHeaders := Some two_cases;
          preferredModel := None; additionalModels := None |}
     = Ok [ (U "HTTP-Referer", U "https://github.com/anthropics");
            (U "X-Title", U "a"); (U "x-title", U "b") ]
  /\ Orchestrator.parseHeaderLines (Some two_cases)
     = Ok [ (U "x-title",
             {| Orchestrator.name := U "x-title"; Orchestrator.value := U "b" |}) ].
Proof. repeat split; vm_compute; reflexivity. Qed.

(** C4, at the text [["x"]].  It does not start with a brace, and yet the
    parser of the supervisor hands it to [JSON.parse], which accepts it, and
    answers the entry [0: x] made from the array; parsing the text line by
    line, as the orchestrator does for it, gives no entry. *)
Theorem supervisor_parser_tries_json_on_any_text :
  startsWith (trim json_array_text) (U "{") = false
  /\ parseHeaderLines (Some json_array_text) = Ok [ (U "0", U "x") ]
  /\ fold_left collect_line (split_lines (trim json_array_text)) [] = []
  /\ Orchestrator.parseHeaderLines (Some json_array_text) = Ok [].
Proof. repeat split; vm_compute; reflexivity. Qed.

End SupervisorHeaders.

(** ** Maps in insertion order *)

Section MapFacts.
Variable V : Type.
Implicit Types (m : list (jstring * V)) (k : jstring) (v : V).

Lemma has_key_In m k : has_key m k = true <-> In k (keys m).
Proof.
  induction m as [|[k' v'] m IH]; cbn.
  - split; [discriminate|tauto].
  - rewrite orb_true_iff, IH, jeqb_eq. tauto.
Qed.

Lemma has_key_false m k : has_key m k = false <-> ~ In k (keys m).
Proof.
  rewrite <- has_key_In. destruct (has_key m k); split; congruence.
Qed.

Lemma map_get_None m k : map_get m k = None <-> ~ In k (keys m).
Proof.
  unfold map_get. induction m as [|[k' v'] m IH]; cbn.
  - tauto.
  - destruct (jeqb k' k) eqn:E.
    + apply jeqb_eq in E. split; [discriminate|]. intros H. exfalso. auto.
    + apply jeqb_neq in E. rewrite IH. tauto.
Qed.

Lemma map_get_Some_In m k v : map_get m k = Some v -> In k (keys m).
Proof.
  intros H. destruct (has_key m k) eqn:E.
  - now apply has_key_In.
  - apply has_key_false, map_get_None in E. congruence.
Qed.

Lemma map_get_set_same m k v : map_get (map_set m k v) k = Some v.
Proof.
  unfold map_get. induction m as [|[k' v'] m IH]; cbn.
  - now rewrite jeqb_refl.
  - destruct (jeqb k' k) eqn:E; cbn; rewrite E; [reflexivity|exact IH].
Qed.

Lemma map_get_set_other m k k' v :
  k <> k' -> map_get (map_set m k v) k' = map_get m k'.
Proof.
  intros Hne. unfold map_get. induction m as [|[k0 v0] m IH]; cbn.
  - apply jeqb_neq in Hne. now rewrite Hne.
  - destruct (jeqb k0 k) eqn:E; cbn.
    + apply jeqb_eq in E. subst k0.
      apply jeqb_neq in Hne. now rewrite Hne.
    + destruct (jeqb k0 k'); [reflexivity|exact IH].
Qed.

Lemma keys_map_set m k v :
  keys (map_set m k v) = if has_key m k then keys m else keys m ++ [k].
Proof.
  induction m as [|[k' v'] m IH]; cbn; [reflexivity|].
  destruct (jeqb k' k) eqn:E; cbn; [reflexivity|].
  unfold keys in IH. rewrite IH. now destruct (has_key m k).
Qed.

Lemma NoDup_map_set m k v : NoDup (keys m) -> NoDup (keys (map_set m k v)).
Proof.
  intros H. rewrite keys_map_set. destruct (has_key m k) eqn:E; [exact H|].
  apply has_key_false in E.
  apply NoDup_app; [exact H|repeat constructor; intros []|].
  intros x Hx [<-|[]]. contradiction.
Qed.

Lemma In_map_set m k v kv :
  In kv (map_set m k v) -> In kv m \/ kv = (k, v).
Proof.
  induction m as [|[k' v'] m IH]; cbn.
  - intros [<-|[]]. now right.
  - destruct (jeqb k' k) eqn:E; cbn.
    + apply jeqb_eq in E. subst k'. intros [<-|H]; auto.
    + intros [<-|H]; auto. destruct (IH H); auto.
Qed.

Lemma overlay_cons m k v extra :
  overlay m ((k, v) :: extra) = overlay (map_set m k v) extra.
Proof. reflexivity. Qed.

Lemma keys_overlay m extra :
  exists added, keys (overlay m extra) = keys m ++ added.
Proof.
  revert m. induction extra as [|[k v] extra IH]; intros m.
  - exists []. cbn. now rewrite app_nil_r.
  - destruct (IH (map_set m k v)) as [added H].
    rewrite overlay_cons, H, keys_map_set.
    destruct (has_key m k).
    + now exists added.
    + exists (k :: added). now rewrite <- app_assoc.
Qed.

Lemma map_get_overlay m extra k :
  NoDup (keys extra) ->
  map_get (overlay m extra) k =
    match map_get extra k with
    | Some v => Some v
    | None => map_get m k
    end.
Proof.
  revert m. induction extra as [|[k1 v1] extra IH]; intros m Hnd.
  - reflexivity.
  - inversion Hnd as [|? ? Hnotin Hnd']; subst.
    rewrite overlay_cons, (IH _ Hnd').
    unfold map_get at 3. cbn [get]. fold (map_get extra k).
    destruct (jeqb k1 k) eqn:E.
    + apply jeqb_eq in E. subst k1.
      apply map_get_None in Hnotin. rewrite Hnotin.
      apply map_get_set_same.
    + apply jeqb_neq in E.
      destruct (map_get extra k); [reflexivity|].
      now apply map_get_set_other.
Qed.

Lemma NoDup_overlay m extra : NoDup (keys m) -> NoDup (keys (overlay m extra)).
Proof.
  revert m. induction extra as [|[k v] extra IH]; intros m H; [exact H|].
  rewrite overlay_cons. apply IH. now apply NoDup_map_set.
Qed.

End MapFacts.

(** ** The header directive parser of the orchestrator *)

Section OrchestratorParser.
Import Orchestrator.

Lemma well_keyed_nil : well_keyed [].
Proof. split; constructor. Qed.

Lemma well_keyed_set m n v :
  well_keyed m ->
  well_keyed (map_set m (toLowerCase n) {| name := n; value := v |}).
Proof.
  intros [Hnd Hk]. split.
  - now apply (NoDup_map_set HeaderEntry).
  - apply Forall_forall. intros kv Hin.
    destruct (In_map_set _ _ _ _ _ Hin) as [H| ->]; [|reflexivity].
    rewrite Forall_forall in Hk. now apply Hk.
Qed.

Lemma well_keyed_setHeader m n v : well_keyed m -> well_keyed (setHeader m n v).
Proof. apply well_keyed_set. Qed.

Lemma well_keyed_collect_member m member :
  well_keyed m -> well_keyed (collect_member m member).
Proof.
  intros H. destruct member as [n [ | | |s| | ]]; cbn; try exact H.
  destruct (is_empty (trim n)); cbn; [exact H|].
  now apply well_keyed_set.
Qed.

Lemma well_keyed_collect_line m line :
  well_keyed m -> well_keyed (collect_line m line).
Proof.
  intros H. unfold collect_line.
  destruct (cut_at cCOLON line) as [[before after]|]; [|exact H].
  destruct (is_empty (trim before) || is_empty (trim after)); [exact H|].
  now apply well_keyed_set.
Qed.

Lemma well_keyed_fold {A : Type} (f : HeaderMap -> A -> HeaderMap) l m :
  (forall m a, well_keyed m -> well_keyed (f m a)) ->
  well_keyed m -> well_keyed (fold_left f l m).
Proof.
  intros Hf. revert m. induction l as [|a l IH]; intros m H; cbn; auto.
Qed.

Lemma well_keyed_parse_lines s : well_keyed (parse_lines s).
Proof.
  apply well_keyed_fold; [apply well_keyed_collect_line|apply well_keyed_nil].
Qed.

Lemma well_keyed_parse_json s m :
  parse_json_object s = Ok m -> well_keyed m.
Proof.
  unfold parse_json_object, rbind.
  destruct (JSON_parse s) as [parsed|e]; [|discriminate].
  destruct (Object_entries parsed) as [members|e]; [|discriminate].
  intros [= <-].
  apply well_keyed_fold; [apply well_keyed_collect_member|apply well_keyed_nil].
Qed.

(** The parser of the orchestrator never throws... *)
Lemma orchestrator_parser_never_throws raw :
  exists m, parseHeaderLines raw = Ok m.
Proof.
  destruct raw as [[|c raw]|]; cbn [parseHeaderLines]; eauto.
  destruct (is_empty _); eauto.
  destruct (_ && _); eauto.
  destruct (parse_json_object _); cbn; eauto.
Qed.

(** ... answers at most one entry per name, whatever the case of its
    letters... *)
Lemma orchestrator_parser_well_keyed raw m :
  parseHeaderLines raw = Ok m -> well_keyed m.
Proof.
  destruct raw as [[|c raw]|]; cbn [parseHeaderLines];
    try (intros [= <-]; apply well_keyed_nil).
  destruct (is_empty _); [intros [= <-]; apply well_keyed_nil|].
  destruct (_ && _).
  - destruct (parse_json_object _) as [m'|e] eqn:E; cbn; intros [= <-].
    + exact (well_keyed_parse_json _ _ E).
    + apply well_keyed_parse_lines.
  - intros [= <-]. apply well_keyed_parse_lines.
Qed.

(** ... tries [JSON.parse] exactly on a text between braces, and reads the
    text line by line when [JSON.parse] rejects it. *)
Lemma orchestrator_parser_falls_through c raw :
  let trimmedRaw := trim (c :: raw) in
  is_empty trimmedRaw = false ->
  parseHeaderLines (Some (c :: raw)) =
    if startsWith trimmedRaw (U "{") && endsWith trimmedRaw (U "}") then
      match parse_json_object trimmedRaw with
      | Ok m => Ok m
      | Throw _ => Ok (parse_lines trimmedRaw)
      end
    else Ok (parse_lines trimmedRaw).
Proof.
  intros trimmedRaw H. cbn [parseHeaderLines]. fold trimmedRaw. rewrite H.
  destruct (_ && _); [|reflexivity].
  now destruct (parse_json_object trimmedRaw).
Qed.



End OrchestratorParser.

(** ** The header directive parser of the supervisor *)

Lemma supervisor_parser_never_throws raw :
  exists entries, Proxy.parseHeaderLines raw = Ok entries.
Proof.
  destruct raw as [[|c raw]|]; cbn [Proxy.parseHeaderLines]; eauto.
  destruct (is_empty _); eauto.
  destruct (Proxy.parse_json_entries _); cbn; eauto.
Qed.

Lemma headerEntries_never_throws options :
  exists entries, Proxy.headerEntries options = Ok entries.
Proof.
  unfold Proxy.headerEntries.
  destruct (supervisor_parser_never_throws (Proxy.extraHeaders options))
    as [extra ->].
  cbn. eauto.
Qed.

(** ** The direct mode *)

Section DirectMode.
Import Orchestrator.

Lemma modify_env_run f w st :
  modify_env f w st =
    {| res := Ok tt;
       final := {| env := f (env st); proxyInitialized := proxyInitialized st;
                   listens := listens st; randoms := randoms st;
                   fetches := fetches st |};
       events := [] |}.
Proof. reflexivity. Qed.

Lemma set_initialized_run b w st :
  set_initialized b w st =
    {| res := Ok tt;
       final := {| env := env st; proxyInitialized := b;
                   listens := listens st; randoms := randoms st;
                   fetches := fetches st |};
       events := [] |}.
Proof. reflexivity. Qed.

Lemma ret_run {A : Type} (a : A) w st :
  ret a w st = {| res := Ok a; final := st; events := [] |}.
Proof. reflexivity. Qed.

Lemma directHeaders_unfold e key :
  directHeaders e key =
    rbind (parseHeaderLines (getenv e "ANTHROPIC_CUSTOM_HEADERS")) (fun custom =>
    rbind (parseHeaderLines (getenv e "OPENROUTER_EXTRA_HEADERS")) (fun extra =>
    Ok (overlay (direct_base e key custom) extra))).
Proof.
  unfold directHeaders, direct_base, overlay.
  destruct (parseHeaderLines (getenv e "ANTHROPIC_CUSTOM_HEADERS")) as [custom|];
    [|reflexivity].
  cbn [rbind].
  destruct (option_map trim (getenv e "OPENROUTER_SITE_URL")) as [[|c r]|];
    destruct (option_map trim (getenv e "OPENROUTER_APP_TITLE")) as [[|d t]|];
    reflexivity.
Qed.

Lemma keys_setHeader_extends (m : HeaderMap) n v :
  exists added, keys (setHeader m n v) = keys m ++ added.
Proof.
  unfold setHeader. rewrite keys_map_set.
  destruct (has_key m (toLowerCase n)).
  - exists []. now rewrite app_nil_r.
  - now exists [toLowerCase n].
Qed.

Lemma setHeader_extends (m0 m : HeaderMap) n v :
  (exists added, keys m = keys m0 ++ added) ->
  exists added, keys (setHeader m n v) = keys m0 ++ added.
Proof.
  intros [a H]. destruct (keys_setHeader_extends m n v) as [b Hb].
  exists (a ++ b). now rewrite Hb, H, app_assoc.
Qed.

Lemma direct_base_keys e key custom :
  exists added, keys (direct_base e key custom) = keys custom ++ added.
Proof.
  unfold direct_base.
  destruct (option_map trim (getenv e "OPENROUTER_SITE_URL")) as [[|c r]|];
    destruct (option_map trim (getenv e "OPENROUTER_APP_TITLE")) as [[|d t]|];
    repeat apply setHeader_extends;
    exists []; now rewrite app_nil_r.
Qed.

Lemma direct_base_get e key custom k :
  map_get (direct_base e key custom) k =
    if jeqb k (U "authorization") then Some (bearer key)
    else if jeqb k (U "http-referer") then
      match option_map trim (getenv e "OPENROUTER_SITE_URL") with
      | Some (c :: r) => Some {| name := U "HTTP-Referer"; value := c :: r |}
      | _ => map_get custom k
      end
    else if jeqb k (U "x-title") then
      match option_map trim (getenv e "OPENROUTER_APP_TITLE") with
      | Some (c :: t) => Some {| name := U "X-Title"; value := c :: t |}
      | _ => map_get custom k
      end
    else map_get custom k.
Proof.
  assert (La : toLowerCase (U "Authorization") = U "authorization") by reflexivity.
  assert (Lr : toLowerCase (U "HTTP-Referer") = U "http-referer") by reflexivity.
  assert (Lt : toLowerCase (U "X-Title") = U "x-title") by reflexivity.
  assert (Nar : U "authorization" <> U "http-referer") by discriminate.
  assert (Nat' : U "authorization" <> U "x-title") by discriminate.
  assert (Nrt : U "http-referer" <> U "x-title") by discriminate.
  unfold direct_base, setHeader. rewrite La, Lr, Lt.
  destruct (jeqb k (U "authorization")) eqn:Ea.
  { apply jeqb_eq in Ea. subst k.
    destruct (option_map trim (getenv e "OPENROUTER_SITE_URL")) as [[|c r]|];
      destruct (option_map trim (getenv e "OPENROUTER_APP_TITLE")) as [[|d t]|];
      repeat (rewrite map_get_set_other by congruence);
      apply map_get_set_same. }
  apply jeqb_neq in Ea.
  destruct (jeqb k (U "http-referer")) eqn:Er.
  { apply jeqb_eq in Er. subst k.
    destruct (option_map trim (getenv e "OPENROUTER_SITE_URL")) as [[|c r]|];
      destruct (option_map trim (getenv e "OPENROUTER_APP_TITLE")) as [[|d t]|];
      repeat (rewrite map_get_set_other by congruence);
      try apply map_get_set_same; reflexivity. }
  apply jeqb_neq in Er.
  destruct (jeqb k (U "x-title")) eqn:Et.
  { apply jeqb_eq in Et. subst k.
    destruct (option_map trim (getenv e "OPENROUTER_SITE_URL")) as [[|c r]|];
      destruct (option_map trim (getenv e "OPENROUTER_APP_TITLE")) as [[|d t]|];
      try apply map_get_set_same;
      repeat (rewrite map_get_set_other by congruence); reflexivity. }
  apply jeqb_neq in Et.
  destruct (option_map trim (getenv e "OPENROUTER_SITE_URL")) as [[|c r]|];
    destruct (option_map trim (getenv e "OPENROUTER_APP_TITLE")) as [[|d t]|];
    repeat (rewrite map_get_set_other by congruence); reflexivity.
Qed.

Lemma well_keyed_direct_base e key custom :
  well_keyed custom -> well_keyed (direct_base e key custom).
Proof.
  intros H. unfold direct_base.
  destruct (option_map trim (getenv e "OPENROUTER_SITE_URL")) as [[|c r]|];
    destruct (option_map trim (getenv e "OPENROUTER_APP_TITLE")) as [[|d t]|];
    repeat apply well_keyed_setHeader; exact H.
Qed.

Lemma well_keyed_overlay m extra :
  well_keyed m -> well_keyed extra -> well_keyed (overlay m extra).
Proof.
  intros Hm [_ He]. revert m Hm.
  induction extra as [|[k entry] extra IH]; intros m Hm; [exact Hm|].
  rewrite overlay_cons. inversion He as [|? ? Hk He']; subst.
  apply IH; [exact He'|]. cbn in Hk. subst k.
  destruct entry as [n v]. now apply well_keyed_set.
Qed.

End DirectMode.


(** ** The handle *)

Section HandleClaims.
Import Proxy.

Lemma startsWith_app (p s : jstring) : startsWith (p ++ s) p = true.
Proof.
  induction p as [|x p IH]; cbn; [now destruct s|].
  now rewrite N.eqb_refl, IH.
Qed.

Lemma endsWith_app (s p : jstring) : endsWith (s ++ p) p = true.
Proof. unfold endsWith. rewrite rev_app_distr. apply startsWith_app. Qed.

(** C6, as the code has it.  When [startOpenRouterProxy] returns a handle,
    its [baseUrl] ends with [/anthropic]; its master key is the prefix
    [sk-litellm-proxy-] followed by the random draw printed in base 36
    without its first two characters, so it is not empty and shows the
    prefix; the key is the same whatever the options are, the upstream key
    among them; and it differs from the upstream key whenever the upstream
    key does not itself start with that prefix. *)
Theorem handle_of_a_ready_proxy options w st h :
  proxy_enabled st ->
  res (startOpenRouterProxy options w st) = Ok h ->
  endsWith (Handle.baseUrl h) (U "/anthropic") = true
  /\ Handle.masterKey h
     = master_key_prefix ++ slice_from 2 (math_random_36 w (randoms st))
  /\ Handle.masterKey h <> []
  /\ startsWith (Handle.masterKey h) master_key_prefix = true
  /\ (forall options' h',
        res (startOpenRouterProxy options' w st) = Ok h' ->
        Handle.masterKey h' = Handle.masterKey h)
  /\ (startsWith (apiKey options) master_key_prefix = false ->
      Handle.masterKey h <> apiKey options).
Proof.
  intros Hen Hres.
  destruct (startOpenRouterProxy_shape options w st Hen)
    as (n & port & dir & entries & probes & _ & _ & _ & Hok).
  destruct (Hok h Hres) as (_ & _ & ->). cbn [Handle.baseUrl Handle.masterKey].
  split; [|split; [|split; [|split; [|split]]]].
  - rewrite app_assoc. apply endsWith_app.
  - reflexivity.
  - discriminate.
  - apply startsWith_app.
  - intros options' h' Hres'.
    destruct (startOpenRouterProxy_shape options' w st Hen)
      as (n' & port' & dir' & entries' & probes' & _ & _ & _ & Hok').
    destruct (Hok' h' Hres') as (_ & _ & ->). reflexivity.
  - intros Hprefix Heq. fold master_key_prefix in Heq. rewrite <- Heq in Hprefix.
    rewrite startsWith_app in Hprefix. discriminate.
Qed.

Lemma handle_of_a_ready_proxy_witness :
  endsWith (Handle.baseUrl calm_handle) (U "/anthropic") = true
  /\ Handle.masterKey calm_handle <> apiKey plain_options.
Proof.
  destruct (handle_of_a_ready_proxy plain_options calm_world
              (initial_state empty_env) calm_handle)
    as (Hurl & _ & _ & _ & _ & Hdistinct).
  - reflexivity.
  - vm_compute. reflexivity.
  - split; [exact Hurl|]. apply Hdistinct. reflexivity.
Defined.

(** C6, as it is stated, fails on the distinctness: the master key is drawn
    without a look at the upstream key, so nothing keeps the two apart.
    With the upstream key [sk-litellm-proxy-i] and the draw [0.i] the proxy
    starts and the master key of the handle is the upstream key. *)
Lemma master_key_may_equal_the_upstream_key :
  proxy_enabled (initial_state empty_env)
  /\ res (startOpenRouterProxy clashing_options calm_world
            (initial_state empty_env)) = Ok calm_handle
  /\ Handle.masterKey calm_handle = apiKey clashing_options.
Proof.
  split; [reflexivity|]. split; [vm_compute; reflexivity|reflexivity].
Qed.

End HandleClaims.

(** ** The model set *)

Section ModelSet.
Import Proxy.

Lemma set_mem_In s x : set_mem s x = true <-> In x s.
Proof.
  induction s as [|y s IH]; cbn.
  - split; [discriminate|tauto].
  - rewrite orb_true_iff, IH, jeqb_eq. tauto.
Qed.

Lemma set_mem_app s t x : set_mem (s ++ t) x = set_mem s x || set_mem t x.
Proof.
  induction s as [|y s IH]; cbn; [reflexivity|].
  now rewrite IH, orb_assoc.
Qed.

Lemma filter_filter {A : Type} (f g : A -> bool) l :
  filter f (filter g l) = filter (fun x => g x && f x) l.
Proof.
  induction l as [|x l IH]; cbn; [reflexivity|].
  destruct (g x); cbn; [destruct (f x)|]; now rewrite IH.
Qed.

Lemma filter_comm {A : Type} (f g : A -> bool) l :
  filter f (filter g l) = filter g (filter f l).
Proof.
  rewrite !filter_filter. apply filter_ext. intros x. apply andb_comm.
Qed.

Lemma filter_drop_rejected (p : jstring -> bool) y l :
  p y = false ->
  filter p (filter (fun z => negb (jeqb y z)) l) = filter p l.
Proof.
  intros Hy. rewrite filter_filter. apply filter_ext_in. intros z _.
  destruct (jeqb y z) eqn:E; [|reflexivity].
  apply jeqb_eq in E. subst z. now rewrite Hy.
Qed.

Lemma keep_first_filter (p : jstring -> bool) l :
  keep_first (filter p l) = filter p (keep_first l).
Proof.
  induction l as [|y l IH]; cbn; [reflexivity|].
  destruct (p y) eqn:Hy; cbn.
  - rewrite IH. f_equal. apply filter_comm.
  - rewrite IH. symmetry. now apply filter_drop_rejected.
Qed.

Lemma fold_set_add l acc :
  fold_left set_add l acc
  = acc ++ keep_first (filter (fun y => negb (set_mem acc y)) l).
Proof.
  revert acc. induction l as [|x l IH]; intros acc; cbn.
  - now rewrite app_nil_r.
  - unfold set_add at 2. destruct (set_mem acc x) eqn:E; cbn.
    + apply IH.
    + rewrite IH, <- app_assoc. cbn. do 2 f_equal.
      rewrite <- keep_first_filter, filter_filter. f_equal.
      apply filter_ext. intros y.
      rewrite set_mem_app. cbn. rewrite orb_false_r, negb_orb.
      reflexivity.
Qed.

Lemma set_of_keep_first l : set_of l = keep_first l.
Proof.
  unfold set_of. rewrite fold_set_add. cbn.
  f_equal. clear. induction l as [|x l IH]; cbn; congruence.
Qed.

Lemma In_keep_first l x : In x (keep_first l) <-> In x l.
Proof.
  induction l as [|y l IH]; cbn; [tauto|].
  rewrite filter_In, IH, negb_true_iff, jeqb_neq.
  split; [tauto|].
  intros [->|H]; [now left|].
  destruct (jeqb y x) eqn:E.
  - apply jeqb_eq in E. now left.
  - apply jeqb_neq in E. now right.
Qed.

Lemma NoDup_keep_first l : NoDup (keep_first l).
Proof.
  induction l as [|y l IH]; cbn; constructor.
  - rewrite filter_In, negb_true_iff, jeqb_refl. intros [_ H]. discriminate.
  - now apply NoDup_filter.
Qed.

Lemma fold_set_add_extends l acc :
  exists rest, fold_left set_add l acc = acc ++ rest.
Proof. rewrite fold_set_add. eauto. Qed.

Lemma allModels_unfold options :
  allModels options
  = set_of (DEFAULT_MODELS ++ preferred_models options ++ additional_models options).
Proof.
  unfold allModels, set_of, preferred_models, additional_models.
  rewrite !fold_left_app.
  destruct (preferredModel options) as [[|c m]|]; reflexivity.
Qed.

(** C9.  The model list of the configuration has no identifier twice; it
    is the default list, then the preferred model when one is given, then
    the additional entries trimmed and without the blank ones, each
    identifier staying at its first place; the defaults are its head; and
    it is a function of the preferred model and the additional list alone,
    so that the same inputs give the same ordered list. *)
Theorem model_set_is_ordered_and_has_no_duplicates options :
  NoDup (allModels options)
  /\ allModels options
     = keep_first (DEFAULT_MODELS ++ preferred_models options
                     ++ additional_models options)
  /\ (exists rest, allModels options = DEFAULT_MODELS ++ rest)
  /\ (forall model,
        In model (allModels options) <->
        In model DEFAULT_MODELS \/ In model (preferred_models options)
        \/ In model (additional_models options))
  /\ (forall options',
        preferredModel options' = preferredModel options ->
        additionalModels options' = additionalModels options ->
        allModels options' = allModels options).
Proof.
  assert (E : allModels options
              = keep_first (DEFAULT_MODELS ++ preferred_models options
                              ++ additional_models options))
    by (rewrite allModels_unfold; apply set_of_keep_first).
  split; [rewrite E; apply NoDup_keep_first|].
  split; [exact E|]. split; [|split].
  - rewrite allModels_unfold. unfold set_of. rewrite fold_left_app.
    change (fold_left set_add DEFAULT_MODELS []) with (set_of DEFAULT_MODELS).
    replace (set_of DEFAULT_MODELS) with DEFAULT_MODELS
      by (vm_compute; reflexivity).
    apply fold_set_add_extends.
  - intros model. rewrite E, In_keep_first, !in_app_iff. tauto.
  - intros options' Hp Ha. unfold allModels. now rewrite Hp, Ha.
Qed.

End ModelSet.

Section DirectModeClaim.
Import Orchestrator.

Lemma configure_direct_run w st key merged :
  direct_mode st key ->
  directHeaders (env st) key = Ok merged ->
  res (configureOpenRouterEnvironment w st) = Ok tt
  /\ events (configureOpenRouterEnvironment w st) = []
  /\ proxyInitialized (final (configureOpenRouterEnvironment w st)) = true
  /\ getenv (env (final (configureOpenRouterEnvironment w st)))
       "ANTHROPIC_CUSTOM_HEADERS" = Some (serializeHeaders merged).
Proof.
  intros (Hinit & Huse & Hkey & Hne & Hdis) Hmerged.
  unfold configureOpenRouterEnvironment.
  rewrite (bind_ok (get_state_run w st)). cbv beta.
  rewrite Hinit, Huse. cbn [negb]. rewrite Hkey.
  destruct key as [|c key]; [congruence|].
  rewrite Hdis.
  destruct (truthy (getenv (env st) "ANTHROPIC_API_KEY")); cbn [negb].
  - rewrite (bind_ok (ret_run tt w st)).
    rewrite Hmerged, (bind_ok (lift_run (Ok merged) w st)).
    rewrite (bind_ok (modify_env_run _ w _)).
    rewrite (bind_ok (modify_env_run _ w _)).
    rewrite set_initialized_run. cbn. repeat split; reflexivity.
  - rewrite (bind_ok (modify_env_run _ w _)).
    rewrite Hmerged, (bind_ok (lift_run (Ok merged) w _)).
    rewrite (bind_ok (modify_env_run _ w _)).
    rewrite (bind_ok (modify_env_run _ w _)).
    rewrite set_initialized_run. cbn. repeat split; reflexivity.
Qed.

Lemma has_key_set_mem (V : Type) (m : list (jstring * V)) k :
  has_key m k = set_mem (keys m) k.
Proof.
  induction m as [|[k' v'] m IH]; [reflexivity|].
  cbn [has_key keys List.map fst set_mem]. now rewrite IH.
Qed.

Lemma keys_map_set_add (V : Type) (m : list (jstring * V)) k v :
  keys (map_set m k v) = set_add (keys m) k.
Proof. rewrite keys_map_set, has_key_set_mem. reflexivity. Qed.

Lemma keys_overlay_exact (V : Type) (extra m : list (jstring * V)) :
  keys (overlay m extra) = fold_left set_add (keys extra) (keys m).
Proof.
  revert m. induction extra as [|[k v] extra IH]; intros m; [reflexivity|].
  rewrite overlay_cons, IH, keys_map_set_add. reflexivity.
Qed.

Lemma direct_base_keys_exact e key custom :
  keys (direct_base e key custom)
  = fold_left set_add (injected_names e) (keys custom).
Proof.
  assert (La : toLowerCase (U "Authorization") = U "authorization")
    by (vm_compute; reflexivity).
  assert (Lr : toLowerCase (U "HTTP-Referer") = U "http-referer")
    by (vm_compute; reflexivity).
  assert (Lt : toLowerCase (U "X-Title") = U "x-title")
    by (vm_compute; reflexivity).
  unfold direct_base, injected_names, setHeader. rewrite La, Lr, Lt.
  destruct (option_map trim (getenv e "OPENROUTER_SITE_URL")) as [[|c r]|];
    destruct (option_map trim (getenv e "OPENROUTER_APP_TITLE")) as [[|d t]|];
    cbn [truthy app fold_left]; rewrite ?keys_map_set_add; reflexivity.
Qed.

Lemma direct_base_last_write e key custom k :
  map_get (direct_base e key custom) k
  = match injected_entry e key k with
    | Some entry => Some entry
    | None => map_get custom k
    end.
Proof.
  rewrite direct_base_get. unfold injected_entry.
  destruct (jeqb k (U "authorization")); [reflexivity|].
  destruct (jeqb k (U "http-referer")).
  { now destruct (option_map trim (getenv e "OPENROUTER_SITE_URL")) as [[|c r]|]. }
  destruct (jeqb k (U "x-title")); [|reflexivity].
  now destruct (option_map trim (getenv e "OPENROUTER_APP_TITLE")) as [[|c r]|].
Qed.

(** C5.  In the direct mode the header set written to
    [ANTHROPIC_CUSTOM_HEADERS] is the existing one, overlaid in turn with
    the injected [Authorization: Bearer <key>], the referer, the title and
    the extra headers, the last writer winning: [Authorization] is the one
    of the extra headers when they have one and the injected one otherwise,
    whatever the existing headers said; the existing names keep their
    places at the head of the list, so that an [Authorization] that was not
    there before comes after all of them; and an existing directive that
    none of the later writers names is kept as it is.  For every name the
    entry of the merged set is the one of its last writer (the extra
    headers, else the orchestrator, else the existing headers), and the
    names stand in the order of their first write, each once: these two
    determine the merged set and with it the text that is written. *)
Theorem direct_mode_merge_order w st key custom extra :
  direct_mode st key ->
  parseHeaderLines (getenv (env st) "ANTHROPIC_CUSTOM_HEADERS") = Ok custom ->
  parseHeaderLines (getenv (env st) "OPENROUTER_EXTRA_HEADERS") = Ok extra ->
  exists merged,
    directHeaders (env st) key = Ok merged
    /\ res (configureOpenRouterEnvironment w st) = Ok tt
    /\ getenv (env (final (configureOpenRouterEnvironment w st)))
         "ANTHROPIC_CUSTOM_HEADERS" = Some (serializeHeaders merged)
    /\ map_get merged (U "authorization")
       = Some match map_get extra (U "authorization") with
              | Some entry => entry
              | None => bearer key
              end
    /\ (exists added,
          keys merged = keys custom ++ added
          /\ (map_get custom (U "authorization") = None ->
              In (U "authorization") added))
    /\ (forall k entry,
          map_get custom k = Some entry ->
          k <> U "authorization" -> k <> U "http-referer" -> k <> U "x-title" ->
          map_get extra k = None ->
          map_get merged k = Some entry)
    /\ well_keyed merged
    /\ (forall k, map_get merged k = last_write (env st) key custom extra k)
    /\ keys merged = first_writes (env st) custom extra.
Proof.
  intros Hmode Hcustom Hextra.
  pose proof (orchestrator_parser_well_keyed _ _ Hcustom) as Wc.
  pose proof (orchestrator_parser_well_keyed _ _ Hextra) as We.
  assert (Hd : directHeaders (env st) key
               = Ok (overlay (direct_base (env st) key custom) extra)).
  { rewrite directHeaders_unfold, Hcustom, Hextra. reflexivity. }
  exists (overlay (direct_base (env st) key custom) extra).
  destruct (configure_direct_run w st key _ Hmode Hd) as (Hres & _ & _ & Henv).
  assert (Hauth :
    map_get (overlay (direct_base (env st) key custom) extra) (U "authorization")
    = Some match map_get extra (U "authorization") with
           | Some entry => entry
           | None => bearer key
           end).
  { rewrite map_get_overlay by apply We.
    destruct (map_get extra (U "authorization")); [reflexivity|].
    rewrite direct_base_get. reflexivity. }
  split; [exact Hd|]. split; [exact Hres|]. split; [exact Henv|].
  split; [exact Hauth|]. split; [|split; [|split; [|split]]].
  - destruct (direct_base_keys (env st) key custom) as [a1 H1].
    destruct (keys_overlay _ (direct_base (env st) key custom) extra) as [a2 H2].
    exists (a1 ++ a2). split.
    + now rewrite H2, H1, app_assoc.
    + intros Hnone. apply map_get_None in Hnone.
      apply map_get_Some_In in Hauth.
      rewrite H2, H1, <- app_assoc in Hauth.
      apply in_app_or in Hauth. destruct Hauth; [contradiction|assumption].
  - intros k entry Hk Na Nr Nt Hx.
    rewrite map_get_overlay by apply We. rewrite Hx.
    rewrite direct_base_get.
    apply jeqb_neq in Na, Nr, Nt. now rewrite Na, Nr, Nt.
  - apply well_keyed_overlay; [|exact We].
    now apply well_keyed_direct_base.
  - intros k. unfold last_write.
    rewrite map_get_overlay by apply We.
    destruct (map_get extra k); [reflexivity|].
    apply direct_base_last_write.
  - unfold first_writes.
    rewrite keys_overlay_exact, direct_base_keys_exact, <- fold_left_app.
    apply fold_set_add.
Qed.

Lemma direct_mode_merge_order_witness :
  getenv (env (final (configureOpenRouterEnvironment calm_world scenario_C)))
    "ANTHROPIC_CUSTOM_HEADERS"
  = Some (U "X-Test: Value" ++ [cLF] ++ U "Authorization: Bearer abc123")
  /\ getenv (env (final (configureOpenRouterEnvironment calm_world
                           test_extra_headers)))
       "ANTHROPIC_CUSTOM_HEADERS"
     = Some (U "Authorization: Bearer override" ++ [cLF]
               ++ U "HTTP-Referer: https://example.com" ++ [cLF]
               ++ U "X-Title: Example App" ++ [cLF]
               ++ U "X-Custom: One").
Proof.
  split.
  - destruct (direct_mode_merge_order calm_world scenario_C (U "abc123")
                [(U "x-test", {| name := U "X-Test"; value := U "Value" |})] [])
      as (merged & Hd & _ & Henv & _).
    + repeat split; try reflexivity. discriminate.
    + reflexivity.
    + reflexivity.
    + rewrite Henv. vm_compute in Hd. injection Hd as <-. reflexivity.
  - destruct (direct_mode_merge_order calm_world test_extra_headers
                (U "open-key") []
                [(U "x-custom", {| name := U "X-Custom"; value := U "One" |});
                 (U "authorization",
                  {| name := U "Authorization";
                     value := U "Bearer override" |})])
      as (merged & Hd & _ & Henv & _).
    + repeat split; try reflexivity. discriminate.
    + reflexivity.
    + vm_compute. reflexivity.
    + rewrite Henv. vm_compute in Hd. injection Hd as <-. reflexivity.
Defined.

End DirectModeClaim.

(** ** [JSON.parse] has all the fuel it needs *)

Section JsonFuel.

Lemma skip_ws_length s : List.length (skip_ws s) <= List.length s.
Proof.
  induction s as [|c s IH]; cbn; [lia|].
  destruct (is_json_ws c); cbn; lia.
Qed.

Lemma parse_chars_length s str r :
  parse_chars s = Some (str, r) -> List.length r < List.length s.
Proof.
  remember (List.length s) as n eqn:Hn.
  revert s str r Hn. induction n as [n IH] using lt_wf_ind.
  intros s str r Hn. destruct s as [|c rest]; cbn [parse_chars]; [discriminate|].
  cbn in Hn.
  destruct (N.eqb c cQUOTE); [intros [= <- <-]; lia|].
  destruct (c <? 32)%N; [discriminate|].
  destruct (N.eqb c cBACKSLASH).
  - destruct rest as [|e rest1]; [discriminate|].
    destruct (N.eqb e 117).
    + destruct rest1 as [|h1 [|h2 [|h3 [|h4 rest2]]]]; try discriminate.
      destruct (hex4 h1 h2 h3 h4); [|discriminate].
      destruct (parse_chars rest2) as [[str' r']|] eqn:E; [|discriminate].
      intros [= <- <-].
      assert (List.length r' < List.length rest2)
        by (eapply (IH (List.length rest2)); [cbn in Hn; lia|reflexivity|exact E]).
      cbn in Hn. lia.
    + destruct (simple_escape e); [|discriminate].
      destruct (parse_chars rest1) as [[str' r']|] eqn:E; [|discriminate].
      intros [= <- <-].
      assert (List.length r' < List.length rest1)
        by (eapply (IH (List.length rest1)); [cbn in Hn; lia|reflexivity|exact E]).
      cbn in Hn. lia.
  - destruct (parse_chars rest) as [[str' r']|] eqn:E; [|discriminate].
    intros [= <- <-].
    assert (List.length r' < List.length rest)
      by (eapply (IH (List.length rest)); [lia|reflexivity|exact E]).
    lia.
Qed.

Lemma take_digits_length s :
  List.length (snd (take_digits s)) <= List.length s.
Proof.
  induction s as [|c s IH]; cbn; [lia|].
  destruct (is_digit c); cbn; [|lia].
  destruct (take_digits s); cbn in *. lia.
Qed.

Lemma parse_int_length s i r :
  parse_int s = Some (i, r) -> List.length r < List.length s.
Proof.
  destruct s as [|c rest]; cbn [parse_int]; [discriminate|].
  destruct (N.eqb c 48); [intros [= <- <-]; cbn; lia|].
  destruct (is_digit c) eqn:D; [|discriminate].
  cbn [take_digits]. rewrite D.
  pose proof (take_digits_length rest) as L.
  destruct (take_digits rest) as [d r']. intros [= <- <-]. cbn in *. lia.
Qed.

Lemma parse_frac_length s f r :
  parse_frac s = Some (f, r) -> List.length r <= List.length s.
Proof.
  destruct s as [|c rest]; cbn [parse_frac]; [intros [= <- <-]; cbn; lia|].
  destruct (N.eqb c 46); [|intros [= <- <-]; cbn; lia].
  pose proof (take_digits_length rest) as L.
  destruct (take_digits rest) as [[|d0 d] r']; [discriminate|].
  intros [= <- <-]. cbn in *. lia.
Qed.

Lemma parse_exp_length s e r :
  parse_exp s = Some (e, r) -> List.length r <= List.length s.
Proof.
  destruct s as [|c rest]; cbn [parse_exp]; [intros [= <- <-]; cbn; lia|].
  destruct (N.eqb c 101 || N.eqb c 69); [|intros [= <- <-]; cbn; lia].
  assert (H : forall sign rest1,
             List.length rest1 <= List.length rest ->
             match take_digits rest1 with
             | ([], _) => None
             | (d, r0) => Some (c :: sign ++ d, r0)
             end = Some (e, r) ->
             List.length r <= List.length (c :: rest)).
  { intros sign rest1 Hle.
    pose proof (take_digits_length rest1) as L.
    destruct (take_digits rest1) as [[|d0 d] r']; [discriminate|].
    intros [= <- <-]. cbn in *. lia. }
  destruct rest as [|g r0]; [apply H; cbn; lia|].
  destruct (N.eqb g 43 || N.eqb g 45); apply H; cbn; lia.
Qed.

Lemma parse_number_length s lexeme r :
  parse_number s = Some (lexeme, r) -> List.length r < List.length s.
Proof.
  unfold parse_number.
  assert (H : forall sign s1,
             List.length s1 <= List.length s ->
             match parse_int s1 with
             | Some (i, s2) =>
                 match parse_frac s2 with
                 | Some (f, s3) =>
                     match parse_exp s3 with
                     | Some (e, s4) => Some (sign ++ i ++ f ++ e, s4)
                     | None => None
                     end
                 | None => None
                 end
             | None => None
             end = Some (lexeme, r) ->
             List.length r < List.length s).
  { intros sign s1 Hle.
    destruct (parse_int s1) as [[i s2]|] eqn:Ei; [|discriminate].
    destruct (parse_frac s2) as [[f s3]|] eqn:Ef; [|discriminate].
    destruct (parse_exp s3) as [[e s4]|] eqn:Ee; [|discriminate].
    intros [= <- <-].
    apply parse_int_length in Ei. apply parse_frac_length in Ef.
    apply parse_exp_length in Ee. lia. }
  destruct s as [|c rest]; [apply H; lia|].
  destruct (N.eqb c cMINUS); apply H; cbn; lia.
Qed.

Lemma startsWith_length s p :
  startsWith s p = true -> List.length p <= List.length s.
Proof.
  revert s. induction p as [|x p IH]; intros s; cbn [List.length]; [lia|].
  destruct s as [|y s]; cbn [startsWith List.length]; [discriminate|].
  rewrite andb_true_iff. intros [_ H]. apply IH in H. lia.
Qed.

Lemma skipn_shorter (n : nat) (s : jstring) :
  0 < n -> n <= List.length s -> List.length (skipn n s) < List.length s.
Proof. intros Hn Hs. rewrite length_skipn. lia. Qed.

Lemma parse_literal_length s v r :
  parse_literal s = Some (v, r) -> List.length r < List.length s.
Proof.
  unfold parse_literal.
  destruct (startsWith s (U "true")) eqn:Et.
  { intros [= <- <-]. apply startsWith_length in Et.
    apply (skipn_shorter 4 s); [lia|exact Et]. }
  destruct (startsWith s (U "false")) eqn:Ef.
  { intros [= <- <-]. apply startsWith_length in Ef.
    apply (skipn_shorter 5 s); [lia|exact Ef]. }
  destruct (startsWith s (U "null")) eqn:En.
  { intros [= <- <-]. apply startsWith_length in En.
    apply (skipn_shorter 4 s); [lia|exact En]. }
  destruct (parse_number s) as [[lexeme r']|] eqn:E; [|discriminate].
  intros [= <- <-]. now apply parse_number_length in E.
Qed.

End JsonFuel.

Section JsonDescent.

Ltac ws_length s :=
  let H := fresh "Hws" in
  pose proof (skip_ws_length s) as H.

(** A value, the rest of an array and the rest of an object are never
    parsed without a character being consumed. *)
Lemma parse_consumes (fuel : nat) :
  (forall s v r, parse_value fuel s = Parsed v r ->
                 List.length r < List.length s)
  /\ (forall acc s v r, parse_elements fuel acc s = Parsed v r ->
                        List.length r < List.length s)
  /\ (forall acc s v r, parse_members fuel acc s = Parsed v r ->
                        List.length r < List.length s).
Proof.
  induction fuel as [|f (IHv & IHe & IHm)].
  - repeat split; intros; discriminate.
  - repeat split.
    + intros s v r. cbn [parse_value].
      ws_length s. destruct (skip_ws s) as [|c rest]; [discriminate|].
      cbn [List.length] in Hws.
      destruct (N.eqb c cLBRACE).
      { ws_length rest. destruct (skip_ws rest) as [|c' rest']; [discriminate|].
        cbn [List.length] in *.
        destruct (N.eqb c' cRBRACE).
        - intros [= <- <-]. lia.
        - intros H. apply IHm in H. lia. }
      destruct (N.eqb c cLBRACKET).
      { ws_length rest. destruct (skip_ws rest) as [|c' rest']; [discriminate|].
        cbn [List.length] in *.
        destruct (N.eqb c' cRBRACKET).
        - intros [= <- <-]. lia.
        - intros H. apply IHe in H. lia. }
      destruct (N.eqb c cQUOTE).
      { destruct (parse_chars rest) as [[str r']|] eqn:E; [|discriminate].
        intros [= <- <-]. apply parse_chars_length in E. lia. }
      destruct (parse_literal (c :: rest)) as [[v' r']|] eqn:E; [|discriminate].
      intros [= <- <-]. apply parse_literal_length in E. cbn in E. lia.
    + intros acc s v r. cbn [parse_elements].
      destruct (parse_value f s) as [v1 r1| |] eqn:E1; try discriminate.
      apply IHv in E1.
      ws_length r1. destruct (skip_ws r1) as [|c r']; [discriminate|].
      cbn [List.length] in *.
      destruct (N.eqb c cCOMMA).
      { intros H. apply IHe in H. lia. }
      destruct (N.eqb c cRBRACKET); [|discriminate].
      intros [= <- <-]. lia.
    + intros acc s v r. cbn [parse_members].
      ws_length s. destruct (skip_ws s) as [|c r0]; [discriminate|].
      cbn [List.length] in *.
      destruct (N.eqb c cQUOTE); [|discriminate].
      destruct (parse_chars r0) as [[key r1]|] eqn:Ek; [|discriminate].
      apply parse_chars_length in Ek.
      ws_length r1. destruct (skip_ws r1) as [|c1 r2]; [discriminate|].
      cbn [List.length] in *.
      destruct (N.eqb c1 cCOLON); [|discriminate].
      destruct (parse_value f r2) as [v3 r3| |] eqn:E3; try discriminate.
      apply IHv in E3.
      ws_length r3. destruct (skip_ws r3) as [|c3 r4]; [discriminate|].
      cbn [List.length] in *.
      destruct (N.eqb c3 cCOMMA).
      { intros H. apply IHm in H. lia. }
      destruct (N.eqb c3 cRBRACE); [|discriminate].
      intros [= <- <-]. lia.
Qed.

(** Twice the length of the text, and one or two units more, is fuel
    enough. *)
Lemma parse_enough_fuel (fuel : nat) :
  (forall s, 2 * List.length s + 1 <= fuel ->
             parse_value fuel s <> OutOfFuel)
  /\ (forall acc s, 2 * List.length s + 2 <= fuel ->
                    parse_elements fuel acc s <> OutOfFuel)
  /\ (forall acc s, 2 * List.length s + 2 <= fuel ->
                    parse_members fuel acc s <> OutOfFuel).
Proof.
  induction fuel as [|f (IHv & IHe & IHm)].
  - repeat split; intros; lia.
  - repeat split.
    + intros s Hf. cbn [parse_value].
      ws_length s. destruct (skip_ws s) as [|c rest]; [discriminate|].
      cbn [List.length] in Hws.
      destruct (N.eqb c cLBRACE).
      { ws_length rest. destruct (skip_ws rest) as [|c' rest']; [discriminate|].
        destruct (N.eqb c' cRBRACE); [discriminate|].
        apply IHm. lia. }
      destruct (N.eqb c cLBRACKET).
      { ws_length rest. destruct (skip_ws rest) as [|c' rest']; [discriminate|].
        destruct (N.eqb c' cRBRACKET); [discriminate|].
        apply IHe. lia. }
      destruct (N.eqb c cQUOTE).
      { destruct (parse_chars rest) as [[str r']|]; discriminate. }
      destruct (parse_literal (c :: rest)) as [[v' r']|]; discriminate.
    + intros acc s Hf. cbn [parse_elements].
      pose proof (IHv s ltac:(lia)) as Hv.
      destruct (parse_value f s) as [v1 r1| |] eqn:E1;
        [|discriminate|contradiction].
      apply (proj1 (parse_consumes f)) in E1.
      ws_length r1. destruct (skip_ws r1) as [|c r']; [discriminate|].
      cbn [List.length] in *.
      destruct (N.eqb c cCOMMA); [apply IHe; lia|].
      destruct (N.eqb c cRBRACKET); discriminate.
    + intros acc s Hf. cbn [parse_members].
      ws_length s. destruct (skip_ws s) as [|c r0]; [discriminate|].
      cbn [List.length] in *.
      destruct (N.eqb c cQUOTE); [|discriminate].
      destruct (parse_chars r0) as [[key r1]|] eqn:Ek; [|discriminate].
      apply parse_chars_length in Ek.
      ws_length r1. destruct (skip_ws r1) as [|c1 r2]; [discriminate|].
      cbn [List.length] in *.
      destruct (N.eqb c1 cCOLON); [|discriminate].
      pose proof (IHv r2 ltac:(lia)) as Hv.
      destruct (parse_value f r2) as [v3 r3| |] eqn:E3;
        [|discriminate|contradiction].
      apply (proj1 (parse_consumes f)) in E3.
      ws_length r3. destruct (skip_ws r3) as [|c3 r4]; [discriminate|].
      cbn [List.length] in *.
      destruct (N.eqb c3 cCOMMA); [apply IHm; lia|].
      destruct (N.eqb c3 cRBRACE); discriminate.
Qed.

(** [JSON_parse] never stops for want of fuel: it throws only on a text
    that is malformed or goes on after its value. *)
Lemma parse_value_fuel (text : jstring) :
  parse_value (2 * List.length text + 1) text <> OutOfFuel.
Proof. apply (proj1 (parse_enough_fuel _)). lia. Qed.

Lemma JSON_parse_throws (text : jstring) e :
  JSON_parse text = Throw e ->
  e = SyntaxError
  /\ (parse_value (2 * List.length text + 1) text = Malformed
      \/ exists v r, parse_value (2 * List.length text + 1) text = Parsed v r
                     /\ skip_ws r <> []).
Proof.
  unfold JSON_parse. pose proof (parse_value_fuel text) as Hfuel.
  destruct (parse_value (2 * List.length text + 1) text) as [v r| |];
    [|intros [= <-]; auto|contradiction].
  destruct (skip_ws r) as [|c r'] eqn:E; cbn; [discriminate|].
  intros [= <-]. split; [reflexivity|]. right. exists v, r.
  split; [reflexivity|]. rewrite E. discriminate.
Qed.

End JsonDescent.

(** ** The model on the test suite of the repository *)

Section RepositoryTests.

Example configures_default_base_url_and_headers :
  final_env test_default "ANTHROPIC_BASE_URL" = Some (U "https://openrouter.ai/api/v1")
  /\ final_env test_default "ANTHROPIC_API_KEY" = Some (U "test-key")
  /\ final_env test_default "ANTHROPIC_CUSTOM_HEADERS"
     = Some (U "Authorization: Bearer test-key").
Proof. repeat split; vm_compute; reflexivity. Qed.

Example supports_json_formatted_custom_headers :
  final_env test_json_headers "ANTHROPIC_CUSTOM_HEADERS"
  = Some (U "X-Test: Value" ++ [cLF] ++ U "Authorization: Bearer json-key").
Proof. vm_compute. reflexivity. Qed.

Example applies_referer_title_and_extra_headers :
  final_env test_extra_headers "ANTHROPIC_CUSTOM_HEADERS"
  = Some (U "Authorization: Bearer override" ++ [cLF]
            ++ U "HTTP-Referer: https://example.com" ++ [cLF]
            ++ U "X-Title: Example App" ++ [cLF]
            ++ U "X-Custom: One").
Proof. vm_compute. reflexivity. Qed.

Example skips_configuration_when_the_flag_is_disabled :
  final_env test_flag_disabled "ANTHROPIC_BASE_URL" = None
  /\ final_env test_flag_disabled "ANTHROPIC_CUSTOM_HEADERS" = None
  /\ events (Orchestrator.configureOpenRouterEnvironment calm_world
               test_flag_disabled) = [].
Proof. repeat split; vm_compute; reflexivity. Qed.

Example extracts_the_model_from_the_arguments :
  Orchestrator.extractModelFromClaudeArgs
    (Some (U "--max-turns 3 --model   anthropic/claude-3.5-haiku --verbose"))
  = Some (U "anthropic/claude-3.5-haiku")
  /\ Orchestrator.extractModelFromClaudeArgs (Some (U "--model ")) = None
  /\ Orchestrator.parseAdditionalModels (Some (U " a/b ,, c/d" ++ [cLF] ++ U "e/f "))
     = [U "a/b"; U "c/d"; U "e/f"].
Proof. repeat split; vm_compute; reflexivity. Qed.

Example renders_numbers_in_decimal :
  number_toString 0 = U "0" /\ number_toString 40123 = U "40123"
  /\ number_toString 65535 = U "65535".
Proof. repeat split; vm_compute; reflexivity. Qed.

End RepositoryTests.

(** ** What the supervisor leaves untouched *)

Section Frames.
Import Proxy.

Lemma keeps_bind {A B : Type} (c : M A) (k : A -> M B) :
  keeps_process c -> (forall a, keeps_process (k a)) -> keeps_process (bind c k).
Proof.
  intros Hc Hk w st. unfold bind.
  destruct (Hc w st) as [He Hp].
  destruct (c w st) as [[a|e] st1 ev1]; cbn in *; [|now split].
  destruct (Hk a w st1) as [He' Hp']. split; congruence.
Qed.

Lemma keeps_ret {A : Type} (a : A) : keeps_process (ret a).
Proof. intros w st. now split. Qed.

Lemma keeps_throw {A : Type} e : keeps_process (@throw A e).
Proof. intros w st. now split. Qed.

Lemma keeps_emit e : keeps_process (emit e).
Proof. intros w st. now split. Qed.

Lemma keeps_lift {A : Type} (r : result A) : keeps_process (lift r).
Proof. intros w st. now split. Qed.

Lemma keeps_tryListen retries : keeps_process (tryListen retries).
Proof.
  intros w st. destruct (tryListen_keeps_env retries w st) as (He & _ & _ & Hp).
  now split.
Qed.

Lemma keeps_mkdtemp prefix : keeps_process (mkdtemp prefix).
Proof. intros w st. now split. Qed.

Lemma keeps_random : keeps_process Math_random_36.
Proof. intros w st. now split. Qed.

Lemma keeps_writeFile path content : keeps_process (writeFile path content).
Proof. intros w st. now split. Qed.

Lemma keeps_install : keeps_process installProxyDependency.
Proof. intros w st. rewrite installProxyDependency_run. now split. Qed.

Lemma keeps_waitForProxy port : keeps_process (waitForProxy port).
Proof.
  intros w st. rewrite waitForProxy_run.
  destruct (first_ready _ _ _); now split.
Qed.

Lemma keeps_startOpenRouterProxy options :
  keeps_process (startOpenRouterProxy options).
Proof.
  unfold startOpenRouterProxy.
  apply keeps_bind; [intros w st; now split|]. intros st0.
  destruct (env_is _ _ _); [apply keeps_throw|].
  apply keeps_bind; [intros w st; now split|]. intros w0.
  apply keeps_bind; [apply keeps_tryListen|]. intros port.
  apply keeps_bind; [apply keeps_mkdtemp|]. intros workingDir.
  apply keeps_bind; [apply keeps_random|]. intros random.
  apply keeps_bind; [apply keeps_lift|]. intros entries.
  apply keeps_bind; [apply keeps_writeFile|]. intros _.
  apply keeps_bind; [apply keeps_install|]. intros _.
  apply keeps_bind; [apply keeps_emit|]. intros _.
  apply keeps_bind; [apply keeps_waitForProxy|]. intros _.
  apply keeps_ret.
Qed.

End Frames.

(** ** How far a start gets *)

Section StartProgress.
Import Proxy.

Ltac absurd_eq := let Hc := fresh "Hc" in intros Hc; discriminate Hc.

Ltac stopped_early :=
  split; [reflexivity|];
  split; [apply Nat.leb_le; reflexivity|];
  split; [intros _; split; [reflexivity|eexists; reflexivity]|];
  split; [absurd_eq|].

(** The trace of a start with the step at which it stopped: [n < 5] steps
    of [setup_steps] mean that the start threw there; the fifth step, the
    spawning of the proxy, is only reached after an installation that ended
    with code 0, and from there on the start throws what the probe throws. *)
Lemma startOpenRouterProxy_progress options w st :
  proxy_enabled st ->
  exists n port workingDir entries probes st5,
    events (startOpenRouterProxy options w st)
    = events (getAvailablePort w st)
        ++ firstn n (setup_steps w options port workingDir
                       (math_random_36 w (randoms st)) entries)
        ++ probes
    /\ n <= 5
    /\ (n < 5 -> probes = []
                 /\ exists e, res (startOpenRouterProxy options w st) = Throw e)
    /\ (n = 5 ->
        install_outcome w = ChildExit (Some 0%N)
        /\ probes = events (waitForProxy port w st5)
        /\ forall e, res (startOpenRouterProxy options w st) = Throw e ->
                     res (waitForProxy port w st5) = Throw e)
    /\ (n = 4 ->
        exists e, res (installProxyDependency w st) = Throw e
                  /\ res (startOpenRouterProxy options w st) = Throw e)
    /\ (n = 0 ->
        exists e, res (getAvailablePort w st) = Throw e
                  /\ res (startOpenRouterProxy options w st) = Throw e).
Proof.
  intros H. unfold proxy_enabled in H.
  pose proof (tryListen_keeps_env 5 w st) as K. fold getAvailablePort in K.
  unfold startOpenRouterProxy.
  rewrite (bind_ok (get_state_run w st)). cbv beta. rewrite H.
  rewrite (bind_ok (ask_run w st)).
  destruct (getAvailablePort w st) as [[port|e] st1 ev1] eqn:E1.
  2:{ rewrite (bind_throw E1).
      exists 0, 0%N, [], [], [], st. cbn [prepend app events res]. rewrite app_nil_r. stopped_early.
      split; [absurd_eq|]. intros _. eexists. split; reflexivity. }
  rewrite (bind_ok E1).
  cbn [final randoms] in K. destruct K as (_ & K & _).
  pose proof (mkdtemp_run (path_join (os_tmpdir w) (U "litellm-openrouter-")) w st1) as R2.
  destruct (mkdtemp_outcome w (path_join (os_tmpdir w) (U "litellm-openrouter-")))
    as [dir|e] eqn:E2.
  2:{ rewrite (bind_throw R2).
      exists 1, port, [], [], [], st. cbn [prepend app events res]. stopped_early. split; absurd_eq. }
  rewrite (bind_ok R2). clear R2.
  rewrite (bind_ok (Math_random_36_run w st1)). rewrite K.
  set (random := math_random_36 w (randoms st)).
  pose proof (lift_run (headerEntries options) w (after_random st1)) as R3.
  destruct (headerEntries options) as [entries|e] eqn:E3.
  2:{ rewrite (bind_throw R3).
      exists 2, port, dir, [], [], st. cbn [prepend app events res]. stopped_early. split; absurd_eq. }
  rewrite (bind_ok R3). clear R3.
  set (configPath := path_join dir (U "config.yaml")).
  set (content := config options entries (U "sk-litellm-proxy-" ++ slice_from 2 random)).
  pose proof (writeFile_run configPath content w (after_random st1)) as R4.
  destruct (writeFile_outcome w configPath content) as [[]|e] eqn:E4.
  2:{ rewrite (bind_throw R4).
      exists 3, port, dir, entries, [], st. cbn [prepend app events res]. stopped_early. split; absurd_eq. }
  rewrite (bind_ok R4). clear R4.
  pose proof (installProxyDependency_run w (after_random st1)) as R5.
  pose proof (installProxyDependency_run w st) as R5'.
  assert (Hinstall :
    (exists e, installProxyDependency w (after_random st1) =
       {| res := Throw e; final := after_random st1;
          events := [EvSpawn PipInstall (U "python3") installArgs] |}
       /\ res (installProxyDependency w st) = Throw e)
    \/ (installProxyDependency w (after_random st1) =
         {| res := Ok tt; final := after_random st1;
            events := [EvSpawn PipInstall (U "python3") installArgs] |}
        /\ install_outcome w = ChildExit (Some 0%N))).
  { rewrite R5, R5'. destruct (install_outcome w) as [e|[[|p]|]];
      [left|right|left|left]; eauto. }
  clear R5 R5'. destruct Hinstall as [(e & R5 & R5')|[R5 Hzero]].
  { rewrite (bind_throw R5).
    exists 4, port, dir, entries, [], st. cbn [prepend app events res]. stopped_early.
    split; [|absurd_eq]. intros _. exists e. split; [exact R5'|reflexivity]. }
  rewrite (bind_ok R5). clear R5.
  rewrite (bind_ok (spawn_run _ _ _ w (after_random st1))).
  destruct (waitForProxy port w (after_random st1)) as [[[]|e] st6 ev6] eqn:E6.
  - rewrite (bind_ok E6).
    exists 5, port, dir, entries, ev6, (after_random st1).
    rewrite ret_run, E6. cbn [prepend app events res].
    rewrite app_nil_r.
    split; [reflexivity|]. split; [apply Nat.leb_le; reflexivity|].
    split; [intros Hc; exfalso; exact (Nat.lt_irrefl 5 Hc)|].
    split; [|split; absurd_eq].
    intros _. split; [exact Hzero|]. split; [reflexivity|].
    intros e0 He0. discriminate He0.
  - rewrite (bind_throw E6).
    exists 5, port, dir, entries, ev6, (after_random st1).
    rewrite E6. cbn [prepend app events res].
    split; [reflexivity|]. split; [apply Nat.leb_le; reflexivity|].
    split; [intros Hc; exfalso; exact (Nat.lt_irrefl 5 Hc)|].
    split; [|split; absurd_eq].
    intros _. split; [exact Hzero|]. split; [reflexivity|].
    intros e0 He0. injection He0 as <-. reflexivity.
Qed.

End StartProgress.

(** ** The supervisor at its edges *)

Section SupervisorEdges.
Import Proxy.

Lemma filter_none {A : Type} (P : A -> bool) l :
  existsb P l = false -> filter P l = [].
Proof.
  induction l as [|x l IH]; cbn; [reflexivity|].
  rewrite orb_false_iff. intros [-> H]. now apply IH.
Qed.

Lemma allocation_is_no_kill e : is_allocation e = true -> is_kill e = false.
Proof. now destruct e. Qed.

Lemma probe_is_no_kill e : is_probe e = true -> is_kill e = false.
Proof. now destruct e. Qed.

Lemma waitForProxy_throws_timeout port w st e :
  res (waitForProxy port w st) = Throw e -> e = timeout_error.
Proof.
  rewrite waitForProxy_run. destruct (first_ready _ _ _); cbn; congruence.
Qed.

(** X1.  With [CLAUDE_CODE_OPENROUTER_DISABLE_PROXY] set to 1,
    [startOpenRouterProxy] throws at once: no socket is bound, no directory
    or file is made, nothing is spawned, and the state is as it was. *)
Theorem start_refuses_when_disabled options w st :
  env_is (env st) "CLAUDE_CODE_OPENROUTER_DISABLE_PROXY" (U "1") = true ->
  startOpenRouterProxy options w st
  = {| res := Throw disabled_error; final := st; events := [] |}.
Proof.
  intros H. unfold startOpenRouterProxy.
  rewrite (bind_ok (get_state_run w st)). cbv beta. rewrite H. reflexivity.
Qed.

Lemma start_refuses_when_disabled_witness :
  startOpenRouterProxy plain_options calm_world disabled_state
  = {| res := Throw disabled_error; final := disabled_state; events := [] |}.
Proof.
  apply (start_refuses_when_disabled plain_options calm_world disabled_state).
  reflexivity.
Defined.

(** X2.  When the installation of the dependency does not end with code 0
    (it could not be spawned, ended with another code or was ended by a
    signal), [startOpenRouterProxy] throws; the installation is not tried
    again, the proxy is never spawned and the health endpoint never probed;
    and a start that got as far as the installation throws the error
    of [installProxyDependency]. *)
Theorem failed_install_stops_the_start options w st :
  proxy_enabled st ->
  install_outcome w <> ChildExit (Some 0%N) ->
  (exists e, res (startOpenRouterProxy options w st) = Throw e)
  /\ List.length (filter is_install (events (startOpenRouterProxy options w st))) <= 1
  /\ existsb is_proxy_spawn (events (startOpenRouterProxy options w st)) = false
  /\ existsb is_fetch (events (startOpenRouterProxy options w st)) = false
  /\ (existsb is_install (events (startOpenRouterProxy options w st)) = true ->
      exists e, res (installProxyDependency w st) = Throw e
                /\ res (startOpenRouterProxy options w st) = Throw e).
Proof.
  intros Hen Hfail.
  destruct (startOpenRouterProxy_progress options w st Hen)
    as (n & port & dir & entries & probes & st5 & Etr & Hn & Hlt & H5 & H4 & _).
  assert (n < 5) as Hn5.
  { destruct (Nat.eq_dec n 5) as [->|]; [|lia].
    destruct (H5 eq_refl) as [Hz _]. contradiction. }
  destruct (Hlt Hn5) as [-> Hthrow]. clear H5 Hlt.
  pose proof (tryListen_events_are_allocation 5 w st) as Halloc.
  fold getAvailablePort in Halloc.
  rewrite Etr, app_nil_r. clear Etr.
  split; [exact Hthrow|].
  rewrite filter_app, !existsb_app,
    (filter_none _ _ (none_of _ _ _ allocation_is_no_install Halloc)),
    (none_of _ _ _ allocation_is_no_install Halloc),
    (none_of _ _ _ allocation_is_no_proxy_spawn Halloc),
    (none_of _ _ _ allocation_is_no_fetch Halloc).
  cbn [app orb]. unfold setup_steps.
  do 5 (destruct n as [|n];
        [cbn [firstn filter existsb is_install is_proxy_spawn is_fetch
               List.length orb];
         repeat split; try lia; try discriminate; intros; auto|]).
  lia.
Qed.

Lemma failed_install_stops_the_start_witness :
  existsb is_proxy_spawn
    (events (startOpenRouterProxy plain_options no_pip_world
               (initial_state empty_env))) = false.
Proof.
  apply (failed_install_stops_the_start plain_options no_pip_world
           (initial_state empty_env)).
  - reflexivity.
  - discriminate.
Defined.

(** X3.  A start that probed the health endpoint and throws, throws the
    timeout error of the probe; by then the proxy was spawned, and the
    start does not kill it: it is left running. *)
Theorem timed_out_proxy_is_left_running options w st e :
  proxy_enabled st ->
  existsb is_fetch (events (startOpenRouterProxy options w st)) = true ->
  res (startOpenRouterProxy options w st) = Throw e ->
  e = timeout_error
  /\ existsb is_proxy_spawn (events (startOpenRouterProxy options w st)) = true
  /\ existsb is_kill (events (startOpenRouterProxy options w st)) = false.
Proof.
  intros Hen Hfetch Hres.
  destruct (startOpenRouterProxy_progress options w st Hen)
    as (n & port & dir & entries & probes & st5 & Etr & Hn & Hlt & H5 & _).
  pose proof (tryListen_events_are_allocation 5 w st) as Halloc.
  fold getAvailablePort in Halloc.
  rewrite Etr in Hfetch |- *. clear Etr.
  rewrite !existsb_app,
    (none_of _ _ _ allocation_is_no_fetch Halloc) in Hfetch.
  rewrite !existsb_app,
    (none_of _ _ _ allocation_is_no_proxy_spawn Halloc),
    (none_of _ _ _ allocation_is_no_kill Halloc).
  cbn [orb] in Hfetch |- *.
  destruct (Nat.eq_dec n 5) as [->|Hne].
  - destruct (H5 eq_refl) as (_ & -> & Hthrow).
    split; [exact (waitForProxy_throws_timeout _ _ _ _ (Hthrow e Hres))|].
    split; [reflexivity|].
    unfold setup_steps. cbn [firstn existsb is_kill orb].
    exact (none_of _ _ _ probe_is_no_kill
             (waitForProxy_events_are_probes port w st5)).
  - destruct (Hlt ltac:(lia)) as [-> _]. exfalso.
    rewrite orb_false_r in Hfetch. unfold setup_steps in Hfetch.
    do 5 (destruct n as [|n];
          [cbn [firstn existsb is_fetch orb] in Hfetch; discriminate Hfetch|]).
    lia.
Qed.

Lemma timed_out_proxy_is_left_running_witness :
  existsb is_kill
    (events (startOpenRouterProxy plain_options unhealthy_world
               (initial_state empty_env))) = false.
Proof.
  apply (timed_out_proxy_is_left_running plain_options unhealthy_world
           (initial_state empty_env) timeout_error).
  - reflexivity.
  - vm_compute. reflexivity.
  - vm_compute. reflexivity.
Defined.

(** X4.  When a bind succeeds after [k <= 5] failures but the server has
    no usable address (none, a pipe path, or port 0), [getAvailablePort]
    closes the socket and rejects with [Failed to determine proxy port]; it
    does not bind again. *)
Theorem unusable_address_is_not_retried (w : World) (st : State) k address :
  k <= 5 ->
  (forall i, i < k ->
     exists e, listen_outcome w (listens st + i) = ListenError e) ->
  listen_outcome w (listens st + k) = Listening address ->
  unusable address = true ->
  getAvailablePort w st
  = {| res := Throw port_error; final := after_listens st (S k);
       events := failed_binds k ++ bind_attempt |}.
Proof.
  intros Hk Hfail Hok Hbad. unfold getAvailablePort.
  rewrite (tryListen_listening 5 k w st address Hk Hfail Hok).
  destruct address as [| |port]; try reflexivity.
  cbn in Hbad. now rewrite Hbad.
Qed.

Lemma unusable_address_is_not_retried_witness :
  getAvailablePort pipe_world (initial_state empty_env)
  = {| res := Throw port_error;
       final := after_listens (initial_state empty_env) 1;
       events := failed_binds 0 ++ bind_attempt |}.
Proof.
  apply (unusable_address_is_not_retried pipe_world (initial_state empty_env)
           0 (AddrPath (U "/tmp/sock"))).
  - lia.
  - intros i Hi. lia.
  - reflexivity.
  - reflexivity.
Defined.

End SupervisorEdges.

(** ** The orchestrator, branch by branch *)

Section OrchestratorBranches.
Import Orchestrator.

Lemma configure_noop_initialized w st :
  proxyInitialized st = true ->
  configureOpenRouterEnvironment w st
  = {| res := Ok tt; final := st; events := [] |}.
Proof.
  intros H. unfold configureOpenRouterEnvironment.
  rewrite (bind_ok (get_state_run w st)). cbv beta. rewrite H.
  cbv iota. reflexivity.
Qed.

Lemma configure_noop_flag_off w st :
  env_is (env st) "CLAUDE_CODE_USE_OPENROUTER" (U "1") = false ->
  configureOpenRouterEnvironment w st
  = {| res := Ok tt; final := st; events := [] |}.
Proof.
  intros H. unfold configureOpenRouterEnvironment.
  rewrite (bind_ok (get_state_run w st)). cbv beta. rewrite H.
  destruct (proxyInitialized st); cbn [negb]; cbv iota; reflexivity.
Qed.

Lemma configure_missing_key w st :
  proxyInitialized st = false ->
  env_is (env st) "CLAUDE_CODE_USE_OPENROUTER" (U "1") = true ->
  truthy (getenv (env st) "OPENROUTER_API_KEY") = false ->
  configureOpenRouterEnvironment w st
  = {| res := Ok tt; final := st; events := [missing_key_warning] |}.
Proof.
  intros Hi Hf Hk. unfold configureOpenRouterEnvironment.
  rewrite (bind_ok (get_state_run w st)). cbv beta. rewrite Hi, Hf. cbn [negb].
  cbv iota.
  destruct (getenv (env st) "OPENROUTER_API_KEY") as [[|c key]|];
    [reflexivity|discriminate Hk|reflexivity].
Qed.

Lemma configure_direct_final w st key merged :
  direct_mode st key ->
  directHeaders (env st) key = Ok merged ->
  configureOpenRouterEnvironment w st
  = {| res := Ok tt;
       final := initialized (with_env st (direct_final_env (env st) key merged));
       events := [] |}.
Proof.
  intros (Hinit & Huse & Hkey & Hne & Hdis) Hmerged.
  unfold configureOpenRouterEnvironment, direct_final_env.
  rewrite (bind_ok (get_state_run w st)). cbv beta.
  rewrite Hinit, Huse. cbn [negb]. rewrite Hkey.
  destruct key as [|c key]; [congruence|].
  rewrite Hdis.
  destruct (truthy (getenv (env st) "ANTHROPIC_API_KEY")); cbn [negb].
  - rewrite (bind_ok (ret_run tt w st)).
    rewrite Hmerged, (bind_ok (lift_run (Ok merged) w st)).
    rewrite (bind_ok (modify_env_run _ w _)).
    rewrite (bind_ok (modify_env_run _ w _)).
    rewrite set_initialized_run. reflexivity.
  - rewrite (bind_ok (modify_env_run _ w _)).
    rewrite Hmerged, (bind_ok (lift_run (Ok merged) w _)).
    rewrite (bind_ok (modify_env_run _ w _)).
    rewrite (bind_ok (modify_env_run _ w _)).
    rewrite set_initialized_run. reflexivity.
Qed.

Lemma directHeaders_never_throws e key :
  exists merged, directHeaders e key = Ok merged.
Proof.
  rewrite directHeaders_unfold.
  destruct (orchestrator_parser_never_throws (getenv e "ANTHROPIC_CUSTOM_HEADERS"))
    as [custom ->].
  destruct (orchestrator_parser_never_throws (getenv e "OPENROUTER_EXTRA_HEADERS"))
    as [extra ->].
  cbn. eauto.
Qed.

Lemma registerCleanup_run stop w st :
  registerCleanup stop w st
  = {| res := Ok tt; final := st; events := cleanup_handlers |}.
Proof. reflexivity. Qed.

Lemma configure_proxied_unfold w st key :
  proxied_mode st key ->
  configureOpenRouterEnvironment w st
  = bind (Proxy.startOpenRouterProxy (proxied_options (env st) key))
      (fun proxy =>
         bind (modify_env (fun e =>
                 setenv e "ANTHROPIC_BASE_URL" (Proxy.Handle.baseUrl proxy)))
           (fun _ =>
         bind (modify_env (fun e =>
                 setenv e "ANTHROPIC_API_KEY" (Proxy.Handle.masterKey proxy)))
           (fun _ =>
         bind (modify_env (fun e => unsetenv e "ANTHROPIC_CUSTOM_HEADERS"))
           (fun _ =>
         bind (registerCleanup (Proxy.Handle.stop proxy))
           (fun _ => set_initialized true))))) w st.
Proof.
  intros (Hinit & Huse & Hkey & Hne & Hdis).
  unfold configureOpenRouterEnvironment at 1.
  rewrite (bind_ok (get_state_run w st)). cbv beta.
  rewrite Hinit, Huse. cbn [negb]. rewrite Hkey.
  destruct key as [|c key]; [congruence|].
  rewrite Hdis. unfold prepend. cbn [app].
  destruct (bind _ _ w st). reflexivity.
Qed.

Lemma configure_proxied_final w st key h st1 ev1 :
  proxied_mode st key ->
  Proxy.startOpenRouterProxy (proxied_options (env st) key) w st
  = {| res := Ok h; final := st1; events := ev1 |} ->
  configureOpenRouterEnvironment w st
  = {| res := Ok tt;
       final :=
         initialized
           (with_env st1
              (unsetenv
                 (setenv
                    (setenv (env st1) "ANTHROPIC_BASE_URL" (Proxy.Handle.baseUrl h))
                    "ANTHROPIC_API_KEY" (Proxy.Handle.masterKey h))
                 "ANTHROPIC_CUSTOM_HEADERS"));
       events := ev1 ++ cleanup_handlers |}.
Proof.
  intros Hmode E.
  rewrite (configure_proxied_unfold w st key Hmode).
  rewrite (bind_ok E).
  rewrite (bind_ok (modify_env_run _ w _)).
  rewrite (bind_ok (modify_env_run _ w _)).
  rewrite (bind_ok (modify_env_run _ w _)).
  rewrite (bind_ok (registerCleanup_run _ w _)), set_initialized_run.
  unfold prepend. cbn [res final events app].
  rewrite app_nil_r. reflexivity.
Qed.

Lemma proxied_mode_wires_the_proxy_init w st key h :
  proxied_mode st key ->
  res (Proxy.startOpenRouterProxy (proxied_options (env st) key) w st) = Ok h ->
  proxyInitialized (final (configureOpenRouterEnvironment w st)) = true
  /\ res (configureOpenRouterEnvironment w st) = Ok tt.
Proof.
  intros Hmode Hres.
  rewrite (configure_proxied_unfold w st key Hmode).
  destruct (Proxy.startOpenRouterProxy (proxied_options (env st) key) w st)
    as [r st1 ev1] eqn:E.
  cbn [res] in Hres. subst r.
  rewrite (bind_ok E).
  rewrite (bind_ok (modify_env_run _ w _)).
  rewrite (bind_ok (modify_env_run _ w _)).
  rewrite (bind_ok (modify_env_run _ w _)).
  rewrite (bind_ok (registerCleanup_run _ w _)), set_initialized_run.
  cbn [prepend res final proxyInitialized]. now split.
Qed.

(** X5.  In proxied mode, once [startOpenRouterProxy] has returned a
    handle, [configureOpenRouterEnvironment] points [ANTHROPIC_BASE_URL] at
    the proxy, puts the master key in [ANTHROPIC_API_KEY], removes
    [ANTHROPIC_CUSTOM_HEADERS], leaves every other variable alone, installs
    the handlers for [exit], [SIGINT] and [SIGTERM] after everything the
    start did, and only then marks the process as initialized. *)
Theorem proxied_mode_wires_the_proxy w st key h :
  proxied_mode st key ->
  res (Proxy.startOpenRouterProxy (proxied_options (env st) key) w st) = Ok h ->
  res (configureOpenRouterEnvironment w st) = Ok tt
  /\ events (configureOpenRouterEnvironment w st)
     = events (Proxy.startOpenRouterProxy (proxied_options (env st) key) w st)
         ++ cleanup_handlers
  /\ proxyInitialized (final (configureOpenRouterEnvironment w st)) = true
  /\ getenv (env (final (configureOpenRouterEnvironment w st)))
       "ANTHROPIC_BASE_URL" = Some (Proxy.Handle.baseUrl h)
  /\ getenv (env (final (configureOpenRouterEnvironment w st)))
       "ANTHROPIC_API_KEY" = Some (Proxy.Handle.masterKey h)
  /\ getenv (env (final (configureOpenRouterEnvironment w st)))
       "ANTHROPIC_CUSTOM_HEADERS" = None
  /\ (forall k, is_downstream k = false ->
        getenv (env (final (configureOpenRouterEnvironment w st))) k
        = getenv (env st) k).
Proof.
  intros Hmode Hres.
  rewrite (configure_proxied_unfold w st key Hmode).
  destruct (keeps_startOpenRouterProxy (proxied_options (env st) key) w st)
    as [Henv _].
  destruct (Proxy.startOpenRouterProxy (proxied_options (env st) key) w st)
    as [r st1 ev1] eqn:E.
  cbn [res final events] in *. subst r.
  rewrite (bind_ok E).
  rewrite (bind_ok (modify_env_run _ w _)).
  rewrite (bind_ok (modify_env_run _ w _)).
  rewrite (bind_ok (modify_env_run _ w _)).
  rewrite (bind_ok (registerCleanup_run _ w _)), set_initialized_run.
  cbn [prepend res final events app env proxyInitialized].
  rewrite Henv.
  repeat split; try reflexivity.
  intros k Hk. unfold is_downstream in Hk.
  apply orb_false_iff in Hk. destruct Hk as [Hk Hc].
  apply orb_false_iff in Hk. destruct Hk as [Hb Ha].
  unfold getenv, unsetenv, setenv. now rewrite Hc, Ha, Hb.
Qed.

Lemma proxied_mode_wires_the_proxy_witness :
  getenv (env (final (configureOpenRouterEnvironment calm_world proxied_state)))
    "ANTHROPIC_BASE_URL" = Some (U "http://127.0.0.1:40123/anthropic").
Proof.
  refine (proj1 (proj2 (proj2 (proj2
            (proxied_mode_wires_the_proxy calm_world proxied_state
               (U "sk-or-v1-0123") calm_handle _ _))))).
  - repeat split; try reflexivity. discriminate.
  - vm_compute. reflexivity.
Defined.

(** X6.  In proxied mode, an error thrown by [startOpenRouterProxy] is
    thrown by [configureOpenRouterEnvironment] as it is: the environment is
    not written, no handler is installed and the process is not marked as
    initialized, so that a later call starts over. *)
Theorem proxied_mode_failure_propagates w st key e :
  proxied_mode st key ->
  res (Proxy.startOpenRouterProxy (proxied_options (env st) key) w st) = Throw e ->
  res (configureOpenRouterEnvironment w st) = Throw e
  /\ events (configureOpenRouterEnvironment w st)
     = events (Proxy.startOpenRouterProxy (proxied_options (env st) key) w st)
  /\ env (final (configureOpenRouterEnvironment w st)) = env st
  /\ proxyInitialized (final (configureOpenRouterEnvironment w st)) = false.
Proof.
  intros Hmode Hres.
  rewrite (configure_proxied_unfold w st key Hmode).
  destruct (keeps_startOpenRouterProxy (proxied_options (env st) key) w st)
    as [Henv Hinit].
  destruct (Proxy.startOpenRouterProxy (proxied_options (env st) key) w st)
    as [r st1 ev1] eqn:E.
  cbn [res final events] in *. subst r.
  rewrite (bind_throw E). cbn [res final events].
  destruct Hmode as (Hi & _). repeat split; congruence.
Qed.

Lemma proxied_mode_failure_propagates_witness :
  proxyInitialized
    (final (configureOpenRouterEnvironment unhealthy_world proxied_state)) = false.
Proof.
  refine (proj2 (proj2 (proj2
            (proxied_mode_failure_propagates unhealthy_world proxied_state
               (U "sk-or-v1-0123") timeout_error _ _)))).
  - repeat split; try reflexivity. discriminate.
  - vm_compute. reflexivity.
Defined.

End OrchestratorBranches.

Section OrchestratorCalls.
Import Orchestrator.

(** X7.  In direct mode [configureOpenRouterEnvironment] touches no
    socket, file or process; it sets [ANTHROPIC_BASE_URL] to the trimmed
    [OPENROUTER_BASE_URL], or to [https://openrouter.ai/api/v1] when that is
    missing or blank; it gives [ANTHROPIC_API_KEY] the upstream key only
    when the variable is missing or empty; it leaves every variable other
    than the three [ANTHROPIC_] ones as it was; and it marks the process
    as initialized. *)
Theorem direct_mode_environment w st key :
  direct_mode st key ->
  res (configureOpenRouterEnvironment w st) = Ok tt
  /\ events (configureOpenRouterEnvironment w st) = []
  /\ proxyInitialized (final (configureOpenRouterEnvironment w st)) = true
  /\ getenv (env (final (configureOpenRouterEnvironment w st))) "ANTHROPIC_BASE_URL"
     = Some (Proxy.or_default
               (option_map trim (getenv (env st) "OPENROUTER_BASE_URL"))
               DEFAULT_REMOTE_BASE_URL)
  /\ getenv (env (final (configureOpenRouterEnvironment w st))) "ANTHROPIC_API_KEY"
     = (if truthy (getenv (env st) "ANTHROPIC_API_KEY")
        then getenv (env st) "ANTHROPIC_API_KEY" else Some key)
  /\ (forall k, is_downstream k = false ->
        getenv (env (final (configureOpenRouterEnvironment w st))) k
        = getenv (env st) k).
Proof.
  intros Hmode.
  destruct (directHeaders_never_throws (env st) key) as [merged Hd].
  rewrite (configure_direct_final w st key merged Hmode Hd).
  cbn [res events final initialized with_env env proxyInitialized].
  unfold direct_final_env.
  split; [reflexivity|]. split; [reflexivity|]. split; [reflexivity|].
  split; [reflexivity|]. split.
  - destruct (truthy (getenv (env st) "ANTHROPIC_API_KEY")); reflexivity.
  - intros k Hk. unfold is_downstream in Hk.
    apply orb_false_iff in Hk. destruct Hk as [Hk Hc].
    apply orb_false_iff in Hk. destruct Hk as [Hb Ha].
    unfold getenv, setenv. rewrite Hb, Hc.
    destruct (truthy (env st "ANTHROPIC_API_KEY"%string)); [reflexivity|].
    now rewrite Ha.
Qed.

Lemma direct_mode_environment_witness :
  getenv (env (final (configureOpenRouterEnvironment calm_world scenario_C)))
    "ANTHROPIC_API_KEY" = Some (U "abc123").
Proof.
  refine (proj1 (proj2 (proj2 (proj2 (proj2
            (direct_mode_environment calm_world scenario_C (U "abc123") _)))))).
  repeat split; try reflexivity. discriminate.
Defined.

Lemma state_cases st :
  proxyInitialized st = true
  \/ env_is (env st) "CLAUDE_CODE_USE_OPENROUTER" (U "1") = false
  \/ (proxyInitialized st = false
      /\ env_is (env st) "CLAUDE_CODE_USE_OPENROUTER" (U "1") = true
      /\ truthy (getenv (env st) "OPENROUTER_API_KEY") = false)
  \/ (exists key, direct_mode st key)
  \/ (exists key, proxied_mode st key).
Proof.
  unfold direct_mode, proxied_mode.
  destruct (proxyInitialized st); [now left|]. right.
  destruct (env_is (env st) "CLAUDE_CODE_USE_OPENROUTER" (U "1")); [|now left].
  right.
  destruct (getenv (env st) "OPENROUTER_API_KEY") as [[|c key]|] eqn:Hk;
    [left; auto|right|left; auto].
  destruct (env_is (env st) "CLAUDE_CODE_OPENROUTER_DISABLE_PROXY" (U "1")).
  - left. exists (c :: key). repeat split; auto. discriminate.
  - right. exists (c :: key). repeat split; auto. discriminate.
Qed.

(** X8.  A call of [configureOpenRouterEnvironment] that follows one that
    returned changes nothing: whatever the world does, it returns, leaves
    the state as the first call left it, and has no effect other than the
    warning about the missing key; no second proxy is started and the
    environment is not rewritten. *)
Theorem later_calls_change_nothing w w' st :
  res (configureOpenRouterEnvironment w st) = Ok tt ->
  res (configureOpenRouterEnvironment w'
         (final (configureOpenRouterEnvironment w st))) = Ok tt
  /\ final (configureOpenRouterEnvironment w'
              (final (configureOpenRouterEnvironment w st)))
     = final (configureOpenRouterEnvironment w st)
  /\ forallb is_warning
       (events (configureOpenRouterEnvironment w'
                  (final (configureOpenRouterEnvironment w st)))) = true.
Proof.
  intros Hres.
  destruct (state_cases st) as [Hi|[Hf|[(Hi & Hf & Hk)|[[key Hd]|[key Hp]]]]].
  - rewrite (configure_noop_initialized w st Hi). cbn [final].
    rewrite (configure_noop_initialized w' st Hi). now repeat split.
  - rewrite (configure_noop_flag_off w st Hf). cbn [final].
    rewrite (configure_noop_flag_off w' st Hf). now repeat split.
  - rewrite (configure_missing_key w st Hi Hf Hk). cbn [final].
    rewrite (configure_missing_key w' st Hi Hf Hk). now repeat split.
  - destruct (directHeaders_never_throws (env st) key) as [merged Hm].
    rewrite (configure_direct_final w st key merged Hd Hm). cbn [final].
    rewrite (configure_noop_initialized w'
               (initialized (with_env st (direct_final_env (env st) key merged)))
               eq_refl).
    now repeat split.
  - destruct (Proxy.startOpenRouterProxy (proxied_options (env st) key) w st)
      as [[h|e] st1 ev1] eqn:E.
    + destruct (proxied_mode_wires_the_proxy_init w st key h Hp)
        as [Hinit _]; [now rewrite E|].
      rewrite (configure_noop_initialized w' _ Hinit). now repeat split.
    + exfalso.
      assert (res (configureOpenRouterEnvironment w st) = Throw e) as Hthrow.
      { rewrite (configure_proxied_unfold w st key Hp), (bind_throw E).
        reflexivity. }
      congruence.
Qed.

Lemma later_calls_change_nothing_witness :
  forallb is_warning
    (events (configureOpenRouterEnvironment calm_world
               (final (configureOpenRouterEnvironment calm_world proxied_state))))
  = true.
Proof.
  refine (proj2 (proj2 (later_calls_change_nothing calm_world calm_world
                          proxied_state _))).
  vm_compute. reflexivity.
Defined.

End OrchestratorCalls.

(** ** The validation of the environment *)

Section ValidationFacts.
Import Validation.

Lemma required_errors_nil e names suffix :
  required_errors e names suffix = [] <-> all_set e names = true.
Proof.
  unfold required_errors, all_set.
  induction names as [|key names IH]; cbn; [tauto|].
  destruct (truthy (getenv e key)); cbn; [exact IH|].
  split; discriminate.
Qed.

Lemma validate_ok_iff_no_error e :
  validateEnvironmentVariables e = Ok tt <-> validation_errors e = [].
Proof.
  unfold validateEnvironmentVariables.
  destruct (validation_errors e) as [|x l]; cbn; split; try discriminate; auto.
Qed.

(** X9.  [validateEnvironmentVariables] returns exactly when at most one
    provider flag is set to 1 and the credentials of the provider it
    settles on are all set and not empty: the OpenRouter key when the
    OpenRouter flag is set, else the three AWS variables under the Bedrock
    flag, else the two Vertex variables under the Vertex flag, else the
    Anthropic key or the OAuth token.  Otherwise it throws. *)
Theorem validation_passes_exactly_when_valid (e : Env) :
  (validateEnvironmentVariables e = Ok tt <-> env_is_valid e = true)
  /\ (env_is_valid e = false ->
      validateEnvironmentVariables e
      = Throw (Error (errorMessage (validation_errors e)))).
Proof.
  assert (Hiff : validation_errors e = [] <-> env_is_valid e = true).
  { unfold validation_errors, env_is_valid.
    rewrite andb_true_iff.
    set (n := count_true _).
    assert (Hn : Nat.ltb 1 n = negb (Nat.leb n 1)).
    { destruct (Nat.leb_spec n 1), (Nat.ltb_spec 1 n); try reflexivity; lia. }
    rewrite Hn.
    destruct (Nat.leb n 1); cbn [negb app].
    - destruct (flag e "CLAUDE_CODE_USE_OPENROUTER").
      { destruct (truthy (getenv e "OPENROUTER_API_KEY")); cbn;
          split; try tauto; try discriminate. intros [_ H]; discriminate. }
      destruct (flag e "CLAUDE_CODE_USE_BEDROCK").
      { rewrite required_errors_nil. tauto. }
      destruct (flag e "CLAUDE_CODE_USE_VERTEX").
      { rewrite required_errors_nil. tauto. }
      destruct (truthy (getenv e "ANTHROPIC_API_KEY")),
        (truthy (getenv e "CLAUDE_CODE_OAUTH_TOKEN")); cbn;
        split; try tauto; try discriminate; intros [_ H]; discriminate.
    - split; [discriminate|]. intros [H _]. discriminate. }
  split.
  - rewrite validate_ok_iff_no_error. exact Hiff.
  - intros Hbad. unfold validateEnvironmentVariables.
    destruct (validation_errors e) as [|x l]; [|reflexivity].
    rewrite (proj1 Hiff eq_refl) in Hbad. discriminate Hbad.
Qed.

Lemma validation_passes_exactly_when_valid_witness :
  validateEnvironmentVariables two_providers_env
  = Throw (Error (errorMessage (validation_errors two_providers_env))).
Proof.
  apply (proj2 (validation_passes_exactly_when_valid two_providers_env)).
  reflexivity.
Defined.

End ValidationFacts.

(** ** Configuration, then validation *)

Section ConfigureThenValidate.
Import Orchestrator.

Lemma downstream_frame (e : Env) a b k :
  is_downstream k = false ->
  getenv (unsetenv (setenv (setenv e "ANTHROPIC_BASE_URL" a)
                      "ANTHROPIC_API_KEY" b) "ANTHROPIC_CUSTOM_HEADERS") k
  = getenv e k.
Proof.
  intros Hk. unfold is_downstream in Hk.
  apply orb_false_iff in Hk. destruct Hk as [Hk Hc].
  apply orb_false_iff in Hk. destruct Hk as [Hb Ha].
  unfold getenv, unsetenv, setenv. now rewrite Hc, Ha, Hb.
Qed.

Lemma direct_frame (e : Env) key merged k :
  is_downstream k = false ->
  getenv (direct_final_env e key merged) k = getenv e k.
Proof.
  intros Hk. unfold is_downstream in Hk.
  apply orb_false_iff in Hk. destruct Hk as [Hk Hc].
  apply orb_false_iff in Hk. destruct Hk as [Hb Ha].
  unfold direct_final_env, getenv, setenv. rewrite Hb, Hc.
  destruct (truthy (e "ANTHROPIC_API_KEY"%string)); [reflexivity|].
  now rewrite Ha.
Qed.

(** X10.  Whatever the state and the world, and whether it returns or
    throws, [configureOpenRouterEnvironment] writes no variable other than
    [ANTHROPIC_BASE_URL], [ANTHROPIC_API_KEY] and
    [ANTHROPIC_CUSTOM_HEADERS]: every other variable of the environment,
    the upstream key among them, is after the call what it was before. *)
Theorem configure_writes_downstream_variables_only w st k :
  is_downstream k = false ->
  getenv (env (final (configureOpenRouterEnvironment w st))) k
  = getenv (env st) k.
Proof.
  intros Hk.
  destruct (state_cases st) as [Hi|[Hf|[(Hi & Hf & Hm)|[[key Hd]|[key Hp]]]]].
  - now rewrite (configure_noop_initialized w st Hi).
  - now rewrite (configure_noop_flag_off w st Hf).
  - now rewrite (configure_missing_key w st Hi Hf Hm).
  - destruct (directHeaders_never_throws (env st) key) as [merged Hm].
    rewrite (configure_direct_final w st key merged Hd Hm).
    cbn [final initialized with_env env]. now apply direct_frame.
  - destruct (keeps_startOpenRouterProxy (proxied_options (env st) key) w st)
      as [Henv _].
    destruct (Proxy.startOpenRouterProxy (proxied_options (env st) key) w st)
      as [[h|e] st1 ev1] eqn:E; cbn [final] in Henv.
    + rewrite (configure_proxied_final w st key h st1 ev1 Hp E).
      cbn [final initialized with_env env].
      rewrite downstream_frame by exact Hk. now rewrite Henv.
    + rewrite (configure_proxied_unfold w st key Hp), (bind_throw E).
      cbn [final]. now rewrite Henv.
Qed.

Lemma configure_writes_downstream_variables_only_witness :
  getenv (env (final (configureOpenRouterEnvironment calm_world proxied_state)))
    "OPENROUTER_API_KEY"
  = getenv (env proxied_state) "OPENROUTER_API_KEY".
Proof.
  apply (configure_writes_downstream_variables_only calm_world proxied_state).
  reflexivity.
Defined.

Lemma includes_app (pre p post : jstring) : includes (pre ++ p ++ post) p = true.
Proof.
  induction pre as [|x pre IH]; cbn [app].
  - destruct (p ++ post) as [|y s] eqn:E.
    + destruct p; [reflexivity|discriminate].
    + cbn [includes]. rewrite <- E, startsWith_app. reflexivity.
  - cbn [includes]. rewrite IH. apply orb_true_r.
Qed.

Lemma join_holds (sep : list N) (f : list N -> list N) (l : list (list N)) x :
  In x l -> exists pre post, join sep (List.map f l) = pre ++ f x ++ post.
Proof.
  induction l as [|y l IH]; [intros []|].
  intros [->|Hin].
  - destruct l as [|z l].
    + exists [], []. cbn. now rewrite app_nil_r.
    + exists [], (sep ++ join sep (List.map f (z :: l))). reflexivity.
  - destruct (IH Hin) as (pre & post & E).
    destruct l as [|z l]; [destruct Hin|].
    exists (f y ++ sep ++ pre), post.
    change (join sep (List.map f (y :: z :: l)))
      with (f y ++ sep ++ join sep (List.map f (z :: l))).
    rewrite E. now rewrite <- !app_assoc.
Qed.

Lemma errorMessage_includes errors x :
  In x errors -> includes (Validation.errorMessage errors) x = true.
Proof.
  intros Hin. unfold Validation.errorMessage.
  destruct (join_holds [cLF] (fun e => U "  - " ++ e) errors x Hin)
    as (pre & post & E).
  rewrite E.
  replace (U "Environment variable validation failed:" ++ [cLF]
           ++ pre ++ (U "  - " ++ x) ++ post)
    with ((U "Environment variable validation failed:" ++ [cLF]
           ++ pre ++ U "  - ") ++ x ++ post)
    by (now rewrite <- !app_assoc).
  apply includes_app.
Qed.

(** X11.  With the OpenRouter flag as the only provider flag, the
    validation that follows [configureOpenRouterEnvironment] passes when
    the upstream key is set, in the direct mode as in the proxied one and
    whether the proxy could be started or not; when the key is missing, the
    orchestrator only warns (it returns, the state is as it was, and its
    one effect is the warning, which a process marked as initialized does
    not give either), and the validation throws the message that names
    [OPENROUTER_API_KEY]. *)
Theorem validation_after_configuration w st :
  env_is (env st) "CLAUDE_CODE_USE_OPENROUTER" (U "1") = true ->
  env_is (env st) "CLAUDE_CODE_USE_BEDROCK" (U "1") = false ->
  env_is (env st) "CLAUDE_CODE_USE_VERTEX" (U "1") = false ->
  (truthy (getenv (env st) "OPENROUTER_API_KEY") = true ->
   Validation.validateEnvironmentVariables
     (env (final (configureOpenRouterEnvironment w st))) = Ok tt)
  /\ (truthy (getenv (env st) "OPENROUTER_API_KEY") = false ->
      configureOpenRouterEnvironment w st
      = {| res := Ok tt; final := st;
           events := if proxyInitialized st then []
                     else [missing_key_warning] |}
      /\ exists message,
           Validation.validateEnvironmentVariables
             (env (final (configureOpenRouterEnvironment w st)))
           = Throw (Error message)
           /\ includes message openrouter_key_message = true).
Proof.
  intros Ho Hb Hv.
  set (e' := env (final (configureOpenRouterEnvironment w st))).
  assert (F : forall k, is_downstream k = false -> e' k = env st k).
  { intros k Hk. subst e'.
    destruct (state_cases st) as [Hi|[Hf|[(Hi & Hf & Hm)|[[key Hd]|[key Hp]]]]].
    - now rewrite (configure_noop_initialized w st Hi).
    - now rewrite (configure_noop_flag_off w st Hf).
    - now rewrite (configure_missing_key w st Hi Hf Hm).
    - destruct (directHeaders_never_throws (env st) key) as [merged Hm].
      rewrite (configure_direct_final w st key merged Hd Hm).
      cbn [final initialized with_env env]. now apply direct_frame.
    - destruct (keeps_startOpenRouterProxy (proxied_options (env st) key) w st)
        as [Henv _].
      destruct (Proxy.startOpenRouterProxy (proxied_options (env st) key) w st)
        as [[h|e] st1 ev1] eqn:E; cbn [final] in Henv.
      + rewrite (configure_proxied_final w st key h st1 ev1 Hp E).
        cbn [final initialized with_env env].
        rewrite <- Henv. now apply downstream_frame.
      + rewrite (configure_proxied_unfold w st key Hp), (bind_throw E).
        cbn [final]. now rewrite Henv. }
  assert (E : Validation.validation_errors e'
              = if truthy (getenv (env st) "OPENROUTER_API_KEY") then []
                else [openrouter_key_message]).
  { unfold Validation.validation_errors, Validation.flag, env_is, getenv in *.
    rewrite !F by reflexivity.
    destruct (env st "CLAUDE_CODE_USE_OPENROUTER"%string) as [o|]; [|discriminate].
    rewrite Ho.
    destruct (env st "CLAUDE_CODE_USE_BEDROCK"%string) as [b|];
      destruct (env st "CLAUDE_CODE_USE_VERTEX"%string) as [v|];
      try rewrite Hb; try rewrite Hv; cbn;
      destruct (truthy (env st "OPENROUTER_API_KEY"%string)); reflexivity. }
  unfold Validation.validateEnvironmentVariables. rewrite E.
  split; intros Hk; rewrite Hk; cbn [List.length Nat.ltb Nat.leb].
  - reflexivity.
  - split.
    + destruct (proxyInitialized st) eqn:Hi.
      * now apply configure_noop_initialized.
      * now apply configure_missing_key.
    + eexists. split; [reflexivity|].
      apply errorMessage_includes. now left.
Qed.

Lemma validation_after_configuration_witness :
  Validation.validateEnvironmentVariables
    (env (final (configureOpenRouterEnvironment calm_world proxied_state)))
  = Ok tt
  /\ configureOpenRouterEnvironment calm_world keyless_state
     = {| res := Ok tt; final := keyless_state;
          events := [missing_key_warning] |}
  /\ exists message,
       Validation.validateEnvironmentVariables
         (env (final (configureOpenRouterEnvironment calm_world keyless_state)))
       = Throw (Error message)
       /\ includes message openrouter_key_message = true.
Proof.
  split.
  - apply (validation_after_configuration calm_world proxied_state);
      reflexivity.
  - apply (validation_after_configuration calm_world keyless_state);
      reflexivity.
Defined.

End ConfigureThenValidate.

(** ** The direct mode and the earlier orchestrator *)

Section EarlierOrchestrator.
Import Orchestrator.

Lemma trimmed_or_is_or_default (o : option jstring) (d : jstring) :
  Legacy.trimmed_or o d = Proxy.or_default (option_map trim o) d.
Proof.
  unfold Legacy.trimmed_or, Proxy.or_default.
  destruct o as [[|c r]|]; try reflexivity.
  cbn [option_map]. destruct (trim (c :: r)); reflexivity.
Qed.

Lemma directHeaders_reads_four_variables (e e' : Env) key :
  getenv e "ANTHROPIC_CUSTOM_HEADERS" = getenv e' "ANTHROPIC_CUSTOM_HEADERS" ->
  getenv e "OPENROUTER_SITE_URL" = getenv e' "OPENROUTER_SITE_URL" ->
  getenv e "OPENROUTER_APP_TITLE" = getenv e' "OPENROUTER_APP_TITLE" ->
  getenv e "OPENROUTER_EXTRA_HEADERS" = getenv e' "OPENROUTER_EXTRA_HEADERS" ->
  directHeaders e key = directHeaders e' key.
Proof.
  intros Hc Hs Ht Hx. unfold directHeaders. now rewrite Hc, Hs, Ht, Hx.
Qed.

(** X12.  In direct mode the orchestrator leaves the environment that
    its earlier version, the one without a proxy, leaves on the same input:
    every variable has the same value after either of them, although the
    two write the three variables in different orders. *)
Theorem direct_mode_agrees_with_the_earlier_version w st key :
  direct_mode st key ->
  exists e',
    Legacy.configureOpenRouterEnvironment (env st) = Ok e'
    /\ forall k,
         getenv (env (final (configureOpenRouterEnvironment w st))) k
         = getenv e' k.
Proof.
  intros Hmode.
  destruct (directHeaders_never_throws (env st) key) as [merged Hd].
  rewrite (configure_direct_final w st key merged Hmode Hd).
  cbn [final initialized with_env env].
  destruct Hmode as (_ & Huse & Hkey & Hne & _).
  unfold Legacy.configureOpenRouterEnvironment.
  rewrite Huse. cbn [negb]. rewrite Hkey.
  destruct key as [|c key]; [congruence|].
  rewrite trimmed_or_is_or_default.
  set (url := Proxy.or_default _ _).
  set (e1 := setenv (env st) "ANTHROPIC_BASE_URL" url).
  set (e2 := if negb (truthy (getenv e1 "ANTHROPIC_API_KEY"))
             then setenv e1 "ANTHROPIC_API_KEY" (c :: key) else e1).
  assert (Hsame : directHeaders e2 (c :: key) = Ok merged).
  { rewrite <- Hd. subst e2 e1.
    apply directHeaders_reads_four_variables;
      unfold getenv, setenv; cbn [String.eqb Ascii.eqb Bool.eqb];
      destruct (negb _); reflexivity. }
  rewrite Hsame. cbn [rbind]. eexists. split; [reflexivity|].
  intros k. subst e2 e1. unfold direct_final_env, getenv, setenv.
  fold url.
  change (truthy
            (if String.eqb "ANTHROPIC_API_KEY" "ANTHROPIC_BASE_URL"
             then Some url else env st "ANTHROPIC_API_KEY"%string))
    with (truthy (env st "ANTHROPIC_API_KEY"%string)).
  destruct (truthy (env st "ANTHROPIC_API_KEY"%string)); cbn [negb];
    destruct (String.eqb k "ANTHROPIC_BASE_URL") eqn:Eb;
    destruct (String.eqb k "ANTHROPIC_CUSTOM_HEADERS") eqn:Ec;
    destruct (String.eqb k "ANTHROPIC_API_KEY") eqn:Ea;
    try reflexivity;
    repeat match goal with
           | H : String.eqb _ _ = true |- _ => apply String.eqb_eq in H
           end;
    subst; discriminate.
Qed.

Lemma direct_mode_agrees_with_the_earlier_version_witness :
  exists e',
    Legacy.configureOpenRouterEnvironment (env scenario_C) = Ok e'
    /\ forall k,
         getenv (env (final (configureOpenRouterEnvironment calm_world scenario_C))) k
         = getenv e' k.
Proof.
  apply (direct_mode_agrees_with_the_earlier_version calm_world scenario_C
           (U "abc123")).
  repeat split; try reflexivity. discriminate.
Defined.

End EarlierOrchestrator.

(** ** [trim], [split] and [indexOf] on well-formed lines *)

Section Lines.

Lemma trimStart_length s : List.length (trimStart s) <= List.length s.
Proof.
  induction s as [|c s IH]; cbn; [lia|].
  destruct (is_js_space c); cbn; lia.
Qed.

Lemma trimEnd_length s : List.length (trimEnd s) <= List.length s.
Proof.
  induction s as [|c s IH]; cbn; [lia|].
  destruct (trimEnd s); [destruct (is_js_space c)|]; cbn in *; lia.
Qed.

Lemma trimStart_fixed s : trimStart s = s -> trimStart s = s /\
  match s with c :: _ => is_js_space c = false | [] => True end.
Proof.
  intros H. split; [exact H|]. destruct s as [|c r]; [exact I|].
  destruct (is_js_space c) eqn:E; [|reflexivity].
  cbn in H. rewrite E in H.
  pose proof (trimStart_length r) as L. rewrite H in L. cbn in L. lia.
Qed.

Lemma trimStart_head c r : is_js_space c = false -> trimStart (c :: r) = c :: r.
Proof. intros H. cbn. now rewrite H. Qed.

Lemma trim_fixed_head s :
  trim s = s ->
  match s with c :: _ => is_js_space c = false | [] => True end.
Proof.
  intros H. destruct s as [|c r]; [exact I|].
  destruct (is_js_space c) eqn:E; [|reflexivity].
  unfold trim in H. cbn [trimStart] in H. rewrite E in H.
  pose proof (trimEnd_length (trimStart r)) as L1.
  pose proof (trimStart_length r) as L2.
  rewrite H in L1. cbn in L1. lia.
Qed.

Lemma trim_fixed_end s : trim s = s -> trimEnd s = s.
Proof.
  intros H. pose proof (trim_fixed_head s H) as Hh.
  destruct s as [|c r]; [reflexivity|].
  unfold trim in H. now rewrite (trimStart_head c r Hh) in H.
Qed.

Lemma trimEnd_app a b : trimEnd b <> [] -> trimEnd (a ++ b) = a ++ trimEnd b.
Proof.
  intros Hb. induction a as [|x a IH]; [reflexivity|].
  cbn [app trimEnd]. rewrite IH.
  destruct (a ++ trimEnd b) eqn:E; [|reflexivity].
  apply app_eq_nil in E. destruct E. contradiction.
Qed.

Lemma trim_between a b :
  trim a = a -> a <> [] -> trimEnd b = b -> b <> [] ->
  forall mid, trim (a ++ mid ++ b) = a ++ mid ++ b.
Proof.
  intros Ha Hna Hb Hnb mid.
  pose proof (trim_fixed_head a Ha) as Hh.
  destruct a as [|c r]; [congruence|].
  unfold trim. cbn [app]. rewrite (trimStart_head c _ Hh).
  change (c :: r ++ mid ++ b) with ((c :: r) ++ mid ++ b).
  rewrite app_assoc, trimEnd_app, Hb; [reflexivity|congruence].
Qed.

Lemma cut_at_app c a b :
  existsb (N.eqb c) a = false -> cut_at c (a ++ c :: b) = Some (a, b).
Proof.
  induction a as [|x a IH]; cbn [app cut_at existsb].
  - now rewrite N.eqb_refl.
  - rewrite orb_false_iff. intros [Hx Ha].
    rewrite N.eqb_sym, Hx, (IH Ha). reflexivity.
Qed.

Lemma split_lines_single line :
  existsb (N.eqb cLF) line = false -> split_lines line = [line].
Proof.
  induction line as [|c l IH]; cbn [split_lines existsb]; [reflexivity|].
  rewrite orb_false_iff. intros [Hc Hl].
  rewrite N.eqb_sym, Hc, (IH Hl).
  destruct l as [|d l']; [now rewrite andb_false_r|].
  cbn [existsb] in Hl. apply orb_false_iff in Hl. destruct Hl as [Hd _].
  cbn [startsWith]. rewrite Hd. cbn [andb]. now rewrite andb_false_r.
Qed.

Lemma split_lines_cons line rest :
  existsb (N.eqb cLF) line = false -> trimEnd line = line ->
  split_lines (line ++ cLF :: rest) = line :: split_lines rest.
Proof.
  induction line as [|c l IH]; intros Hlf Hend.
  - cbn [app split_lines]. now rewrite N.eqb_refl.
  - cbn [existsb] in Hlf. apply orb_false_iff in Hlf. destruct Hlf as [Hc Hl].
    cbn [app split_lines]. rewrite N.eqb_sym, Hc.
    destruct l as [|d l'].
    + cbn [trimEnd] in Hend.
      destruct (is_js_space c) eqn:Es; [discriminate|].
      assert (N.eqb c cCR = false) as Hcr.
      { destruct (N.eqb c cCR) eqn:E; [|reflexivity].
        apply N.eqb_eq in E. subst c. discriminate Es. }
      rewrite Hcr. cbn [app split_lines andb]. now rewrite N.eqb_refl.
    + assert (trimEnd (d :: l') = d :: l') as Hend'.
      { change (trimEnd (c :: d :: l'))
          with (match trimEnd (d :: l') with
                | [] => if is_js_space c then [] else [c]
                | kept => c :: kept
                end) in Hend.
        destruct (trimEnd (d :: l')) eqn:E.
        - destruct (is_js_space c); discriminate.
        - congruence. }
      rewrite (IH Hl Hend').
      cbn [existsb] in Hl. apply orb_false_iff in Hl. destruct Hl as [Hd _].
      cbn [app startsWith]. rewrite Hd. cbn [andb]. now rewrite andb_false_r.
Qed.

Lemma split_lines_join lines :
  lines <> [] ->
  Forall (fun l => existsb (N.eqb cLF) l = false /\ trimEnd l = l) lines ->
  split_lines (join [cLF] lines) = lines.
Proof.
  induction lines as [|p lines IH]; [congruence|].
  intros _ Hall. inversion Hall as [|? ? [Hlf Hend] Hrest]; subst.
  destruct lines as [|q lines].
  - cbn. now apply split_lines_single.
  - change (join [cLF] (p :: q :: lines)) with (p ++ cLF :: join [cLF] (q :: lines)).
    rewrite (split_lines_cons p _ Hlf Hend), IH; [reflexivity|discriminate|exact Hrest].
Qed.

Lemma trimEnd_join lines :
  Forall (fun l => trimEnd l = l /\ l <> []) lines ->
  trimEnd (join [cLF] lines) = join [cLF] lines.
Proof.
  induction lines as [|p lines IH]; [reflexivity|].
  intros Hall. inversion Hall as [|? ? [Hend Hne] Hrest]; subst.
  destruct lines as [|q lines]; [exact Hend|].
  change (join [cLF] (p :: q :: lines))
    with (p ++ [cLF] ++ join [cLF] (q :: lines)).
  rewrite app_assoc, trimEnd_app, (IH Hrest); [reflexivity|].
  rewrite (IH Hrest).
  inversion Hrest as [|? ? [_ Hq] _]; subst.
  destruct lines; cbn; [exact Hq|].
  destruct q; [congruence|discriminate].
Qed.

End Lines.

(** ** Serialising a header map and parsing it back *)

Section RoundTrip.
Import Orchestrator.

Lemma map_set_fresh (V : Type) (m : list (jstring * V)) k v :
  has_key m k = false -> map_set m k v = m ++ [(k, v)].
Proof.
  induction m as [|[k' v'] m IH]; cbn [has_key map_set app]; [reflexivity|].
  rewrite orb_false_iff. intros [Hk Hm]. now rewrite Hk, (IH Hm).
Qed.

Lemma overlay_fresh (V : Type) (extra acc : list (jstring * V)) :
  NoDup (keys acc ++ keys extra) -> overlay acc extra = acc ++ extra.
Proof.
  revert acc. induction extra as [|[k v] extra IH]; intros acc Hnd.
  - cbn. now rewrite app_nil_r.
  - rewrite overlay_cons.
    assert (has_key acc k = false) as Hfresh.
    { apply has_key_false. intros Hin.
      apply NoDup_remove_2 in Hnd. apply Hnd, in_or_app. now left. }
    rewrite (map_set_fresh V acc k v Hfresh), IH.
    + now rewrite <- app_assoc.
    + unfold keys in *. rewrite map_app. cbn [List.map fst].
      rewrite <- app_assoc. exact Hnd.
Qed.

Lemma plain_spec s :
  plain s = true ->
  s <> [] /\ trim s = s /\ existsb (N.eqb cLF) s = false.
Proof.
  unfold plain. rewrite !andb_true_iff, !negb_true_iff.
  intros [[Hne Htrim] Hlf]. repeat split.
  - intros ->. discriminate Hne.
  - now apply jeqb_eq.
  - exact Hlf.
Qed.

Lemma header_line_facts e :
  canonical_entry e = true ->
  header_line e <> []
  /\ trim (header_line e) = header_line e
  /\ trimEnd (header_line e) = header_line e
  /\ existsb (N.eqb cLF) (header_line e) = false
  /\ forall acc, collect_line acc (header_line e)
                 = map_set acc (toLowerCase (name e)) e.
Proof.
  unfold canonical_entry. rewrite !andb_true_iff, negb_true_iff.
  intros [[Hn Hcolon] Hv].
  destruct (plain_spec _ Hn) as (Hn0 & Hn1 & Hn2).
  destruct (plain_spec _ Hv) as (Hv0 & Hv1 & Hv2).
  pose proof (trim_fixed_end _ Hv1) as Hvend.
  assert (trim (header_line e) = header_line e) as Htrim.
  { unfold header_line. now apply trim_between. }
  repeat split.
  - unfold header_line. destruct (name e); [congruence|discriminate].
  - exact Htrim.
  - now apply trim_fixed_end.
  - unfold header_line. rewrite !existsb_app, Hn2, Hv2. reflexivity.
  - intros acc. unfold collect_line, header_line.
    change (U ": ") with [cCOLON; cSPACE]. cbn [app].
    rewrite (cut_at_app cCOLON (name e) (cSPACE :: value e) Hcolon).
    rewrite Hn1.
    assert (trim (cSPACE :: value e) = value e) as ->.
    { unfold trim. change (trimStart (cSPACE :: value e)) with (trimStart (value e)).
      exact Hv1. }
    destruct e as [n v]. cbn [name value] in *.
    destruct n; [congruence|]. destruct v; [congruence|]. reflexivity.
Qed.

Lemma collect_header_lines m acc :
  canonical m = true ->
  fold_left collect_line (List.map header_line (map_values m)) acc
  = overlay acc
      (List.map (fun kv => (toLowerCase (name (snd kv)), snd kv)) m).
Proof.
  revert acc. induction m as [|[k e] m IH]; intros acc Hc; [reflexivity|].
  cbn [canonical forallb snd] in Hc. apply andb_true_iff in Hc.
  destruct Hc as [He Hm].
  destruct (header_line_facts e He) as (_ & _ & _ & _ & Hstep).
  cbn [map_values List.map fold_left snd]. rewrite Hstep.
  rewrite overlay_cons. exact (IH _ Hm).
Qed.

Lemma well_keyed_rekey m :
  well_keyed m ->
  List.map (fun kv => (toLowerCase (name (snd kv)), snd kv)) m = m.
Proof.
  intros [_ Hk]. induction Hk as [|[k e] m Hke _ IH]; [reflexivity|].
  cbn [List.map snd]. cbn in Hke. now rewrite <- Hke, IH.
Qed.

Lemma parseHeaderLines_lines (t : jstring) :
  t <> [] -> trim t = t ->
  startsWith t (U "{") && endsWith t (U "}") = false ->
  parseHeaderLines (Some t) = Ok (parse_lines t).
Proof.
  intros Hne Htrim Hbr. destruct t as [|c r]; [congruence|].
  unfold parseHeaderLines. cbv zeta. rewrite Htrim. cbn [is_empty].
  now rewrite Hbr.
Qed.

Lemma header_lines_of_serialized m :
  m <> [] -> canonical m = true ->
  serializeHeaders m <> []
  /\ trim (serializeHeaders m) = serializeHeaders m
  /\ header_lines (serializeHeaders m)
     = List.map header_line (map_values m).
Proof.
  intros Hne Hc.
  assert (Forall (fun l => l <> [] /\ trim l = l /\ trimEnd l = l
                           /\ existsb (N.eqb cLF) l = false)
            (List.map header_line (map_values m))) as Hall.
  { clear Hne. induction m as [|[k e] m IH]; [constructor|].
    cbn [canonical forallb snd] in Hc. apply andb_true_iff in Hc.
    destruct Hc as [He Hm]. cbn [map_values List.map snd]. constructor.
    - destruct (header_line_facts e He) as (A & B & C & D & _). now repeat split.
    - exact (IH Hm). }
  change (serializeHeaders m)
    with (join [cLF] (List.map header_line (map_values m))).
  set (lines := List.map header_line (map_values m)) in *.
  assert (lines <> []) as Hlines.
  { subst lines. destruct m; [congruence|discriminate]. }
  assert (join [cLF] lines <> []) as Hjoin.
  { destruct lines as [|p rest]; [congruence|].
    inversion Hall as [|? ? (Hp & _) _]; subst.
    destruct rest; cbn [join]; [exact Hp|].
    destruct p; [congruence|discriminate]. }
  assert (trimEnd (join [cLF] lines) = join [cLF] lines) as Hend.
  { apply trimEnd_join. eapply Forall_impl; [|exact Hall].
    intros l (A & _ & C & _). now split. }
  assert (trim (join [cLF] lines) = join [cLF] lines) as Htrim.
  { unfold trim.
    assert (trimStart (join [cLF] lines) = join [cLF] lines) as ->; [|exact Hend].
    destruct lines as [|p rest]; [congruence|].
    inversion Hall as [|? ? (Hp & Hpt & _) _]; subst.
    pose proof (trim_fixed_head p Hpt) as Hh.
    destruct p as [|c r]; [congruence|].
    destruct rest; cbn [join app]; now apply trimStart_head. }
  repeat split; [exact Hjoin|exact Htrim|].
  unfold header_lines. rewrite split_lines_join.
  - clear Hlines Hjoin Hend Htrim.
    induction Hall as [|l rest (A & B & _) _ IH]; [reflexivity|].
    cbn [List.map filter]. rewrite B.
    destruct l; [congruence|]. cbn [is_empty negb]. now rewrite IH.
  - exact Hlines.
  - eapply Forall_impl; [|exact Hall]. intros l (_ & _ & C & D). now split.
Qed.

(** X13.  Parsing undoes serialising.  Let [m] be a header map whose keys
    are distinct and are the lower-case names of their entries, and whose
    names and values are not empty, carry no white space at either end
    and no line feed, the names no colon either.  When the text
    [serializeHeaders m] is not enclosed in braces, [parseHeaderLines]
    answers [m] on it: the same entries, in the same order, with the same
    spelling of every name. *)
Theorem parsing_undoes_serialising (m : HeaderMap) :
  well_keyed m ->
  canonical m = true ->
  startsWith (serializeHeaders m) (U "{")
    && endsWith (serializeHeaders m) (U "}") = false ->
  parseHeaderLines (Some (serializeHeaders m)) = Ok m.
Proof.
  intros Hwk Hc Hbr.
  assert (m = [] \/ m <> []) as [->|Hne]
    by (destruct m; [now left|right; discriminate]); [reflexivity|].
  destruct (header_lines_of_serialized m Hne Hc) as (Hs & Htrim & Hlines).
  rewrite (parseHeaderLines_lines _ Hs Htrim Hbr).
  unfold parse_lines. rewrite Hlines, (collect_header_lines m [] Hc).
  rewrite (well_keyed_rekey m Hwk).
  rewrite overlay_fresh; [reflexivity|]. exact (proj1 Hwk).
Qed.

Lemma parsing_undoes_serialising_witness :
  parseHeaderLines (Some (serializeHeaders two_headers)) = Ok two_headers.
Proof.
  apply (parsing_undoes_serialising two_headers).
  - split.
    + repeat constructor; cbn; intuition discriminate.
    + repeat constructor.
  - reflexivity.
  - reflexivity.
Defined.

End RoundTrip.

(** ** What the line parser keeps *)

Section LineParserOutput.
Import Orchestrator.

Lemma trimStart_result_head s :
  match trimStart s with c :: _ => is_js_space c = false | [] => True end.
Proof.
  induction s as [|c s IH]; cbn [trimStart]; [exact I|].
  destruct (is_js_space c) eqn:E; [exact IH|exact E].
Qed.

Lemma trimEnd_idempotent s : trimEnd (trimEnd s) = trimEnd s.
Proof.
  induction s as [|c s IH]; [reflexivity|].
  cbn [trimEnd]. destruct (trimEnd s) as [|x k] eqn:E.
  - destruct (is_js_space c) eqn:Es; [reflexivity|].
    cbn [trimEnd]. now rewrite Es.
  - change (trimEnd (c :: x :: k))
      with (match trimEnd (x :: k) with
            | [] => if is_js_space c then [] else [c]
            | kept => c :: kept
            end).
    now rewrite IH.
Qed.

Lemma trimEnd_keeps_head c r :
  is_js_space c = false -> exists k, trimEnd (c :: r) = c :: k.
Proof.
  intros H. cbn [trimEnd]. destruct (trimEnd r); [|eauto].
  rewrite H. eauto.
Qed.

Lemma trim_idempotent s : trim (trim s) = trim s.
Proof.
  unfold trim. pose proof (trimStart_result_head s) as Hh.
  destruct (trimStart s) as [|c r]; [reflexivity|].
  destruct (trimEnd_keeps_head c r Hh) as [k Hk].
  rewrite Hk, (trimStart_head c k Hh), <- Hk. apply trimEnd_idempotent.
Qed.

Lemma existsb_trimStart p s :
  existsb p s = false -> existsb p (trimStart s) = false.
Proof.
  induction s as [|c s IH]; [reflexivity|].
  intros H. cbn [trimStart]. destruct (is_js_space c); [|exact H].
  cbn [existsb] in H. apply orb_false_iff in H. now apply IH.
Qed.

Lemma existsb_trimEnd p s :
  existsb p s = false -> existsb p (trimEnd s) = false.
Proof.
  induction s as [|c s IH]; [reflexivity|].
  cbn [existsb]. rewrite orb_false_iff. intros [Hc Hs].
  cbn [trimEnd]. destruct (trimEnd s) as [|x k] eqn:E.
  - destruct (is_js_space c); [reflexivity|]. cbn [existsb]. now rewrite Hc.
  - cbn [existsb]. rewrite Hc. exact (IH Hs).
Qed.

Lemma existsb_trim p s : existsb p s = false -> existsb p (trim s) = false.
Proof. intros H. now apply existsb_trimEnd, existsb_trimStart. Qed.

Lemma cut_at_spec c s before after :
  cut_at c s = Some (before, after) ->
  s = before ++ c :: after /\ existsb (N.eqb c) before = false.
Proof.
  revert before. induction s as [|x s IH]; intros before; [discriminate|].
  cbn [cut_at]. destruct (N.eqb x c) eqn:E.
  - intros [= <- <-]. apply N.eqb_eq in E. now subst x.
  - destruct (cut_at c s) as [[b a]|]; [|discriminate].
    intros [= <- <-]. destruct (IH b eq_refl) as [-> Hb]. split; [reflexivity|].
    cbn [existsb]. now rewrite N.eqb_sym, E, Hb.
Qed.

Lemma split_lines_no_line_feed s :
  Forall (fun l => existsb (N.eqb cLF) l = false) (split_lines s).
Proof.
  induction s as [|c s IH]; [repeat constructor|].
  cbn [split_lines]. destruct (N.eqb c cLF) eqn:E; [now constructor|].
  destruct (N.eqb c cCR && startsWith s [cLF]); [exact IH|].
  destruct (split_lines s) as [|h t].
  - repeat constructor. cbn [existsb]. now rewrite N.eqb_sym, E.
  - inversion IH; subst. constructor; [|assumption].
    cbn [existsb]. rewrite N.eqb_sym, E. assumption.
Qed.

Lemma header_lines_no_line_feed t :
  Forall (fun l => existsb (N.eqb cLF) l = false) (header_lines t).
Proof.
  unfold header_lines.
  induction (split_lines_no_line_feed t) as [|l rest Hl _ IH]; [constructor|].
  cbn [List.map filter]. destruct (negb (is_empty (trim l))); [|exact IH].
  constructor; [now apply existsb_trim|exact IH].
Qed.

Lemma canonical_map_set m e :
  canonical m = true -> canonical_entry e = true ->
  canonical (map_set m (toLowerCase (name e)) e) = true.
Proof.
  intros Hm He. induction m as [|[k e'] m IH]; cbn [map_set canonical forallb snd].
  - now rewrite He.
  - cbn [canonical forallb snd] in Hm. apply andb_true_iff in Hm.
    destruct Hm as [He' Hm].
    destruct (jeqb k (toLowerCase (name e))); cbn [forallb snd].
    + now rewrite He, Hm.
    + rewrite He'. exact (IH Hm).
Qed.

Lemma plain_trim s :
  existsb (N.eqb cLF) s = false -> is_empty (trim s) = false ->
  plain (trim s) = true.
Proof.
  intros Hlf Hne. unfold plain.
  rewrite Hne, trim_idempotent, jeqb_refl, (existsb_trim _ _ Hlf). reflexivity.
Qed.

Lemma canonical_collect_line m line :
  existsb (N.eqb cLF) line = false ->
  canonical m = true -> canonical (collect_line m line) = true.
Proof.
  intros Hlf Hm. unfold collect_line.
  destruct (cut_at cCOLON line) as [[before after]|] eqn:E; [|exact Hm].
  destruct (cut_at_spec _ _ _ _ E) as [-> Hcolon].
  rewrite existsb_app in Hlf. apply orb_false_iff in Hlf.
  destruct Hlf as [Hb Ha]. cbn [existsb] in Ha. apply orb_false_iff in Ha.
  destruct Ha as [_ Ha].
  destruct (is_empty (trim before)) eqn:Eb; [exact Hm|].
  destruct (is_empty (trim after)) eqn:Ea; [exact Hm|].
  cbn [orb].
  apply (canonical_map_set m {| name := trim before; value := trim after |} Hm).
  unfold canonical_entry. cbn [name value].
  rewrite (plain_trim _ Hb Eb), (plain_trim _ Ha Ea), (existsb_trim _ _ Hcolon).
  reflexivity.
Qed.

Lemma canonical_parse_lines t : canonical (parse_lines t) = true.
Proof.
  unfold parse_lines.
  assert (canonical [] = true) as Hacc by reflexivity.
  revert Hacc. generalize (@nil (jstring * HeaderEntry)) as acc.
  induction (header_lines_no_line_feed t) as [|l rest Hl _ IH]; intros acc Hacc.
  - exact Hacc.
  - cbn [fold_left]. apply IH. now apply canonical_collect_line.
Qed.

(** X14.  The result of the line format is stable.  When a text that is
    not enclosed in braces is parsed to [m], every name and value of [m]
    is non-empty, free of white space at both ends and of line feeds, no
    name holds a colon, and, unless the text serialised from [m] is
    itself enclosed in braces, parsing that text gives [m] again. *)
Theorem line_format_is_stable (raw : jstring) (m : HeaderMap) :
  enclosed_in_braces (trim raw) = false ->
  parseHeaderLines (Some raw) = Ok m ->
  canonical m = true
  /\ (enclosed_in_braces (serializeHeaders m) = false ->
      parseHeaderLines (Some (serializeHeaders m)) = Ok m).
Proof.
  intros Hbr Hparse.
  assert (canonical m = true) as Hc.
  { unfold parseHeaderLines in Hparse. destruct raw as [|c r].
    - now injection Hparse as <-.
    - cbv zeta in Hparse. destruct (is_empty (trim (c :: r))).
      + now injection Hparse as <-.
      + unfold enclosed_in_braces in Hbr. rewrite Hbr in Hparse.
        injection Hparse as <-. apply canonical_parse_lines. }
  split; [exact Hc|]. intros Hbr'.
  pose proof (orchestrator_parser_well_keyed _ _ Hparse) as Hwk.
  assert (m = [] \/ m <> []) as [->|Hne]
    by (destruct m; [now left|right; discriminate]); [reflexivity|].
  destruct (header_lines_of_serialized m Hne Hc) as (Hs & Htrim & Hlines).
  rewrite (parseHeaderLines_lines _ Hs Htrim Hbr').
  unfold parse_lines. rewrite Hlines, (collect_header_lines m [] Hc).
  rewrite (well_keyed_rekey m Hwk).
  rewrite overlay_fresh; [reflexivity|]. exact (proj1 Hwk).
Qed.

Lemma line_format_is_stable_witness :
  enclosed_in_braces (trim three_lines) = false
  /\ parseHeaderLines (Some three_lines) = Ok (parse_lines three_lines)
  /\ List.length (parse_lines three_lines) = 2
  /\ canonical (parse_lines three_lines) = true
  /\ parseHeaderLines (Some (serializeHeaders (parse_lines three_lines)))
     = Ok (parse_lines three_lines).
Proof.
  assert (enclosed_in_braces (trim three_lines) = false) as Hbr
    by reflexivity.
  assert (parseHeaderLines (Some three_lines) = Ok (parse_lines three_lines))
    as Hparse by (vm_compute; reflexivity).
  destruct (line_format_is_stable three_lines (parse_lines three_lines)
              Hbr Hparse) as [Hc Hrt].
  split; [exact Hbr|]. split; [exact Hparse|]. split; [reflexivity|].
  split; [exact Hc|]. apply Hrt. reflexivity.
Defined.

End LineParserOutput.

(** ** The model option of the arguments *)

Section ModelOption.
Import Orchestrator.

Lemma startsWith_split (p s : jstring) :
  startsWith s p = true -> exists r, s = p ++ r.
Proof.
  revert s. induction p as [|x p IH]; intros s H; [now exists s|].
  destruct s as [|y s]; [discriminate|].
  cbn [startsWith] in H. apply andb_true_iff in H. destruct H as [Hx Hs].
  apply N.eqb_eq in Hx. subst y. destruct (IH s Hs) as [r ->]. now exists r.
Qed.

Lemma startsWith_shorter (p s z : jstring) :
  startsWith (s ++ z) p = true -> List.length p <= List.length s ->
  startsWith s p = true.
Proof.
  revert s. induction p as [|x p IH]; intros s H Hlen.
  - now destruct s.
  - destruct s as [|y s]; [cbn in Hlen; lia|].
    cbn [app startsWith] in *. apply andb_true_iff in H. destruct H as [Hx Hs].
    rewrite Hx. cbn in Hlen. apply (IH s Hs). lia.
Qed.

Lemma skipn_length_app (A : Type) (p r : list A) :
  skipn (List.length p) (p ++ r) = r.
Proof. induction p as [|x p IH]; [reflexivity|exact IH]. Qed.

Lemma trimStart_split s :
  exists gap, s = gap ++ trimStart s /\ blank gap = true.
Proof.
  induction s as [|c s (gap & Hs & Hgap)]; [now exists []|].
  cbn [trimStart]. destruct (is_js_space c) eqn:E.
  - exists (c :: gap). cbn [app blank forallb]. rewrite E.
    split; [now rewrite <- Hs|exact Hgap].
  - now exists [].
Qed.

Lemma trimStart_blank gap s :
  blank gap = true ->
  match s with c :: _ => is_js_space c = false | [] => True end ->
  trimStart (gap ++ s) = s.
Proof.
  intros Hgap Hs. induction gap as [|c gap IH]; cbn [app].
  - destruct s as [|c r]; [reflexivity|]. now apply trimStart_head.
  - cbn [blank forallb] in Hgap. apply andb_true_iff in Hgap.
    destruct Hgap as [Hc Hgap]. cbn [trimStart]. rewrite Hc. exact (IH Hgap).
Qed.

Lemma take_nonspace_split s :
  exists rest,
    s = take_nonspace s ++ rest
    /\ solid (take_nonspace s) = true /\ ends_the_word rest = true.
Proof.
  induction s as [|c s (rest & Hs & Hsolid & Hrest)]; [now exists []|].
  cbn [take_nonspace]. destruct (is_js_space c) eqn:E.
  - exists (c :: s). cbn [app ends_the_word]. now rewrite E.
  - exists rest. cbn [app solid forallb]. rewrite E.
    repeat split; [now rewrite <- Hs|exact Hsolid|exact Hrest].
Qed.

Lemma take_nonspace_solid m rest :
  solid m = true -> ends_the_word rest = true ->
  take_nonspace (m ++ rest) = m.
Proof.
  intros Hm Hrest. induction m as [|c m IH]; cbn [app].
  - destruct rest as [|c r]; [reflexivity|].
    cbn [ends_the_word] in Hrest. cbn [take_nonspace]. now rewrite Hrest.
  - cbn [solid forallb] in Hm. apply andb_true_iff in Hm.
    destruct Hm as [Hc Hm]. apply negb_true_iff in Hc.
    cbn [take_nonspace]. rewrite Hc. now rewrite (IH Hm).
Qed.

Lemma match_model_at_sound s m :
  match_model_at s = Some m ->
  exists gap rest,
    s = model_flag ++ gap ++ m ++ rest
    /\ gap <> [] /\ blank gap = true
    /\ m <> [] /\ solid m = true /\ ends_the_word rest = true.
Proof.
  unfold match_model_at. fold model_flag.
  destruct (startsWith s model_flag) eqn:Hs; [|discriminate].
  destruct (startsWith_split _ _ Hs) as [r ->].
  change 7 with (List.length model_flag). rewrite skipn_length_app.
  destruct r as [|c after]; [discriminate|].
  destruct (is_js_space c) eqn:Hc; [|discriminate].
  pose proof (trimStart_result_head after) as Hh.
  destruct (trimStart_split after) as (gap & Hafter & Hgap).
  destruct (trimStart after) as [|x word] eqn:Et; [discriminate|].
  intros Hm.
  assert (m = take_nonspace (x :: word)) as ->
    by (injection Hm as <-; reflexivity).
  clear Hm.
  destruct (take_nonspace_split (x :: word)) as (rest & Hw & Hsolid & Hrest).
  exists (c :: gap), rest. repeat split.
  - cbn [app]. rewrite <- Hw. now rewrite <- Hafter.
  - discriminate.
  - cbn [blank forallb]. now rewrite Hc.
  - cbn [take_nonspace]. rewrite Hh. discriminate.
  - exact Hsolid.
  - exact Hrest.
Qed.

Lemma match_model_at_complete gap m rest :
  gap <> [] -> blank gap = true -> m <> [] -> solid m = true ->
  ends_the_word rest = true ->
  match_model_at (model_flag ++ gap ++ m ++ rest) = Some m.
Proof.
  intros Hg Hgap Hm Hsolid Hrest. unfold match_model_at. fold model_flag.
  rewrite startsWith_app.
  change 7 with (List.length model_flag). rewrite skipn_length_app.
  destruct gap as [|c gap]; [congruence|].
  cbn [blank forallb] in Hgap. apply andb_true_iff in Hgap.
  destruct Hgap as [Hc Hgap]. cbn [app]. rewrite Hc.
  assert (trimStart (gap ++ m ++ rest) = m ++ rest) as ->.
  { apply trimStart_blank; [exact Hgap|].
    destruct m as [|x m]; [congruence|]. cbn [app].
    cbn [solid forallb] in Hsolid. apply andb_true_iff in Hsolid.
    now apply negb_true_iff. }
  pose proof (take_nonspace_solid m rest Hsolid Hrest) as Htake.
  destruct m as [|x m]; [congruence|].
  cbn [app] in *. cbv iota. now rewrite Htake.
Qed.

Lemma search_model_sound s m :
  search_model s = Some m ->
  exists pre gap rest,
    s = pre ++ model_flag ++ gap ++ m ++ rest
    /\ gap <> [] /\ blank gap = true
    /\ m <> [] /\ solid m = true /\ ends_the_word rest = true.
Proof.
  induction s as [|c s IH]; [discriminate|].
  cbn [search_model].
  destruct (match_model_at (c :: s)) as [m'|] eqn:E.
  - intros [= ->]. destruct (match_model_at_sound _ _ E) as (gap & rest & H).
    now exists [], gap, rest.
  - intros H. destruct (IH H) as (pre & gap & rest & -> & Hrest).
    now exists (c :: pre), gap, rest.
Qed.

Lemma search_model_first pre gap m rest :
  includes (pre ++ U "--mode") model_flag = false ->
  gap <> [] -> blank gap = true -> m <> [] -> solid m = true ->
  ends_the_word rest = true ->
  search_model (pre ++ model_flag ++ gap ++ m ++ rest) = Some m.
Proof.
  intros Hpre Hg Hgap Hm Hsolid Hrest.
  pose proof (match_model_at_complete gap m rest Hg Hgap Hm Hsolid Hrest) as Hat.
  induction pre as [|c pre IH].
  - cbn [app]. destruct (model_flag ++ gap ++ m ++ rest) eqn:E;
      [discriminate Hat|].
    cbn [search_model]. now rewrite Hat.
  - cbn [app includes] in Hpre. apply orb_false_iff in Hpre.
    destruct Hpre as [Hhere Hlater].
    cbn [app search_model].
    assert (match_model_at (c :: pre ++ model_flag ++ gap ++ m ++ rest) = None)
      as ->.
    { unfold match_model_at. fold model_flag.
      destruct (startsWith (c :: pre ++ model_flag ++ gap ++ m ++ rest)
                  model_flag) eqn:Es; [|reflexivity].
      exfalso.
      change model_flag with (U "--mode" ++ [108%N]) in Es at 1.
      rewrite <- app_assoc, app_assoc in Es.
      change (c :: (pre ++ U "--mode") ++ [108%N] ++ gap ++ m ++ rest)
        with ((c :: pre ++ U "--mode") ++ [108%N] ++ gap ++ m ++ rest) in Es.
      apply startsWith_shorter in Es.
      - congruence.
      - cbn [List.length]. rewrite length_app.
        change (List.length model_flag) with 7.
        change (List.length (U "--mode")) with 6. lia. }
    exact (IH Hlater).
Qed.

(** X15.  [extractModelFromClaudeArgs] answers what follows the model
    option.  A name it answers stands in the arguments behind [--model]
    and a non-empty run of white space, is not empty, holds no white
    space, and is followed by white space or by the end of the text.
    Conversely, for arguments of that shape in which [--model] does not
    occur earlier, the name behind the option is the answer. *)
Theorem model_option_is_extracted (args : jstring) :
  (forall m,
     extractModelFromClaudeArgs (Some args) = Some m ->
     exists pre gap rest,
       args = pre ++ model_flag ++ gap ++ m ++ rest
       /\ gap <> [] /\ blank gap = true
       /\ m <> [] /\ solid m = true /\ ends_the_word rest = true)
  /\ (forall pre gap m rest,
        args = pre ++ model_flag ++ gap ++ m ++ rest ->
        includes (pre ++ U "--mode") model_flag = false ->
        gap <> [] -> blank gap = true -> m <> [] -> solid m = true ->
        ends_the_word rest = true ->
        extractModelFromClaudeArgs (Some args) = Some m).
Proof.
  split.
  - intros m. unfold extractModelFromClaudeArgs.
    destruct args as [|c r]; [discriminate|]. cbn [truthy].
    apply search_model_sound.
  - intros pre gap m rest -> Hpre Hg Hgap Hm Hsolid Hrest.
    pose proof (search_model_first pre gap m rest Hpre Hg Hgap Hm Hsolid Hrest)
      as H.
    unfold extractModelFromClaudeArgs.
    destruct (pre ++ model_flag ++ gap ++ m ++ rest) as [|c r];
      [discriminate H|exact H].
Qed.

Lemma model_option_is_extracted_witness :
  extractModelFromClaudeArgs (Some claude_args) = Some (U "claude-sonnet-4").
Proof.
  apply (proj2 (model_option_is_extracted claude_args)
           (U "--max-turns 3 --mode fast ") [cTAB; cSPACE]
           (U "claude-sonnet-4") (U " --verbose"));
    try reflexivity; discriminate.
Defined.

End ModelOption.

(** ** The additional models, from the variable to the proxy *)

Section AdditionalModels.
Import Orchestrator.

Lemma split_list_no_separator s :
  Forall (fun l => existsb is_separator l = false) (split_list s).
Proof.
  induction s as [|c s IH]; [repeat constructor|].
  cbn [split_list]. fold (is_separator c).
  destruct (is_separator c) eqn:E; [now constructor|].
  destruct (split_list s) as [|h t].
  - repeat constructor. cbn [existsb]. now rewrite E.
  - inversion IH; subst. constructor; [|assumption].
    cbn [existsb]. now rewrite E.
Qed.

Lemma parseAdditionalModels_listed raw :
  Forall listed_name (parseAdditionalModels raw).
Proof.
  unfold parseAdditionalModels. destruct (truthy raw); [|constructor].
  destruct raw as [r|]; [|constructor].
  induction (split_list_no_separator r) as [|l rest Hl _ IH]; [constructor|].
  cbn [List.map filter]. destruct (trim l) as [|c t] eqn:E; [exact IH|].
  cbn [is_empty negb]. constructor; [|exact IH].
  rewrite <- E. repeat split.
  - rewrite E. discriminate.
  - apply trim_idempotent.
  - now apply existsb_trim.
Qed.

Lemma trim_filter_listed l :
  Forall listed_name l ->
  filter (fun model => negb (is_empty model)) (List.map trim l) = l.
Proof.
  induction 1 as [|m l (Hne & Htrim & _) _ IH]; [reflexivity|].
  cbn [List.map filter]. rewrite Htrim, IH.
  destruct m; [congruence|reflexivity].
Qed.

(** X16.  The additional models reach the proxy as the orchestrator read
    them.  Every name [parseAdditionalModels] takes from
    [OPENROUTER_ADDITIONAL_MODELS] is non-empty, free of white space at
    both ends and of the separators (comma and line feed); the second
    trimming and filtering, done by [startOpenRouterProxy], changes
    nothing; and every such name is among the models of the generated
    configuration, behind the defaults and the preferred model. *)
Theorem additional_models_reach_the_proxy (e : Env) (key : jstring) :
  let listed := parseAdditionalModels (getenv e "OPENROUTER_ADDITIONAL_MODELS") in
  let options := proxied_options e key in
  Forall listed_name listed
  /\ additional_models options = listed
  /\ Proxy.allModels options
     = keep_first (Proxy.DEFAULT_MODELS ++ preferred_models options ++ listed)
  /\ (forall m, In m listed -> In m (Proxy.allModels options)).
Proof.
  intros listed options.
  pose proof (parseAdditionalModels_listed
                (getenv e "OPENROUTER_ADDITIONAL_MODELS")) as Hl.
  fold listed in Hl.
  assert (additional_models options = listed) as Hadd
    by exact (trim_filter_listed listed Hl).
  assert (Proxy.allModels options
          = keep_first (Proxy.DEFAULT_MODELS ++ preferred_models options
                          ++ listed)) as Hall
    by (rewrite allModels_unfold, set_of_keep_first, Hadd; reflexivity).
  repeat split; try assumption.
  intros m Hm. rewrite Hall. apply In_keep_first.
  apply in_or_app. right. apply in_or_app. now right.
Qed.

End AdditionalModels.

(** ** The header section of the generated configuration *)

Section HeaderSection.
Import Proxy.
Variable V : Type.
Implicit Types (o : object V) (k : jstring) (v : V).

Lemma jeqb_sym (a b : jstring) : jeqb a b = jeqb b a.
Proof.
  destruct (jeqb a b) eqn:E; symmetry.
  - apply jeqb_eq in E. subst. apply jeqb_refl.
  - apply jeqb_neq. apply jeqb_neq in E. congruence.
Qed.

Lemma jeqb_trans_false (a b c : jstring) :
  jeqb a b = false -> jeqb a c = true -> jeqb b c = false.
Proof.
  intros Hab Hac. apply jeqb_eq in Hac. subst c.
  now rewrite jeqb_sym.
Qed.

Lemma get_replace_value o k v k' :
  has_key o k = true ->
  get (replace_value o k v) k' = if jeqb k k' then Some v else get o k'.
Proof.
  induction o as [|[k0 v0] o IH]; [discriminate|].
  cbn [has_key replace_value]. destruct (jeqb k0 k) eqn:E0.
  - intros _. apply jeqb_eq in E0. subst k0. cbn [get].
    now destruct (jeqb k k').
  - cbn [orb get]. intros Hk. rewrite (IH Hk).
    destruct (jeqb k0 k') eqn:E1; [|reflexivity].
    apply jeqb_eq in E1. subst k'. now rewrite jeqb_sym, E0.
Qed.

Lemma get_insert_index o n k v k' :
  has_key o k = false ->
  get (insert_index o n k v) k' = if jeqb k k' then Some v else get o k'.
Proof.
  induction o as [|[k0 v0] o IH]; [reflexivity|].
  cbn [has_key insert_index]. rewrite orb_false_iff. intros [E0 Hk].
  destruct (array_index k0) as [i|]; [|reflexivity].
  destruct (i <? n)%N; [|reflexivity].
  cbn [get]. rewrite (IH Hk).
  destruct (jeqb k0 k') eqn:E1; [|reflexivity].
  apply jeqb_eq in E1. subst k'. now rewrite jeqb_sym, E0.
Qed.

Lemma get_append o k v k' :
  has_key o k = false ->
  get (o ++ [(k, v)]) k' = if jeqb k k' then Some v else get o k'.
Proof.
  induction o as [|[k0 v0] o IH]; [reflexivity|].
  cbn [has_key app get]. rewrite orb_false_iff. intros [E0 Hk].
  rewrite (IH Hk).
  destruct (jeqb k0 k') eqn:E1; [|reflexivity].
  apply jeqb_eq in E1. subst k'. now rewrite jeqb_sym, E0.
Qed.

Lemma get_obj_define o k v k' :
  get (obj_define o k v) k' = if jeqb k k' then Some v else get o k'.
Proof.
  unfold obj_define. destruct (has_key o k) eqn:E.
  - now apply get_replace_value.
  - destruct (array_index k); [now apply get_insert_index|now apply get_append].
Qed.

Lemma get_spread (extra o : object V) k' :
  has_key extra k' = false ->
  get (fold_left (fun o kv => obj_define o (fst kv) (snd kv)) extra o) k'
  = get o k'.
Proof.
  revert o. induction extra as [|[k v] extra IH]; intros o; [reflexivity|].
  cbn [has_key fold_left fst snd]. rewrite orb_false_iff. intros [E Hk].
  rewrite (IH _ Hk), get_obj_define. now rewrite E.
Qed.

Lemma get_spread_defined (extra o : object V) k' :
  get o k' <> None ->
  get (fold_left (fun o kv => obj_define o (fst kv) (snd kv)) extra o) k'
  <> None.
Proof.
  revert o. induction extra as [|[k v] extra IH]; intros o H; [exact H|].
  cbn [fold_left fst snd]. apply IH. rewrite get_obj_define.
  destruct (jeqb k k'); [discriminate|exact H].
Qed.

End HeaderSection.

Section HeaderSectionFacts.
Import Proxy.

(** X17.  The header section of the generated configuration.  The header
    object is always built, and always holds [HTTP-Referer] and [X-Title]:
    when the extra headers do not name them (in that spelling), their
    values are the trimmed site URL and title of the options, or the
    defaults when those are absent or blank.  The object is therefore
    never empty, and the section of every model is the list of header
    lines, never the empty mapping. *)
Theorem header_section_is_never_empty (options : OpenRouterProxyOptions) :
  exists extra entries,
    parseHeaderLines (extraHeaders options) = Ok extra
    /\ headerEntries options = Ok entries
    /\ get entries (U "HTTP-Referer") <> None
    /\ get entries (U "X-Title") <> None
    /\ (has_key extra (U "HTTP-Referer") = false ->
        get entries (U "HTTP-Referer")
        = Some (or_default (option_map trim (siteUrl options)) referer_default))
    /\ (has_key extra (U "X-Title") = false ->
        get entries (U "X-Title")
        = Some (or_default (option_map trim (appTitle options)) title_default))
    /\ extraHeadersSection entries = NL ++ headerYaml entries.
Proof.
  destruct (supervisor_parser_never_throws (extraHeaders options))
    as [extra Hextra].
  unfold headerEntries. rewrite Hextra. cbn [rbind].
  set (literal := obj_define (obj_define [] (U "HTTP-Referer") _) (U "X-Title") _).
  set (entries := fold_left _ extra literal).
  assert (get literal (U "HTTP-Referer")
          = Some (or_default (option_map trim (siteUrl options)) referer_default))
    as Hr by reflexivity.
  assert (get literal (U "X-Title")
          = Some (or_default (option_map trim (appTitle options)) title_default))
    as Ht by reflexivity.
  assert (get entries (U "HTTP-Referer") <> None) as Hr'.
  { apply get_spread_defined. rewrite Hr. discriminate. }
  exists extra, entries. repeat split.
  - exact Hr'.
  - apply get_spread_defined. rewrite Ht. discriminate.
  - intros H. subst entries. now rewrite get_spread.
  - intros H. subst entries. now rewrite get_spread.
  - unfold extraHeadersSection.
    destruct entries as [|kv rest]; [now contradiction Hr'|reflexivity].
Qed.

End HeaderSectionFacts.

(** ** Writing a header twice *)

Section HeaderWrites.
Import Orchestrator.

Lemma map_set_twice (V : Type) (m : list (jstring * V)) k a b :
  map_set (map_set m k a) k b = map_set m k b.
Proof.
  induction m as [|[k0 v0] m IH]; cbn [map_set].
  - now rewrite jeqb_refl.
  - destruct (jeqb k0 k) eqn:E; cbn [map_set]; rewrite E; [reflexivity|].
    now rewrite IH.
Qed.

Lemma one_entry_per_key (V : Type) (m : list (jstring * V)) k :
  NoDup (keys m) -> In k (keys m) ->
  List.length (filter (fun kv => jeqb (fst kv) k) m) = 1.
Proof.
  induction m as [|[k0 v0] m IH]; intros Hnd Hin; [destruct Hin|].
  inversion Hnd as [|? ? Hnotin Hnd']; subst.
  cbn [filter fst]. destruct (jeqb k0 k) eqn:E.
  - apply jeqb_eq in E. subst k0. cbn [List.length]. f_equal.
    assert (filter (fun kv => jeqb (fst kv) k) m = []) as ->; [|reflexivity].
    clear IH Hnd Hin Hnd'. induction m as [|[k1 v1] m IH]; [reflexivity|].
    cbn [filter fst]. destruct (jeqb k1 k) eqn:E1.
    + apply jeqb_eq in E1. subst k1. exfalso. apply Hnotin. now left.
    + apply IH. intros H. apply Hnotin. now right.
  - apply IH; [exact Hnd'|]. destruct Hin as [H|H]; [|exact H].
    cbn in H. subst k0. now rewrite jeqb_refl in E.
Qed.

(** X18.  Header names are written without regard to case.  A header set
    under a name that differs from an earlier one by case only replaces
    the earlier entry: the map is the one the second write alone would
    have given, so it holds one entry for the name, at the place of the
    first, with the spelling and the value of the last; every other
    entry is as it was.  In a map that had one entry per name before, the
    name written has exactly one entry afterwards, in whatever case the
    names of the entries are compared, and the map still has one entry
    per name. *)
Theorem header_names_ignore_case (m : HeaderMap) (n v n' v' : jstring) :
  toLowerCase n = toLowerCase n' ->
  setHeader (setHeader m n v) n' v' = setHeader m n' v'
  /\ map_get (setHeader m n' v') (toLowerCase n)
     = Some {| name := n'; value := v' |}
  /\ keys (setHeader m n' v')
     = (if has_key m (toLowerCase n) then keys m
        else keys m ++ [toLowerCase n])
  /\ (forall k, k <> toLowerCase n ->
        map_get (setHeader m n' v') k = map_get m k)
  /\ (well_keyed m ->
      well_keyed (setHeader (setHeader m n v) n' v')
      /\ List.length
           (filter (fun kv => jeqb (toLowerCase (name (snd kv)))
                                (toLowerCase n'))
              (setHeader (setHeader m n v) n' v')) = 1).
Proof.
  intros Hcase. unfold setHeader. rewrite <- Hcase.
  split; [apply map_set_twice|]. split; [apply map_get_set_same|].
  split; [apply keys_map_set|].
  split; [intros k Hk; apply map_get_set_other; congruence|].
  intros Hwk. rewrite map_set_twice.
  assert (well_keyed (map_set m (toLowerCase n) {| name := n'; value := v' |}))
    as Hwk'.
  { rewrite Hcase. now apply well_keyed_set. }
  split; [exact Hwk'|].
  destruct Hwk' as [Hnd Hk].
  rewrite (filter_ext_in _ (fun kv => jeqb (fst kv) (toLowerCase n))).
  - apply one_entry_per_key; [exact Hnd|].
    eapply map_get_Some_In. apply map_get_set_same.
  - intros kv Hin. rewrite Forall_forall in Hk. now rewrite <- (Hk kv Hin).
Qed.

Lemma header_names_ignore_case_witness :
  setHeader (setHeader two_headers (U "AUTHORIZATION") (U "Bearer old"))
    (U "authorization") (U "Bearer new")
  = [ (U "x-test", {| name := U "X-Test"; value := U "Value: 1" |});
      (U "authorization", {| name := U "authorization";
                             value := U "Bearer new" |}) ].
Proof.
  rewrite (proj1 (header_names_ignore_case two_headers
                    (U "AUTHORIZATION") (U "Bearer old")
                    (U "authorization") (U "Bearer new") eq_refl)).
  reflexivity.
Defined.

End HeaderWrites.

(** ** What the supervisor leaves alone *)

Section SupervisorFrame.
Import Proxy.

(** X19.  [startOpenRouterProxy] reads the environment and never writes
    it: whether it returns a handle or throws, at whichever step, the
    variables of [process.env] and the initialization flag of the
    orchestrator are what they were before the call. *)
Theorem supervisor_never_writes_the_environment
  (options : OpenRouterProxyOptions) (w : World) (st : State) :
  env (final (startOpenRouterProxy options w st)) = env st
  /\ proxyInitialized (final (startOpenRouterProxy options w st))
     = proxyInitialized st.
Proof. exact (keeps_startOpenRouterProxy options w st). Qed.

End SupervisorFrame.

(** ** One entry per header name *)

Section UniqueNames.
Import Orchestrator.







End UniqueNames.

(** ** The case conversion on letters of every script *)

Section CaseConversion.
Import Orchestrator.

Example lower_case_of_every_script :
  toLowerCase (U "X-Title") = U "x-title"
  /\ toLowerCase [0x00C9; 0x0054; 0x00C9]%N = [0x00E9; 0x0074; 0x00E9]%N
  /\ toLowerCase [0x03A9]%N = [0x03C9]%N
  /\ toLowerCase [0x0416]%N = [0x0436]%N
  /\ toLowerCase [0x212A]%N = [0x006B]%N
  /\ toLowerCase [0x0130]%N = [0x0069; 0x0307]%N
  /\ toLowerCase [0x039F; 0x0394; 0x039F; 0x03A3]%N
     = [0x03BF; 0x03B4; 0x03BF; 0x03C2]%N
  /\ toLowerCase [0x03A3; 0x0391]%N = [0x03C3; 0x03B1]%N
  /\ toLowerCase [0xD801; 0xDC00]%N = [0xD801; 0xDC28]%N
  /\ toLowerCase [0xDC00; 0xD801]%N = [0xDC00; 0xD801]%N.
Proof. repeat split; vm_compute; reflexivity. Qed.

Example greek_names_share_one_entry :
  parseHeaderLines
    (Some ([0x03A9]%N ++ U "mega: a" ++ [cLF] ++ [0x03C9]%N ++ U "mega: b"))
  = Ok [ ([0x03C9]%N ++ U "mega",
          {| name := [0x03C9]%N ++ U "mega"; value := U "b" |}) ].
Proof. vm_compute. reflexivity. Qed.

Example kelvin_sign_names_are_merged :
  setHeader
    [ (U "x-kind", {| name := U "X-Kind"; value := U "old" |}) ]
    (U "X-" ++ [0x212A]%N ++ U "ind") (U "new")
  = [ (U "x-kind",
       {| name := U "X-" ++ [0x212A]%N ++ U "ind"; value := U "new" |}) ].
Proof. vm_compute. reflexivity. Qed.

End CaseConversion.
